(** * cgse: the Aim-TTi TGF4000 arbitrary wave generator driver

    A shallow embedding of the transport (tgf4000_devif.py), the response
    parsers, simulator and controller (tgf4000.py), the command protocol
    (tgf4000_protocol.py) and the ARB data block (aim_tti/__init__.py),
    with the properties of the driver stated and proved over it.

    Python values are modelled as the code uses them: a [bytes] object is a
    list of bytes, a [str] a list of Unicode code points, an [int] is a [Z],
    a raised exception is a value of [exception] carried by [result]; a
    float is only ever stored and handed back by the modelled code, so it
    is carried as a rational. *)

From Stdlib Require Import ZArith NArith QArith Strings.String Strings.Byte Bool Lia.
From stdpp Require Import base option list gmap strings.
From Equations Require Import Equations.

Local Open Scope N_scope.

(** ** The Python built-ins the driver relies on *)

Module Python.

(** The exception classes that the driver raises, catches or lets through.
    [socket.timeout] is an alias of [TimeoutError] and [socket.error] an
    alias of [OSError]; [TimeoutError] and [ConnectionError] are subclasses
    of [OSError]. [OSError] below stands for every other [OSError].
    [DeviceConnectionError] comes from [egse.device], which derives it from
    [ConnectionError]: it is caught where a [ConnectionError] is. *)
Inductive exception : Type :=
| TimeoutError
| ConnectionError
| OSError
| UnicodeError
| AttributeError
| UnboundLocalError
| TypeError
| IndexError
| ValueError
| OverflowError
| KeyError
| SetupError
| DeviceTimeoutError
| DeviceConnectionError.

(** [isinstance(e, socket.timeout)] *)
Definition is_socket_timeout (e : exception) : bool :=
  match e with TimeoutError => true | _ => false end.

(** [isinstance(e, socket.error)] *)
Definition is_socket_error (e : exception) : bool :=
  match e with
  | TimeoutError | ConnectionError | OSError | DeviceConnectionError => true
  | _ => false
  end.

(** [isinstance(e, ConnectionError)] *)
Definition is_connection_error (e : exception) : bool :=
  match e with ConnectionError | DeviceConnectionError => true | _ => false end.

(** The outcome of a call: a returned value or a raised exception. *)
Inductive result (A : Type) : Type :=
| Return (a : A)
| Raise (e : exception).
Arguments Return {A} a.
Arguments Raise {A} e.

Abbreviation bytes := (list byte).
Abbreviation str := (list N).

(** An ASCII literal as a [bytes] object and as a [str]. *)
Definition b (s : string) : bytes := list_byte_of_string s.
Definition u (s : string) : str := Byte.to_N <$> list_byte_of_string s.

Definition LF : N := 10.
Definition CR : N := 13.

(** The byte of a number below 256. *)
Definition byte_of_N (n : N) : byte := default x00 (Byte.of_N n).

Definition str_eqb (s t : str) : bool := bool_decide (s = t).

(** [s.startswith(prefix)] and [s.endswith(suffix)] *)
Definition startswith (s prefix : str) : bool := str_eqb (take (length prefix) s) prefix.
Definition endswith (s suffix : str) : bool :=
  str_eqb (drop (length s - length suffix)%nat s) suffix.

(** [str.isspace] of one character: the Unicode white space. *)
Definition is_space (c : N) : bool :=
  ((9 <=? c) && (c <=? 13)) || ((28 <=? c) && (c <=? 32)) || (c =? 133) || (c =? 160)
  || (c =? 5760) || ((8192 <=? c) && (c <=? 8202)) || (c =? 8232) || (c =? 8233)
  || (c =? 8239) || (c =? 8287) || (c =? 12288).

Fixpoint lstrip (s : str) : str :=
  match s with
  | c :: s' => if is_space c then lstrip s' else s
  | [] => []
  end.

Definition rstrip (s : str) : str := rev (lstrip (rev s)).
Definition strip (s : str) : str := rstrip (lstrip s).

(** [s.replace(c, "")] for a one-character [c]. *)
Definition remove_char (c : N) (s : str) : str := filter (fun x => x ≠ c) s.

(** [bytes.decode(encoding="latin1", errors="ignore")]: every byte is the
    code point of the same value, so nothing is ever ignored. *)
Definition latin1_decode (data : bytes) : str := Byte.to_N <$> data.

(** [str.encode(encoding="latin1")]: a code point above 255 raises. *)
Fixpoint latin1_encode (s : str) : option bytes :=
  match s with
  | [] => Some []
  | c :: s' =>
    match Byte.of_N c, latin1_encode s' with
    | Some x, Some data => Some (x :: data)
    | _, _ => None
    end
  end.

(** [str.encode()]: UTF-8; a surrogate cannot be encoded. *)
Definition utf8_encode_char (c : N) : option bytes :=
  if c <? 128 then Some [byte_of_N c]
  else if c <? 2048 then Some [byte_of_N (192 + c / 64); byte_of_N (128 + c mod 64)]
  else if c <? 65536 then
    if (55296 <=? c) && (c <? 57344) then None
    else Some [byte_of_N (224 + c / 4096); byte_of_N (128 + (c / 64) mod 64);
               byte_of_N (128 + c mod 64)]
  else if c <? 1114112 then
    Some [byte_of_N (240 + c / 262144); byte_of_N (128 + (c / 4096) mod 64);
          byte_of_N (128 + (c / 64) mod 64); byte_of_N (128 + c mod 64)]
  else None.

Fixpoint utf8_encode (s : str) : option bytes :=
  match s with
  | [] => Some []
  | c :: s' =>
    match utf8_encode_char c, utf8_encode s' with
    | Some x, Some data => Some (x ++ data)
    | _, _ => None
    end
  end.

(** [bytes.decode()]: strict UTF-8; [None] stands for [UnicodeDecodeError]. *)
Definition is_continuation (x : N) : bool := (128 <=? x) && (x <? 192).

Fixpoint utf8_decode_N (data : list N) : option str :=
  match data with
  | [] => Some []
  | b0 :: r0 =>
    if b0 <? 128 then cons b0 <$> utf8_decode_N r0
    else if (194 <=? b0) && (b0 <? 224) then
      match r0 with
      | b1 :: r1 =>
        if is_continuation b1
        then cons ((b0 - 192) * 64 + (b1 - 128)) <$> utf8_decode_N r1
        else None
      | _ => None
      end
    else if (224 <=? b0) && (b0 <? 240) then
      match r0 with
      | b1 :: b2 :: r2 =>
        let c := (b0 - 224) * 4096 + (b1 - 128) * 64 + (b2 - 128) in
        if is_continuation b1 && is_continuation b2 && (2048 <=? c)
           && negb ((55296 <=? c) && (c <? 57344))
        then cons c <$> utf8_decode_N r2
        else None
      | _ => None
      end
    else if (240 <=? b0) && (b0 <? 245) then
      match r0 with
      | b1 :: b2 :: b3 :: r3 =>
        let c := (b0 - 240) * 262144 + (b1 - 128) * 4096 + (b2 - 128) * 64 + (b3 - 128) in
        if is_continuation b1 && is_continuation b2 && is_continuation b3
           && (65536 <=? c) && (c <? 1114112)
        then cons c <$> utf8_decode_N r3
        else None
      | _ => None
      end
    else None
  end.

Definition utf8_decode (data : bytes) : option str := utf8_decode_N (Byte.to_N <$> data).


(** [s.join(fields)] *)
Fixpoint join (sep : str) (fields : list str) : str :=
  match fields with
  | [] => []
  | [f] => f
  | f :: rest => f ++ sep ++ join sep rest
  end.

(** [s.partition(sep)], when [sep] occurs in [s]: the text before its first
    occurrence and the text after it. *)
Fixpoint partition (sep s : str) : option (str * str) :=
  if startswith s sep then Some ([], drop (length sep) s)
  else match s with
       | [] => None
       | c :: s' =>
         match partition sep s' with
         | Some (before, after) => Some (c :: before, after)
         | None => None
         end
       end.

Lemma partition_shorter (c : N) (sep s before after : str) :
  partition (c :: sep) s = Some (before, after) -> (length after < length s)%nat.
Proof.
  revert before. induction s as [|x s IH]; intros before.
  - cbn [partition]. unfold startswith, str_eqb. rewrite take_nil.
    rewrite bool_decide_eq_false_2 by discriminate. discriminate.
  - cbn [partition]. destruct (startswith (x :: s) (c :: sep)).
    + intros [= <- <-]. simpl. rewrite length_drop. lia.
    + destruct (partition (c :: sep) s) as [[b0 a0]|]; [|discriminate].
      intros [= <- <-]. specialize (IH b0 eq_refl). simpl. lia.
Qed.

Definition inspect {A : Type} (a : A) : {x : A | a = x} := exist _ a eq_refl.

(** [s.split(sep)] for a separator that is not empty: cut at the first
    occurrence and go on with what follows it. (Python raises [ValueError]
    for an empty separator; the driver never passes one.) *)
Equations split (sep s : str) : list str by wf (length s) lt :=
  split [] s := [s];
  split (c :: sep) s with inspect (partition (c :: sep) s) := {
    | exist _ (Some (before, after)) E := before :: split (c :: sep) after;
    | exist _ None _ := [s] }.
Next Obligation. exact (partition_shorter c sep s before after E). Qed.

(** The value of a character as a digit: [0-9], [a-z], [A-Z]. *)
Definition digit_value (c : N) : option N :=
  if (48 <=? c) && (c <=? 57) then Some (c - 48)
  else if (97 <=? c) && (c <=? 122) then Some (c - 87)
  else if (65 <=? c) && (c <=? 90) then Some (c - 55)
  else None.

(** The digits of an integer literal, after its sign and prefix: single
    underscores may stand between digits. [after_underscore] tells that the
    character before was an underscore. *)
Fixpoint scan_digits (base : N) (after_underscore : bool) (acc : N) (s : str) : option N :=
  match s with
  | [] => if after_underscore then None else Some acc
  | c :: s' =>
    if c =? 95 then
      if after_underscore then None else scan_digits base true acc s'
    else
      match digit_value c with
      | Some d => if d <? base then scan_digits base false (acc * base + d) s' else None
      | None => None
      end
  end.

(** The prefix a literal in base 16, 8 or 2 may carry, and one underscore
    after it. *)
Definition skip_prefix (base : N) (s : str) : str :=
  match s with
  | zero :: x :: s' =>
    if (zero =? 48)
       && (((base =? 16) && ((x =? 120) || (x =? 88)))
           || ((base =? 8) && ((x =? 111) || (x =? 79)))
           || ((base =? 2) && ((x =? 98) || (x =? 66))))
    then match s' with
         | c :: s'' => if c =? 95 then s'' else s'
         | [] => s'
         end
    else s
  | _ => s
  end.

(** The digit [0] of every script that has decimal digits (Unicode 14.0,
    the table of Python 3.11); the nine code points after each are its
    digits [1] to [9]. *)
Definition decimal_zeros : list N :=
  [48; 1632; 1776; 1984; 2406; 2534; 2662; 2790;
   2918; 3046; 3174; 3302; 3430; 3558; 3664; 3792;
   3872; 4160; 4240; 6112; 6160; 6470; 6608; 6784;
   6800; 6992; 7088; 7232; 7248; 42528; 43216; 43264;
   43472; 43504; 43600; 44016; 65296; 66720; 68912; 69734;
   69872; 69942; 70096; 70384; 70736; 70864; 71248; 71360;
   71472; 71904; 72016; 72784; 73040; 73120; 92768; 92864;
   93008; 120782; 120792; 120802; 120812; 120822; 123200; 123632;
   125264; 130032].

(** [unicodedata.decimal(c)] *)
Definition unicode_decimal (c : N) : option N :=
  (fun zero => c - zero) <$> find (fun zero => (zero <=? c) && (c <? zero + 10)) decimal_zeros.

(** What [int] makes of a [str] before it reads it: a character below 127
    stays, any other white space becomes a blank and any other decimal digit
    its ASCII digit; with any other character the string is no literal. *)
Definition to_ascii_char (c : N) : option N :=
  if c <? 127 then Some c
  else if is_space c then Some 32
  else (fun d => 48 + d) <$> unicode_decimal c.

Fixpoint to_ascii (s : str) : option str :=
  match s with
  | [] => Some []
  | c :: s' =>
    match to_ascii_char c, to_ascii s' with
    | Some x, Some t => Some (x :: t)
    | _, _ => None
    end
  end.

(** The white space that [int] skips around a literal: the six ASCII
    characters of C's [isspace]. The separators U+001C to U+001F, which
    [str.strip] removes, are not among them. *)
Definition is_ascii_space (c : N) : bool := ((9 <=? c) && (c <=? 13)) || (c =? 32).

Fixpoint skip_spaces (s : str) : str :=
  match s with
  | c :: s' => if is_ascii_space c then skip_spaces s' else s
  | [] => []
  end.

Definition between_spaces (s : str) : str := rev (skip_spaces (rev (skip_spaces s))).

(** The limit on the digits of a literal ([sys.get_int_max_str_digits()],
    4300 unless it is changed); it holds for the bases that are no power
    of two, and underscores do not count. *)
Definition max_str_digits : nat := 4300.

Definition is_power_of_two (base : N) : bool :=
  (base =? 2) || (base =? 4) || (base =? 8) || (base =? 16) || (base =? 32).

Definition too_many_digits (base : N) (digits : str) : bool :=
  negb (is_power_of_two base) && (max_str_digits <? length (remove_char 95 digits))%nat.

(** [int(s, base)] for [base] 2, 8, 10 or 16; [None] stands for
    [ValueError]. White space around the literal is skipped, a sign may come
    first. *)
Definition int_magnitude (base : N) (s : str) : option N :=
  match skip_prefix base s with
  | [] => None
  | c :: digits =>
    if c =? 95 then None
    else if too_many_digits base (c :: digits) then None
    else scan_digits base false 0 (c :: digits)
  end.

Definition py_int (base : N) (s : str) : option Z :=
  match to_ascii s with
  | None => None
  | Some ascii =>
    match between_spaces ascii with
    | c :: s' =>
      if c =? 45 then Z.opp <$> (Z.of_N <$> int_magnitude base s')
      else if c =? 43 then Z.of_N <$> int_magnitude base s'
      else Z.of_N <$> int_magnitude base (c :: s')
    | [] => None
    end
  end.

(** [str(n)] for an integer that is not negative: its decimal digits. The
    fuel is the number of binary digits of [n], which is never less than
    the number of decimal ones. *)
Fixpoint digits_of (fuel : nat) (n : N) : str :=
  match fuel with
  | O => []
  | S fuel' => if n <? 10 then [48 + n] else digits_of fuel' (n / 10) ++ [48 + n mod 10]
  end.

Definition str_of_N (n : N) : str := digits_of (S (N.to_nat (N.size n))) n.

(** [f"{n:{width}d}"] for an integer that is not negative: padded with
    blanks on the left up to [width]. *)
Definition format_d (width : nat) (n : N) : str :=
  replicate (width - length (str_of_N n)) 32 ++ str_of_N n.

(** [number.to_bytes(length=len, byteorder="big", signed=True)] *)
Fixpoint big_endian (len : nat) (v : Z) : bytes :=
  match len with
  | O => []
  | S k => byte_of_N (Z.to_N ((v / 256 ^ Z.of_nat k) mod 256)) :: big_endian k v
  end.

Definition to_bytes (len : nat) (number : Z) : result bytes :=
  let range := (256 ^ Z.of_nat len)%Z in
  if ((- range <=? 2 * number) && (2 * number <? range))%Z
  then Return (big_endian len (number mod range))
  else Raise OverflowError.

(** [int.from_bytes(data, byteorder="big", signed=True)] *)
Definition from_bytes (data : bytes) : Z :=
  let v := fold_left (fun acc x => (acc * 256 + Z.of_N (Byte.to_N x))%Z) data 0%Z in
  let range := (256 ^ Z.of_nat (length data))%Z in
  if (range <=? 2 * v)%Z then (v - range)%Z else v.

(** [numpy.int16(v)] of a Python [int]: NumPy 2 converts the value only
    when it fits and raises [OverflowError] otherwise; it does not fold, as
    the driver expects of it ("FFFF is folded to -1"). *)
Definition int16 (v : Z) : result Z :=
  if ((-32768 <=? v) && (v <=? 32767))%Z then Return v else Raise OverflowError.

(** The position an index stands for in a sequence of [len] items: a
    negative index counts from the end; [None] stands for [IndexError]. *)
Definition position (len : nat) (i : Z) : option nat :=
  if ((0 <=? i) && (i <? Z.of_nat len))%Z then Some (Z.to_nat i)
  else if ((- Z.of_nat len <=? i) && (i <? 0))%Z then Some (Z.to_nat (Z.of_nat len + i))
  else None.

(** [s[start:]] *)
Definition slice_from {A : Type} (start : Z) (s : list A) : list A :=
  if (0 <=? start)%Z then drop (Z.to_nat start) s
  else drop (Z.to_nat (Z.of_nat (length s) + start)) s.

(** [s[start:stop]] for indices that are not negative. *)
Definition slice {A : Type} (start stop : nat) (s : list A) : list A :=
  take (stop - start) (drop start s).

End Python.

(** ** tgf4000_devif.py: the Ethernet transport *)

Module Devif.
Import Python.

(** *** The socket, as the transport sees it

    The peer and the network are a script: [inbound] lists what the next
    [recv] calls find (a segment of data, or a fault), and once it is used
    up the peer is silent, so that a [recv] runs into the socket's timeout;
    [send_faults] lists the outcome of the next [sendall] calls ([None]: the
    data went out), and once it is used up every [sendall] succeeds. The
    socket records every call made on it in [history]. *)

Inductive recv_result : Type :=
| Data (d : bytes)
| Raises (e : exception).

Inductive event : Type :=
| GetTimeout
| SetTimeout (t : option Q)
| Recv (bufsize : nat) (r : recv_result)
| SendAll (data : bytes) (r : option exception).

Record socket : Type := mk_socket {
  sock_timeout : option Q;
  inbound : list recv_result;
  send_faults : list (option exception);
  history : list event
}.

Definition log (ev : event) (sk : socket) : socket :=
  mk_socket (sock_timeout sk) (inbound sk) (send_faults sk) (history sk ++ [ev]).

Definition gettimeout (sk : socket) : option Q * socket :=
  (sock_timeout sk, log GetTimeout sk).

(** [sock.settimeout(t)] on a socket that is open, with a timeout that is
    not negative; [ClosedSocket] below has the other cases. *)
Definition settimeout (t : option Q) (sk : socket) : socket :=
  log (SetTimeout t) (mk_socket t (inbound sk) (send_faults sk) (history sk)).

(** [sock.recv(bufsize)]: at most [bufsize] bytes of the first segment;
    what does not fit stays for the next call. *)
Definition recv (bufsize : nat) (sk : socket) : recv_result * socket :=
  match inbound sk with
  | [] => (Raises TimeoutError, log (Recv bufsize (Raises TimeoutError)) sk)
  | Raises e :: rest =>
    (Raises e,
     log (Recv bufsize (Raises e)) (mk_socket (sock_timeout sk) rest (send_faults sk) (history sk)))
  | Data d :: rest =>
    let rest' := if (length d <=? bufsize)%nat then rest else Data (drop bufsize d) :: rest in
    (Data (take bufsize d),
     log (Recv bufsize (Data (take bufsize d)))
         (mk_socket (sock_timeout sk) rest' (send_faults sk) (history sk)))
  end.

(** [sock.sendall(data)] *)
Definition sendall (data : bytes) (sk : socket) : option exception * socket :=
  let r := default None (head (send_faults sk)) in
  (r, log (SendAll data r)
          (mk_socket (sock_timeout sk) (inbound sk) (tail (send_faults sk)) (history sk))).

(** *** Tgf4000EthernetInterface *)

Record Tgf4000EthernetInterface : Type := mk_interface {
  hostname : option string;
  port : option Z;
  device_id : option string;
  _sock : option socket;
  _is_connection_open : bool;
  read_timeout : Q
}.

(** [DEVICE_SETTINGS]: the settings of the devices, by device identifier;
    a key that an entry lacks is [None] there. *)
Record device_entry : Type := mk_entry {
  HOSTNAME : option string;
  PORT : option Z
}.

Definition Settings : Type := gmap string device_entry.

(** [DEVICE_SETTINGS[device_id][key]]: a missing key raises [KeyError]. *)
Definition setting {A : Type} (settings : Settings) (device_id : option string)
    (key : device_entry -> option A) : result A :=
  match device_id with
  | None => Raise KeyError
  | Some id =>
    match settings !! id with
    | None => Raise KeyError
    | Some entry => match key entry with Some x => Return x | None => Raise KeyError end
    end
  end.

(** [Tgf4000EthernetInterface.__init__] *)
Definition Tgf4000EthernetInterface_init (settings : Settings) (hostname : option string)
    (port : option Z) (device_id : option string) (read_timeout : Q)
  : result Tgf4000EthernetInterface :=
  match (match hostname with Some h => Return h | None => setting settings device_id HOSTNAME end) with
  | Raise e => Raise e
  | Return h =>
    match (match port with Some p => Return p | None => setting settings device_id PORT end) with
    | Raise e => Raise e
    | Return p => Return (mk_interface (Some h) (Some p) device_id None false read_timeout)
    end
  end.

Definition with_sock (sk : socket) (self : Tgf4000EthernetInterface) : Tgf4000EthernetInterface :=
  mk_interface (hostname self) (port self) (device_id self) (Some sk)
               (_is_connection_open self) (read_timeout self).

(** [command += "\n" if not command.endswith("\n") else ""] *)
Definition terminated (command : str) : str :=
  command ++ (if negb (endswith command [LF]) then [LF] else []).

(** The [for idx in range(100)] loop of [read]: [data] is the chunk bound by
    the last iteration (unbound before the first), [n_total] the byte count the
    loop keeps. [time.sleep] only delays the call. *)
Fixpoint read_loop (iterations : nat) (data : option bytes) (n_total : nat) (sk : socket)
  : result (option bytes) * socket :=
  match iterations with
  | O => (Return data, sk)
  | S iterations' =>
    let (r, sk1) := recv 2048 sk in
    match r with
    | Raises e => (Raise e, sk1)
    | Data d =>
      let n := length d in
      let n_total := (n_total + n)%nat in
      if (n <? 2048)%nat then (Return (Some d), sk1)
      else read_loop iterations' (Some d) n_total sk1
    end
  end.

(** [read]: without a socket, [self._sock.gettimeout] raises
    [AttributeError]. The [finally] clause runs on every way out of the
    [try] block. *)
Definition read (self : Tgf4000EthernetInterface) : result bytes * Tgf4000EthernetInterface :=
  match _sock self with
  | None => (Raise AttributeError, self)
  | Some sk =>
    let (saved_timeout, sk1) := gettimeout sk in
    let sk2 := settimeout (Some (read_timeout self)) sk1 in
    let (r, sk3) := read_loop 100 None 0 sk2 in
    let sk4 := settimeout saved_timeout sk3 in
    let out :=
      match r with
      | Raise e => if is_socket_timeout e then Return [x0d; x0a] else Raise e
      | Return (Some d) => Return d
      | Return None => Raise UnboundLocalError
      end in
    (out, with_sock sk4 self)
  end.

(** The [except] clauses of [write], in order. *)
Definition write_except (self : Tgf4000EthernetInterface) (e : exception) : exception :=
  if is_socket_timeout e then DeviceTimeoutError
  else if is_socket_error e then DeviceConnectionError
  else match e with
       | AttributeError => if negb (_is_connection_open self) then DeviceConnectionError else e
       | _ => e
       end.

(** [write]: the attribute [self._sock.sendall] is looked up before the
    argument [command.encode()] is evaluated. *)
Definition write (command : str) (self : Tgf4000EthernetInterface)
  : result unit * Tgf4000EthernetInterface :=
  let command := terminated command in
  match _sock self with
  | None => (Raise (write_except self AttributeError), self)
  | Some sk =>
    match utf8_encode command with
    | None => (Raise (write_except self UnicodeError), self)
    | Some data =>
      let (r, sk1) := sendall data sk in
      match r with
      | Some e => (Raise (write_except self e), with_sock sk1 self)
      | None => (Return tt, with_sock sk1 self)
      end
    end
  end.

(** The [except] clauses of [trans], in order; [return_string] is the reply
    when [read] has returned one. *)
Definition trans_except (self : Tgf4000EthernetInterface) (return_string : option bytes)
    (e : exception) : result (str + bytes) :=
  match e with
  | UnicodeError =>
    match return_string with
    | Some reply => Return (inr reply)
    | None => Raise UnboundLocalError
    end
  | _ =>
    if is_socket_timeout e then Raise DeviceTimeoutError
    else if is_socket_error e then Raise DeviceConnectionError
    else if is_connection_error e then Raise DeviceConnectionError
    else match e with
         | AttributeError =>
           if negb (_is_connection_open self) then Raise DeviceConnectionError else Raise e
         | _ => Raise e
         end
  end.

Definition trans (command : str) (self : Tgf4000EthernetInterface)
  : result (str + bytes) * Tgf4000EthernetInterface :=
  let command := terminated command in
  match _sock self with
  | None => (trans_except self None AttributeError, self)
  | Some sk =>
    match utf8_encode command with
    | None => (trans_except self None UnicodeError, self)
    | Some data =>
      let (r, sk1) := sendall data sk in
      let self1 := with_sock sk1 self in
      match r with
      | Some e => (trans_except self1 None e, self1)
      | None =>
        let (reply, self2) := read self1 in
        match reply with
        | Raise e => (trans_except self2 None e, self2)
        | Return return_string =>
          match utf8_decode return_string with
          | None => (trans_except self2 (Some return_string) UnicodeError, self2)
          | Some text => (Return (inl (rstrip text)), self2)
          end
        end
      end
    end
  end.

(** What a transaction received and sent, read off the socket's history. *)
Definition received (h : list event) : bytes :=
  mjoin ((fun ev => match ev with Recv _ (Data d) => d | _ => [] end) <$> h).

Definition sent (h : list event) : list bytes :=
  omap (fun ev => match ev with SendAll data _ => Some data | _ => None end) h.


(** A chunk that fills the buffer of [read]. *)
Definition fills_buffer (r : recv_result) : Prop :=
  match r with Data d => length d = 2048%nat | Raises _ => False end.

(** The number of line feeds a byte string, or a command, ends with. *)
Fixpoint leading {A : Type} (p : A -> bool) (l : list A) : nat :=
  match l with
  | x :: l' => if p x then S (leading p l') else O
  | [] => O
  end.

Definition trailing_newlines (data : bytes) : nat :=
  leading (fun x => Byte.eqb x x0a) (rev data).

Definition trailing_LF (command : str) : nat :=
  leading (fun c => bool_decide (c = LF)) (rev command).

(** An interface connected to a peer that follows [script] and to a network
    that follows [faults]. *)
Definition connected (script : list recv_result) (faults : list (option exception))
  : Tgf4000EthernetInterface :=
  mk_interface (Some "awg"%string) (Some 9221%Z) (Some "TGF4000"%string)
               (Some (mk_socket None script faults [])) true 60%Q.

End Devif.

(** ** aim_tti/__init__.py: the ARB data block *)

Module AimTti.
Import Python.

Record ArbData : Type := mk_ArbData {
  array : list Z;
  filename : option string
}.

(** [ArbData()] *)
Definition ArbData_init : ArbData := mk_ArbData [] None.

Definition set_array (a : list Z) (self : ArbData) : ArbData :=
  mk_ArbData a (filename self).

(** [array_as_bytes]: two bytes per point, the first number that does not
    fit in them raises. *)
Fixpoint bytes_of_array (numbers : list Z) (byte_string : bytes) : result bytes :=
  match numbers with
  | [] => Return byte_string
  | number :: numbers' =>
    match to_bytes 2 number with
    | Return two => bytes_of_array numbers' (byte_string ++ two)
    | Raise e => Raise e
    end
  end.

Definition array_as_bytes (self : ArbData) : result bytes :=
  bytes_of_array (array self) [].

(** The [string] property. *)
Definition string_ (self : ArbData) : result str :=
  match array_as_bytes self with
  | Raise e => Raise e
  | Return data =>
    let byte_array := latin1_decode data in
    let num_bytes := N.of_nat (length byte_array) in
    let str_num_bytes := str_of_N num_bytes in
    let len_num_bytes := N.of_nat (length str_num_bytes) in
    Return (u "#" ++ format_d 1 len_num_bytes ++ str_num_bytes ++ byte_array)
  end.

(** The loop of [array_from_bytes] over [range(num_numbers)]. *)
Definition numbers_of_bytes (bytestring : bytes) : list Z :=
  (fun index => from_bytes (slice (index * 2) (index * 2 + 2) bytestring))
    <$> seq 0 (length bytestring / 2).

(** [array_from_bytes], called with a [str]. *)
Definition array_from_bytes (data : str) (self : ArbData) : result unit * ArbData :=
  match latin1_encode data with
  | None => (Raise UnicodeError, self)
  | Some bytestring => (Return tt, set_array (numbers_of_bytes bytestring) self)
  end.

Definition init_from_bytestring (bytestring : bytes) (self : ArbData) : result unit * ArbData :=
  let bytestring := latin1_decode bytestring in
  match bytestring !! 1%nat with
  | None => (Raise IndexError, self)
  | Some digit =>
    match py_int 10 [digit] with
    | None => (Raise ValueError, self)
    | Some len_num_bytes =>
      let data := slice_from (2 + len_num_bytes) bytestring in
      array_from_bytes data self
    end
  end.

(** The loop of [array_from_hex_string] over [range(num_hex_numbers)]: every
    number is appended to the array as soon as it is read, so a group that
    is no number leaves the array with the numbers before it. *)
Fixpoint hex_loop (indices : list nat) (hex_string : str) (self : ArbData)
  : result unit * ArbData :=
  match indices with
  | [] => (Return tt, self)
  | index :: indices' =>
    let index := (index * 4)%nat in
    let hex_number := slice index (index + 4) hex_string in
    match py_int 16 hex_number with
    | None => (Raise ValueError, self)
    | Some v =>
      match int16 v with
      | Raise e => (Raise e, self)
      | Return number =>
        hex_loop indices' hex_string (set_array (array self ++ [number]) self)
      end
    end
  end.

Definition array_from_hex_string (hex_string : str) (self : ArbData) : result unit * ArbData :=
  let self := set_array [] self in
  let hex_string := strip (remove_char 32 hex_string) in
  let num_hex_numbers := (length hex_string / 4)%nat in
  hex_loop (seq 0 num_hex_numbers) hex_string self.

End AimTti.

(** ** tgf4000.py: response parsers, controller and simulator *)

Module Tgf4000.
Import Python.

(** [unpack_response]: [None] is Python's [None]. *)
Definition unpack_response (response : bytes) : option (list str) :=
  if (length response =? 0)%nat then None
  else Some (split (u ", ") (remove_char LF (remove_char CR (latin1_decode response)))).

(** What a parser returns: the one value of a single field, or the tuple
    of the values of several. *)
Inductive parsed (A : Type) : Type :=
| Single (x : A)
| Tuple (xs : list A).
Arguments Single {A} x.
Arguments Tuple {A} xs.

(** [for index, item in enumerate(response): response[index] = convert(item)] *)
Fixpoint convert_items {A : Type} (convert : str -> result A) (items : list str)
  : result (list A) :=
  match items with
  | [] => Return []
  | item :: items' =>
    match convert item with
    | Raise e => Raise e
    | Return x =>
      match convert_items convert items' with
      | Raise e => Raise e
      | Return xs => Return (x :: xs)
      end
    end
  end.

(** The body that [parse_ints] and [parse_floats] share; iterating over
    [None] raises [TypeError]. *)
Definition parse_with {A : Type} (convert : str -> result A) (response : bytes)
  : result (parsed A) :=
  match unpack_response response with
  | None => Raise TypeError
  | Some items =>
    match convert_items convert items with
    | Raise e => Raise e
    | Return values =>
      match values with
      | [x] => Return (Single x)
      | _ => Return (Tuple values)
      end
    end
  end.

(** [int(item)] *)
Definition int_ (item : str) : result Z :=
  match py_int 10 item with
  | Some z => Return z
  | None => Raise ValueError
  end.

Definition parse_ints (response : bytes) : result (parsed Z) := parse_with int_ response.

(** [parse_floats], over the conversion [float(item)] of Python, which it
    takes as it is. *)
Definition parse_floats {float : Type} (float_ : str -> result float) (response : bytes)
  : result (parsed float) := parse_with float_ response.

(** *** Values held by the simulator

    An attribute of the simulator holds whatever was assigned to it: a
    float, a member of one of the string enumerations, [None], or a list of
    such values. *)
#[local] Set Warnings "-register-all".
Inductive value : Type :=
| VNone
| VFloat (x : Q)
| VStr (s : str)
| VList (items : list value).

(** [v[i]] *)
Definition getitem (v : value) (i : Z) : result value :=
  match v with
  | VList items =>
    match position (length items) i with
    | Some k => match items !! k with Some x => Return x | None => Raise IndexError end
    | None => Raise IndexError
    end
  | VStr s =>
    match position (length s) i with
    | Some k => match s !! k with Some c => Return (VStr [c]) | None => Raise IndexError end
    | None => Raise IndexError
    end
  | _ => Raise TypeError
  end.

(** [v[i] = x]: the list with the item replaced; only a list takes an
    item assignment. *)
Definition setitem (v : value) (i : Z) (x : value) : result value :=
  match v with
  | VList items =>
    match position (length items) i with
    | Some k => Return (VList (<[k := x]> items))
    | None => Raise IndexError
    end
  | _ => Raise TypeError
  end.

Definition ON : value := VStr (u "ON").
Definition OFF : value := VStr (u "OFF").
Definition AC : value := VStr (u "AC").
Definition FREQUENCY : value := VStr (u "FREQUENCY").

(** *** Tgf4000Simulator *)

Record Tgf4000Simulator : Type := mk_simulator {
  sim_device_id : option string;
  ethernet_interface : Devif.Tgf4000EthernetInterface;
  _is_connected : bool;
  channel : Z;
  waveform_type : value;
  output_load : value;
  amplitude : value;
  dc_offset : value;
  duty_cycle : value;
  frequency : value;
  output_status : value;
  arb : value;
  counter_status : value;
  counter_source : value;
  counter_type : value
}.

(** [Tgf4000Simulator.__init__]; the base class [Tgf4000Interface] builds
    an Ethernet interface for the device, which looks the device up in the
    settings. *)
Definition Tgf4000Simulator_init (settings : Devif.Settings) (device_id : option string)
  : result Tgf4000Simulator :=
  match Devif.Tgf4000EthernetInterface_init settings None None device_id 60 with
  | Raise e => Raise e
  | Return interface =>
    let none2 := VList [VNone; VNone] in
    Return (mk_simulator device_id interface true (-1)
              none2 none2 none2 none2 none2 none2 (VList [OFF; OFF]) none2
              (VList [OFF; OFF]) (VList [AC; AC]) (VList [FREQUENCY; FREQUENCY]))
  end.

Definition set_channel (c : Z) (self : Tgf4000Simulator) : Tgf4000Simulator :=
  mk_simulator (sim_device_id self) (ethernet_interface self) (_is_connected self) c
    (waveform_type self) (output_load self) (amplitude self) (dc_offset self)
    (duty_cycle self) (frequency self) (output_status self) (arb self)
    (counter_status self) (counter_source self) (counter_type self).

Definition get_channel (self : Tgf4000Simulator) : Z := channel self.

Definition with_waveform_type (v : value) (self : Tgf4000Simulator) : Tgf4000Simulator :=
  mk_simulator (sim_device_id self) (ethernet_interface self) (_is_connected self)
    (channel self) v (output_load self) (amplitude self) (dc_offset self)
    (duty_cycle self) (frequency self) (output_status self) (arb self)
    (counter_status self) (counter_source self) (counter_type self).

Definition with_output_load (v : value) (self : Tgf4000Simulator) : Tgf4000Simulator :=
  mk_simulator (sim_device_id self) (ethernet_interface self) (_is_connected self)
    (channel self) (waveform_type self) v (amplitude self) (dc_offset self)
    (duty_cycle self) (frequency self) (output_status self) (arb self)
    (counter_status self) (counter_source self) (counter_type self).

Definition with_amplitude (v : value) (self : Tgf4000Simulator) : Tgf4000Simulator :=
  mk_simulator (sim_device_id self) (ethernet_interface self) (_is_connected self)
    (channel self) (waveform_type self) (output_load self) v (dc_offset self)
    (duty_cycle self) (frequency self) (output_status self) (arb self)
    (counter_status self) (counter_source self) (counter_type self).

Definition with_dc_offset (v : value) (self : Tgf4000Simulator) : Tgf4000Simulator :=
  mk_simulator (sim_device_id self) (ethernet_interface self) (_is_connected self)
    (channel self) (waveform_type self) (output_load self) (amplitude self) v
    (duty_cycle self) (frequency self) (output_status self) (arb self)
    (counter_status self) (counter_source self) (counter_type self).

Definition with_frequency (v : value) (self : Tgf4000Simulator) : Tgf4000Simulator :=
  mk_simulator (sim_device_id self) (ethernet_interface self) (_is_connected self)
    (channel self) (waveform_type self) (output_load self) (amplitude self)
    (dc_offset self) (duty_cycle self) v (output_status self) (arb self)
    (counter_status self) (counter_source self) (counter_type self).

Definition with_output_status (v : value) (self : Tgf4000Simulator) : Tgf4000Simulator :=
  mk_simulator (sim_device_id self) (ethernet_interface self) (_is_connected self)
    (channel self) (waveform_type self) (output_load self) (amplitude self)
    (dc_offset self) (duty_cycle self) (frequency self) v (arb self)
    (counter_status self) (counter_source self) (counter_type self).

(** [self.<attribute>[self.get_channel() - 1] = x], the shape of every
    setter but one: the attribute is rebound to the list with the item
    replaced; when the assignment raises, the simulator is as it was. *)
Definition store (attribute : Tgf4000Simulator -> value)
    (rebind : value -> Tgf4000Simulator -> Tgf4000Simulator) (x : value)
    (self : Tgf4000Simulator) : result unit * Tgf4000Simulator :=
  match setitem (attribute self) (get_channel self - 1) x with
  | Return items => (Return tt, rebind items self)
  | Raise e => (Raise e, self)
  end.

(** [return self.<attribute>[self.get_channel() - 1]] *)
Definition fetch (attribute : Tgf4000Simulator -> value) (self : Tgf4000Simulator)
  : result value :=
  getitem (attribute self) (get_channel self - 1).

Definition set_waveform_type := store waveform_type with_waveform_type.
Definition get_waveform_type := fetch waveform_type.

(** [set_output_load] binds the attribute to the load itself: [self.output_load = load]. *)
Definition set_output_load (load : value) (self : Tgf4000Simulator)
  : result unit * Tgf4000Simulator :=
  (Return tt, with_output_load load self).
Definition get_output_load := fetch output_load.

Definition set_amplitude := store amplitude with_amplitude.
Definition get_amplitude := fetch amplitude.

Definition set_dc_offset := store dc_offset with_dc_offset.
Definition get_dc_offset := fetch dc_offset.

Definition set_frequency := store frequency with_frequency.
Definition get_frequency := fetch frequency.

Definition set_output_status := store output_status with_output_status.
Definition get_output_status := fetch output_status.

Definition sim_is_simulator (self : Tgf4000Simulator) : bool := true.

(** [Tgf4000Simulator.connect] *)
Definition sim_connect (self : Tgf4000Simulator) : Tgf4000Simulator :=
  mk_simulator (sim_device_id self) (ethernet_interface self) true (channel self)
    (waveform_type self) (output_load self) (amplitude self) (dc_offset self)
    (duty_cycle self) (frequency self) (output_status self) (arb self)
    (counter_status self) (counter_source self) (counter_type self).

(** *** Tgf4000Controller *)

Record Tgf4000Controller : Type := mk_controller {
  ctrl_device_id : option string;
  ctrl_ethernet_interface : Devif.Tgf4000EthernetInterface;
  transport : Devif.Tgf4000EthernetInterface
}.

(** [Tgf4000Controller.__init__] *)
Definition Tgf4000Controller_init (settings : Devif.Settings) (device_id : option string)
  : result Tgf4000Controller :=
  match Devif.Tgf4000EthernetInterface_init settings None None device_id 60 with
  | Raise e => Raise e
  | Return interface =>
    match Devif.Tgf4000EthernetInterface_init settings None None device_id 60 with
    | Raise e => Raise e
    | Return transport => Return (mk_controller device_id interface transport)
    end
  end.

Definition ctrl_is_simulator (self : Tgf4000Controller) : bool := false.

(** [Tgf4000Controller.connect] hands over to the transport. What
    [transport.connect()] does depends on the network and on the device; it
    is given as [network]: the exception it raises, if any, and the
    transport it leaves. *)
Definition ctrl_connect
    (network : Devif.Tgf4000EthernetInterface ->
               option exception * Devif.Tgf4000EthernetInterface)
    (self : Tgf4000Controller) : option exception * Tgf4000Controller :=
  let (raised, transport') := network (transport self) in
  (raised, mk_controller (ctrl_device_id self) (ctrl_ethernet_interface self) transport').

End Tgf4000.

(** ** tgf4000_protocol.py: the command protocol *)

Module Protocol.
Import Python Tgf4000.

(** The device behind the protocol: an object of one of the two classes. *)
Inductive device : Type :=
| Simulator (s : Tgf4000Simulator)
| Controller (c : Tgf4000Controller).

(** [device.is_simulator()], dispatched on the class of the object. *)
Definition is_simulator (d : device) : bool :=
  match d with
  | Simulator s => sim_is_simulator s
  | Controller c => ctrl_is_simulator c
  end.

Record Tgf4000Protocol (table : Type) : Type := mk_protocol {
  hk_conversion_table : option table;
  simulator : bool;
  tgf4000 : device
}.
Arguments mk_protocol {table}.
Arguments hk_conversion_table {table}.
Arguments simulator {table}.
Arguments tgf4000 {table}.

(** [Tgf4000Protocol.__init__]. [conversion] is what [read_conversion_dict]
    gives on this run, [network] what connecting the transport does. The
    constructor of the base class is taken to return. *)
Definition Tgf4000Protocol_init {table : Type} (settings : Devif.Settings)
    (conversion : result table)
    (network : Devif.Tgf4000EthernetInterface ->
               option exception * Devif.Tgf4000EthernetInterface)
    (device_id : option string) (simulator : bool) : result (Tgf4000Protocol table) :=
  let hk :=
    match conversion with
    | Return t => Return (Some t)
    | Raise SetupError => Return None
    | Raise e => Raise e
    end in
  match hk with
  | Raise e => Raise e
  | Return hk_conversion_table =>
    if simulator then
      match Tgf4000Simulator_init settings device_id with
      | Raise e => Raise e
      | Return s => Return (mk_protocol hk_conversion_table simulator (Simulator (sim_connect s)))
      end
    else
      match Tgf4000Controller_init settings device_id with
      | Raise e => Raise e
      | Return c =>
        match ctrl_connect network c with
        | (None, c') => Return (mk_protocol hk_conversion_table simulator (Controller c'))
        | (Some e, c') =>
          if is_connection_error e
          then Return (mk_protocol hk_conversion_table simulator (Controller c'))
          else Raise e
        end
      end
  end.

Definition get_device {table : Type} (self : Tgf4000Protocol table) : device := tgf4000 self.

End Protocol.

(** ** tgf4000.py: the other response parsers *)

Module Parsers.
Import Python AimTti Tgf4000.

(** [parse_strings]: [len(None)] raises [TypeError]. *)
Definition parse_strings (response : bytes) : result (parsed str) :=
  match unpack_response response with
  | None => Raise TypeError
  | Some items =>
    match items with
    | [x] => Return (Single x)
    | _ => Return (Tuple items)
    end
  end.

(** [parse_arb_def]: the tuple is built from left to right, so a missing
    field raises [IndexError] before [int] is called. *)
Definition parse_arb_def (response : bytes) : result (option (str * str * Z)) :=
  if (length response =? 0)%nat then Return None
  else
    let response :=
      split (u ",")
        (remove_char LF (remove_char CR (remove_char 32 (latin1_decode response)))) in
    match response !! 0%nat, response !! 1%nat, response !! 2%nat with
    | Some name, Some interpolation, Some len =>
      match py_int 10 len with
      | Some n => Return (Some (name, interpolation, n))
      | None => Raise ValueError
      end
    | _, _, _ => Raise IndexError
    end.

(** [parse_arb_data_response]: the [string] property is a [str], which
    has no [decode]: the last line raises [AttributeError]. *)
Definition parse_arb_data_response (response : bytes) : result str :=
  match init_from_bytestring response ArbData_init with
  | (Raise e, _) => Raise e
  | (Return _, arb_data) =>
    match string_ arb_data with
    | Raise e => Raise e
    | Return _ => Raise AttributeError
    end
  end.

(** [parse_arb_data]: unpacking [cmd, filename] needs exactly two fields;
    [ArbData] has no [init_from_file] (the method is commented out), so the
    call raises [AttributeError]. *)
Definition parse_arb_data (cmd_string : str) : result str :=
  match split (u " ") cmd_string with
  | [cmd; filename] => Raise AttributeError
  | _ => Raise ValueError
  end.

End Parsers.

(** ** tgf4000.py: the other setters of the simulator *)

Module SimulatorMore.
Import Python Tgf4000.

Definition with_duty_cycle (v : value) (self : Tgf4000Simulator) : Tgf4000Simulator :=
  mk_simulator (sim_device_id self) (ethernet_interface self) (_is_connected self)
    (channel self) (waveform_type self) (output_load self) (amplitude self)
    (dc_offset self) v (frequency self) (output_status self) (arb self)
    (counter_status self) (counter_source self) (counter_type self).

Definition with_counter_status (v : value) (self : Tgf4000Simulator) : Tgf4000Simulator :=
  mk_simulator (sim_device_id self) (ethernet_interface self) (_is_connected self)
    (channel self) (waveform_type self) (output_load self) (amplitude self)
    (dc_offset self) (duty_cycle self) (frequency self) (output_status self) (arb self)
    v (counter_source self) (counter_type self).

Definition with_counter_source (v : value) (self : Tgf4000Simulator) : Tgf4000Simulator :=
  mk_simulator (sim_device_id self) (ethernet_interface self) (_is_connected self)
    (channel self) (waveform_type self) (output_load self) (amplitude self)
    (dc_offset self) (duty_cycle self) (frequency self) (output_status self) (arb self)
    (counter_status self) v (counter_type self).

Definition with_counter_type (v : value) (self : Tgf4000Simulator) : Tgf4000Simulator :=
  mk_simulator (sim_device_id self) (ethernet_interface self) (_is_connected self)
    (channel self) (waveform_type self) (output_load self) (amplitude self)
    (dc_offset self) (duty_cycle self) (frequency self) (output_status self) (arb self)
    (counter_status self) (counter_source self) v.

Definition set_duty_cycle := store duty_cycle with_duty_cycle.
Definition get_duty_cycle := fetch duty_cycle.

Definition set_counter_status := store counter_status with_counter_status.
Definition get_counter_status := fetch counter_status.

Definition set_counter_source := store counter_source with_counter_source.
Definition get_counter_source := fetch counter_source.

Definition set_counter_type := store counter_type with_counter_type.
Definition get_counter_type := fetch counter_type.

(** [disconnect] and [is_connected] of the simulator. *)
Definition sim_disconnect (self : Tgf4000Simulator) : Tgf4000Simulator :=
  mk_simulator (sim_device_id self) (ethernet_interface self) false (channel self)
    (waveform_type self) (output_load self) (amplitude self) (dc_offset self)
    (duty_cycle self) (frequency self) (output_status self) (arb self)
    (counter_status self) (counter_source self) (counter_type self).

Definition sim_is_connected (self : Tgf4000Simulator) : bool := _is_connected self.

End SimulatorMore.

(** ** tgf4000_devif.py: connecting and disconnecting *)

Module Connection.
Import Python Devif.

Definition IDENTIFICATION_QUERY : str := u "*IDN?".

(** What the network does while an interface connects or disconnects: the
    outcome of [socket.socket(...)], of [sock.connect(...)] and of
    [sock.close()]. *)
Record network : Type := mk_network {
  new_socket : result socket;
  connect_fault : option exception;
  close_fault : option exception
}.

Definition set_open (flag : bool) (self : Tgf4000EthernetInterface) : Tgf4000EthernetInterface :=
  mk_interface (hostname self) (port self) (device_id self) (_sock self)
               flag (read_timeout self).

(** [needle in s] *)
Definition contains (needle s : str) : bool :=
  match partition needle s with
  | Some _ => true
  | None => false
  end.

(** [disconnect]: any exception of the [try] block, the [AttributeError]
    of a missing socket included, becomes [DeviceConnectionError]; the
    flag is cleared after [close] has returned. *)
Definition disconnect (net : network) (self : Tgf4000EthernetInterface)
  : result unit * Tgf4000EthernetInterface :=
  if _is_connection_open self then
    match _sock self with
    | None => (Raise DeviceConnectionError, self)
    | Some _ =>
      match close_fault net with
      | Some _ => (Raise DeviceConnectionError, self)
      | None => (Return tt, set_open false self)
      end
    end
  else (Return tt, self).

Section Inherited.

(** [query] is inherited from [DeviceTransport], and [DeviceError] is the
    base class of the device errors; both come from [egse.device] and are
    taken as they are. *)
Variable query : str -> Tgf4000EthernetInterface ->
                 result (str + bytes) * Tgf4000EthernetInterface.
Variable is_device_error : exception -> bool.

(** The [except DeviceError] clause of [is_connected], and the way out
    when the device gives the wrong names: disconnect and return [False]. *)
Definition disconnect_and_deny (net : network) (self : Tgf4000EthernetInterface)
  : result bool * Tgf4000EthernetInterface :=
  match disconnect net self with
  | (Raise e, self') => (Raise e, self')
  | (Return _, self') => (Return false, self')
  end.

Definition is_connected_except (net : network) (e : exception)
    (self : Tgf4000EthernetInterface) : result bool * Tgf4000EthernetInterface :=
  if is_device_error e then disconnect_and_deny net self else (Raise e, self).

(** [is_connected]: the identification is asked for twice, once to print
    it. A reply of bytes has no [split] that takes a [str] ([TypeError]);
    fewer than two fields cannot be unpacked ([ValueError]); both are raised
    inside the [try] block. *)
Definition is_connected (net : network) (self : Tgf4000EthernetInterface)
  : result bool * Tgf4000EthernetInterface :=
  if negb (_is_connection_open self) then (Return false, self)
  else
    let (printed, self1) := query IDENTIFICATION_QUERY self in
    match printed with
    | Raise e => is_connected_except net e self1
    | Return _ =>
      let (reply, self2) := query IDENTIFICATION_QUERY self1 in
      match reply with
      | Raise e => is_connected_except net e self2
      | Return (inr _) => is_connected_except net TypeError self2
      | Return (inl text) =>
        match split (u ",") text with
        | manufacturer :: model :: _ =>
          if negb (contains (u "THURLBY THANDAR") manufacturer)
             || negb (contains (u "TGF4") model)
          then disconnect_and_deny net self2
          else (Return true, self2)
        | _ => is_connected_except net ValueError self2
        end
      end
    end.

(** The [except] clauses around [sock.connect]: a timeout becomes
    [DeviceTimeoutError], every other [OSError] [DeviceConnectionError]. *)
Definition connect_except (e : exception) : exception :=
  if is_connection_error e then DeviceConnectionError
  else if is_socket_timeout e then DeviceTimeoutError
  else if is_socket_error e then DeviceConnectionError
  else e.

Definition connect (net : network) (self : Tgf4000EthernetInterface)
  : result unit * Tgf4000EthernetInterface :=
  if _is_connection_open self then (Return tt, self)
  else if bool_decide (hostname self = None \/ hostname self = Some ""%string)
  then (Raise ValueError, self)
  else if bool_decide (port self = None \/ port self = Some 0%Z)
  then (Raise ValueError, self)
  else
    match new_socket net with
    | Raise e =>
      (Raise (if is_socket_error e then DeviceConnectionError else e), self)
    | Return sk =>
      let sk1 := settimeout (Some 3%Q) sk in
      match connect_fault net with
      | Some e => (Raise (connect_except e), with_sock sk1 self)
      | None =>
        let sk2 := settimeout None sk1 in
        let self1 := set_open true (with_sock sk2 self) in
        match is_connected net self1 with
        | (Raise e, self2) => (Raise e, self2)
        | (Return true, self2) => (Return tt, self2)
        | (Return false, self2) => (Raise DeviceConnectionError, self2)
        end
      end
    end.

(** [reconnect] *)
Definition reconnect (net : network) (self : Tgf4000EthernetInterface)
  : result unit * Tgf4000EthernetInterface :=
  if _is_connection_open self then
    match disconnect net self with
    | (Raise e, self') => (Raise e, self')
    | (Return _, self') => connect net self'
    end
  else connect net self.

End Inherited.

End Connection.

(** ** aim_tti/__init__.py: what [array_from_bytes] is given *)

Module ArbValues.
Import Python AimTti.

(** [array_from_bytes] on either kind of object that a caller may pass for
    [data]: only a [str] binds [bytestring]; with a [bytes] object the name
    is still unbound when [len(bytestring)] is evaluated. *)
Definition array_from_bytes_of (data : str + bytes) (self : ArbData)
  : result unit * ArbData :=
  match data with
  | inl text => array_from_bytes text self
  | inr _ => (Raise UnboundLocalError, self)
  end.

End ArbValues.

(** ** tgf4000_devif.py: [read] on a socket that may have been closed

    [disconnect] closes the socket and leaves the closed object in [_sock].
    The socket of [Devif] is one that is open and whose timeouts are valid;
    here is what [read] does with any socket object. *)

Module ClosedSocket.
Import Python Devif.











End ClosedSocket.

(** * Properties *)

Import Python.

(** ** The transport: tgf4000_devif.py *)

Section Transport.
Import Devif.

Lemma recv_spec (sk : socket) :
  exists r, recv 2048 sk = (r, snd (recv 2048 sk)) /\
    history (snd (recv 2048 sk)) = history sk ++ [Recv 2048 r] /\
    sock_timeout (snd (recv 2048 sk)) = sock_timeout sk /\
    send_faults (snd (recv 2048 sk)) = send_faults sk /\
    (forall d, r = Data d -> (length d <= 2048)%nat).
Proof.
  unfold recv. destruct (inbound sk) as [|[d|e] rest]; simpl.
  - eexists; repeat split; intros; discriminate.
  - eexists; repeat split. intros d' [= <-]. rewrite length_take. lia.
  - eexists; repeat split; intros; discriminate.
Qed.

(** What one run of the loop of [read] does to the socket, and what it
    hands back, in terms of the results of its [recv] calls. *)
Lemma read_loop_spec (n : nat) :
  forall (data : option bytes) (n_total : nat) (sk : socket),
  exists results,
    let out := read_loop n data n_total sk in
    history (snd out) = history sk ++ (Recv 2048 <$> results) /\
    sock_timeout (snd out) = sock_timeout sk /\
    send_faults (snd out) = send_faults sk /\
    (length results <= n)%nat /\
    (forall i r, results !! i = Some r -> (S i < length results)%nat -> fills_buffer r) /\
    ((length results < n)%nat -> exists r, last results = Some r /\ ~ fills_buffer r) /\
    fst out = match last results with
              | None => Return data
              | Some (Raises e) => Raise e
              | Some (Data d) => Return (Some d)
              end.
Proof.
  induction n as [|n IH]; intros data n_total sk.
  - exists []. simpl. rewrite app_nil_r. repeat apply conj; try reflexivity; try lia.
  - destruct (recv_spec sk) as (r & Hrecv & Hh & Ht & Hf & Hlen).
    simpl. rewrite Hrecv. destruct r as [d|e].
    + destruct (Nat.ltb_spec (length d) 2048) as [Hshort|Hfull].
      * exists [Data d]. simpl. repeat apply conj; auto; try lia.
        intros _. exists (Data d). split; [reflexivity|]. simpl. lia.
      * destruct (IH (Some d) (n_total + length d)%nat (snd (recv 2048 sk)))
          as (results & H1 & H2 & H3 & H4 & H5 & H6 & H7).
        exists (Data d :: results). simpl in *.
        rewrite H1, Hh, H2, H3, Ht, Hf, <- app_assoc. simpl.
        repeat apply conj; auto; try lia.
        -- intros [|i] r Hi Hlt; simpl in Hi.
           ++ injection Hi as <-. simpl. specialize (Hlen d eq_refl). lia.
           ++ apply (H5 i r Hi). lia.
        -- intros Hlt. destruct H6 as (r & Hr & Hnf); [lia|].
           exists r. split; [|exact Hnf]. destruct results; [discriminate|exact Hr].
        -- rewrite H7. destruct results as [|r0 results]; [reflexivity|].
           change (last (Data d :: r0 :: results)) with (last (r0 :: results)).
           destruct (last (r0 :: results)) eqn:E; [reflexivity|].
           apply last_None in E. discriminate.
    + exists [Raises e]. simpl. repeat apply conj; auto; try lia.
      intros _. exists (Raises e). split; [reflexivity|]. simpl. tauto.
Qed.





(** C1: a reply longer than one buffer. The peer delivers a full buffer of
    2048 bytes and then the three bytes that end the reply; [read] returns
    those three bytes only, although the transaction received 2051. *)
Theorem read_returns_only_the_last_chunk :
  let self := connected [Data (replicate 2048 "a"%byte); Data (b "b" ++ [x0d; x0a])] [] in
  let after := read self in
  fst after = Return (b "b" ++ [x0d; x0a]) /\
  (received <$> (history <$> _sock (snd after)))
    = Some (replicate 2048 "a"%byte ++ b "b" ++ [x0d; x0a]) /\
  fst after <> Return (replicate 2048 "a"%byte ++ b "b" ++ [x0d; x0a]).
Proof.
  split; [vm_compute; reflexivity|]. split; [vm_compute; reflexivity|].
  vm_compute. discriminate.
Qed.






End Transport.



Section TransportErrors.
Import Devif.

Lemma to_N_byte_of_N (n : N) : n < 256 -> Byte.to_N (byte_of_N n) = n.
Proof.
  intros Hn. unfold byte_of_N.
  destruct (Byte.of_N n) as [x|] eqn:E.
  - apply Byte.to_of_N. exact E.
  - apply Byte.of_N_None_iff in E. lia.
Qed.

Lemma byte_of_N_not_newline (n : N) : n < 256 -> n <> 10 -> byte_of_N n <> x0a.
Proof.
  intros Hn Hne Heq. apply Hne.
  rewrite <- (to_N_byte_of_N n Hn), Heq. reflexivity.
Qed.

Lemma utf8_encode_app (s t : str) :
  utf8_encode (s ++ t) =
    match utf8_encode s, utf8_encode t with
    | Some x, Some y => Some (x ++ y)
    | _, _ => None
    end.
Proof.
  induction s as [|c s IH]; simpl.
  - destruct (utf8_encode t); reflexivity.
  - rewrite IH. destruct (utf8_encode_char c), (utf8_encode s), (utf8_encode t);
      try reflexivity. rewrite app_assoc. reflexivity.
Qed.

(** The encoding of a character ends with the byte 10 only when the
    character is the line feed, which is encoded as that byte alone. *)
Lemma utf8_encode_char_last (c : N) (enc : bytes) :
  utf8_encode_char c = Some enc ->
  (c = LF /\ enc = [x0a]) \/
  (c <> LF /\ exists pre x, enc = pre ++ [x] /\ x <> x0a).
Proof.
  unfold utf8_encode_char, LF.
  destruct (N.ltb_spec c 128) as [H1|H1].
  { intros [= <-]. destruct (N.eq_dec c 10) as [->|Hne]; [left; auto|right].
    split; [exact Hne|]. exists [], (byte_of_N c). split; [reflexivity|].
    apply byte_of_N_not_newline; lia. }
  assert (Hlast : byte_of_N (128 + c mod 64) <> x0a).
  { pose proof (N.mod_upper_bound c 64 ltac:(lia)) as Hm.
    set (m := c mod 64) in *. apply byte_of_N_not_newline; lia. }
  assert (Hc : c <> 10) by lia.
  destruct (N.ltb_spec c 2048) as [H2|H2].
  { intros [= <-]. right. split; [exact Hc|].
    eexists [_], _. split; [reflexivity|exact Hlast]. }
  destruct (N.ltb_spec c 65536) as [H3|H3].
  { destruct (_ && _); [discriminate|]. intros [= <-]. right. split; [exact Hc|].
    eexists [_; _], _. split; [reflexivity|exact Hlast]. }
  destruct (N.ltb_spec c 1114112) as [H4|H4]; [|discriminate].
  intros [= <-]. right. split; [exact Hc|].
  eexists [_; _; _], _. split; [reflexivity|exact Hlast].
Qed.

Lemma leading_rev_snoc_hit {A : Type} (p : A -> bool) (l : list A) (x : A) :
  p x = true -> leading p (rev (l ++ [x])) = S (leading p (rev l)).
Proof. intros Hp. rewrite rev_app_distr. simpl. rewrite Hp. reflexivity. Qed.

Lemma leading_rev_snoc_miss {A : Type} (p : A -> bool) (l : list A) (x : A) :
  p x = false -> leading p (rev (l ++ [x])) = O.
Proof. intros Hp. rewrite rev_app_distr. simpl. rewrite Hp. reflexivity. Qed.

(** A command and its encoding end with the same number of line feeds. *)
Lemma utf8_encode_trailing (c : str) :
  forall data, utf8_encode c = Some data -> trailing_newlines data = trailing_LF c.
Proof.
  induction c as [|x c IH] using rev_ind; intros data Henc.
  - injection Henc as <-. reflexivity.
  - rewrite utf8_encode_app in Henc.
    destruct (utf8_encode c) as [dc|] eqn:Ec; [|discriminate].
    simpl in Henc. destruct (utf8_encode_char x) as [ex|] eqn:Ex; [|discriminate].
    injection Henc as <-. rewrite app_nil_r.
    unfold trailing_newlines, trailing_LF.
    destruct (utf8_encode_char_last x ex Ex) as [[-> ->]|[Hne (pre & y & -> & Hy)]].
    + rewrite !leading_rev_snoc_hit by reflexivity.
      f_equal. apply IH. reflexivity.
    + rewrite app_assoc. rewrite !leading_rev_snoc_miss; [reflexivity| |].
      * apply bool_decide_eq_false. exact Hne.
      * destruct (Byte.eqb y x0a) eqn:E; [|reflexivity].
        apply Byte.byte_dec_bl in E. contradiction.
Qed.

Lemma endswith_LF_trailing (c : str) :
  endswith c [LF] = true <-> (1 <= trailing_LF c)%nat.
Proof.
  unfold endswith, str_eqb, trailing_LF. rewrite bool_decide_eq_true.
  destruct c as [|x c _] using rev_ind.
  - simpl. split; [discriminate|lia].
  - rewrite length_app. simpl.
    replace (length c + 1 - 1)%nat with (length c) by lia.
    rewrite drop_app_length. rewrite rev_app_distr. simpl.
    destruct (bool_decide_reflect (x = LF)) as [->|Hne].
    + split; [lia|reflexivity].
    + split; [intros [= ->]; contradiction|lia].
Qed.

Lemma terminated_encode (c : str) (data : bytes) :
  utf8_encode c = Some data ->
  utf8_encode (terminated c) = Some (if endswith c [LF] then data else data ++ [x0a]).
Proof.
  intros Henc. unfold terminated. destruct (endswith c [LF]); simpl.
  - rewrite app_nil_r. exact Henc.
  - rewrite utf8_encode_app, Henc. reflexivity.
Qed.

Lemma sent_recv (results : list recv_result) : sent (Recv 2048 <$> results) = [].
Proof. induction results as [|r results IH]; [reflexivity|exact IH]. Qed.

(** [read] sends nothing. *)
Lemma read_sends_nothing (self : Tgf4000EthernetInterface) (sk : socket) :
  _sock self = Some sk ->
  exists sk', _sock (snd (read self)) = Some sk' /\ sent (history sk') = sent (history sk).
Proof.
  intros Hsock. unfold read. rewrite Hsock.
  cbv beta iota zeta delta [gettimeout].
  set (sk2 := settimeout _ _).
  destruct (read_loop_spec 100 None 0%nat sk2) as (results & Hh & _).
  destruct (read_loop 100 None 0 sk2) as [r sk3]. cbn [fst snd] in *.
  eexists. split; [reflexivity|]. simpl. rewrite Hh. simpl.
  unfold sent. rewrite !omap_app. fold (sent (Recv 2048 <$> results)).
  rewrite sent_recv. simpl. rewrite !app_nil_r. reflexivity.
Qed.

(** The device error a socket error is translated to. *)
Definition translated (e : exception) : exception :=
  if is_socket_timeout e then DeviceTimeoutError else DeviceConnectionError.







(** C3, as the code has it: [write] and [trans] send the command followed
    by one line feed, or the command as it is when it ends with one already;
    what is sent ends with as many line feeds as the command, and with one
    when the command has none. *)
Theorem command_sent_line_terminated (self : Tgf4000EthernetInterface) (sk : socket)
    (c : str) (data : bytes) :
  _sock self = Some sk -> utf8_encode c = Some data ->
  let payload := if endswith c [LF] then data else data ++ [x0a] in
  (sent <$> (history <$> _sock (snd (write c self)))) = Some (sent (history sk) ++ [payload]) /\
  (sent <$> (history <$> _sock (snd (trans c self)))) = Some (sent (history sk) ++ [payload]) /\
  last payload = Some x0a /\
  trailing_newlines payload = Nat.max 1 (trailing_LF c).
Proof.
  intros Hsock Henc payload.
  pose proof (terminated_encode c data Henc) as Hterm. fold payload in Hterm.
  assert (Hsent : forall r, sent (history sk ++ [SendAll payload r])
                            = sent (history sk) ++ [payload]).
  { intros r. unfold sent. rewrite omap_app. reflexivity. }
  assert (Htrail : trailing_newlines payload = Nat.max 1 (trailing_LF c)).
  { pose proof (utf8_encode_trailing c data Henc) as Hdata.
    pose proof (endswith_LF_trailing c) as Hends. subst payload.
    destruct (endswith c [LF]).
    - rewrite Hdata. destruct Hends as [Hends _]. specialize (Hends eq_refl). lia.
    - unfold trailing_newlines. rewrite leading_rev_snoc_hit by reflexivity.
      fold (trailing_newlines data). rewrite Hdata.
      destruct (trailing_LF c) as [|k]; [reflexivity|].
      destruct Hends as [_ Hends]. discriminate Hends. lia. }
  split; [|split; [|split; [|exact Htrail]]].
  - unfold write, sendall. rewrite Hsock, Hterm. cbv beta iota zeta.
    destruct (default None (head (send_faults sk))); simpl; rewrite Hsent; reflexivity.
  - unfold trans, sendall. rewrite Hsock, Hterm. cbv beta iota zeta.
    destruct (default None (head (send_faults sk))) as [e|].
    + simpl. rewrite Hsent. reflexivity.
    + set (self1 := with_sock _ self).
      destruct (read_sends_nothing self1 _ eq_refl) as (sk' & Hsk' & Hsame).
      destruct (read self1) as [reply self2]. cbn [snd] in Hsk'.
      assert (Hgoal : sent <$> (history <$> _sock self2)
                      = Some (sent (history sk) ++ [payload])).
      { rewrite Hsk'. simpl. rewrite Hsame. simpl. rewrite Hsent. reflexivity. }
      destruct reply as [return_string|e]; [destruct (utf8_decode return_string)|];
        exact Hgoal.
  - destruct payload as [|x0 p0] eqn:Ep using rev_ind.
    + unfold trailing_newlines in Htrail. simpl in Htrail. lia.
    + rewrite last_snoc. f_equal.
      destruct (Byte.eqb x0 x0a) eqn:E; [apply Byte.byte_dec_bl; exact E|].
      unfold trailing_newlines in Htrail.
      rewrite leading_rev_snoc_miss in Htrail by exact E. lia.
Qed.

Lemma command_sent_line_terminated_witness :
  (sent <$> (history <$> _sock (snd (write (u "FREQ?") (connected [] [])))))
    = Some [b "FREQ?" ++ [x0a]] /\
  (sent <$> (history <$> _sock (snd (trans (u "CHN 1" ++ [LF]) (connected [] [])))))
    = Some [b "CHN 1" ++ [x0a]].
Proof.
  split.
  - exact (proj1 (command_sent_line_terminated (connected [] []) _ (u "FREQ?") _
                    eq_refl eq_refl)).
  - exact (proj1 (proj2 (command_sent_line_terminated (connected [] []) _
                           (u "CHN 1" ++ [LF]) _ eq_refl eq_refl))).
Defined.

(** C3 fails for a command that ends with two line feeds: it is sent as it
    is, and the bytes sent end with two line feeds, not with exactly one. *)
Lemma write_keeps_two_newlines :
  let after := write (u "CHN 1" ++ [LF; LF]) (connected [] []) in
  fst after = Return tt /\
  (sent <$> (history <$> _sock (snd after))) = Some [b "CHN 1" ++ [x0a; x0a]] /\
  trailing_newlines (b "CHN 1" ++ [x0a; x0a]) = 2%nat /\
  trailing_newlines (b "CHN 1" ++ [x0a; x0a]) <> 1%nat.
Proof. vm_compute. repeat split; discriminate. Qed.

End TransportErrors.

(** ** The simulator and the protocol: tgf4000.py, tgf4000_protocol.py *)

Section Simulator.
Import Tgf4000.

(** The five setters that go through [store], with their getters. *)
Inductive per_channel : Type :=
| WaveformType | Amplitude | DcOffset | Frequency | OutputStatus.

Definition setter (a : per_channel) : value -> Tgf4000Simulator -> result unit * Tgf4000Simulator :=
  match a with
  | WaveformType => set_waveform_type
  | Amplitude => set_amplitude
  | DcOffset => set_dc_offset
  | Frequency => set_frequency
  | OutputStatus => set_output_status
  end.

Definition getter (a : per_channel) : Tgf4000Simulator -> result value :=
  match a with
  | WaveformType => get_waveform_type
  | Amplitude => get_amplitude
  | DcOffset => get_dc_offset
  | Frequency => get_frequency
  | OutputStatus => get_output_status
  end.

Definition attribute (a : per_channel) : Tgf4000Simulator -> value :=
  match a with
  | WaveformType => waveform_type
  | Amplitude => amplitude
  | DcOffset => dc_offset
  | Frequency => frequency
  | OutputStatus => output_status
  end.

(** Every per-channel attribute of the simulator holds one item per channel. *)
Definition two_channels (s : Tgf4000Simulator) : Prop :=
  forall a, exists x1 x2, attribute a s = VList [x1; x2].

Lemma Tgf4000Simulator_init_two_channels settings device_id s :
  Tgf4000Simulator_init settings device_id = Return s -> two_channels s.
Proof.
  unfold Tgf4000Simulator_init.
  destruct (Devif.Tgf4000EthernetInterface_init _ _ _ _ _); [|discriminate].
  intros [= <-] []; simpl; eauto.
Qed.

(** The setters that index by channel: the getter returns what was set, the
    item of the other channel and every other attribute stay. *)
Lemma setter_stores_for_selected_channel (a : per_channel) (s : Tgf4000Simulator)
    (c : Z) (v : value) :
  two_channels s -> (c = 1 \/ c = 2)%Z ->
  let after := setter a v (set_channel c s) in
  fst after = Return tt /\
  getter a (snd after) = Return v /\
  getter a (set_channel (3 - c) (snd after)) = getter a (set_channel (3 - c) s) /\
  forall a', a' <> a -> attribute a' (snd after) = attribute a' s.
Proof.
  intros Htwo Hc. destruct (Htwo a) as (x1 & x2 & Hattr).
  destruct a; simpl in Hattr;
    unfold setter, getter, set_waveform_type, set_amplitude, set_dc_offset,
      set_frequency, set_output_status, get_waveform_type, get_amplitude,
      get_dc_offset, get_frequency, get_output_status, store, fetch; simpl;
    rewrite Hattr; destruct Hc as [-> | ->]; simpl;
    (repeat apply conj; [reflexivity ..|intros [] Hne; try reflexivity; contradiction]).
Qed.

(** C10: [set_output_load] is the setter that does not index by channel. On
    a new simulator with channel 1 selected, after [set_output_load(50.0)]
    the attribute is the float itself: [get_output_load] raises [TypeError]
    on either channel, and what was recorded for channel 2 is gone. *)
Theorem set_output_load_drops_the_channels :
  let settings : Devif.Settings :=
    {[ "TGF4000"%string := Devif.mk_entry (Some "awg"%string) (Some 9221%Z) ]} in
  exists s : Tgf4000Simulator,
    Tgf4000Simulator_init settings (Some "TGF4000"%string) = Return s /\
    let after := set_output_load (VFloat 50) (set_channel 1 s) in
    fst after = Return tt /\
    output_load (snd after) = VFloat 50 /\
    get_output_load (snd after) = Raise TypeError /\
    get_output_load (set_channel 2 s) = Return VNone /\
    get_output_load (set_channel 2 (snd after)) = Raise TypeError.
Proof.
  eexists. split; [vm_compute; reflexivity|]. vm_compute. repeat split.
Qed.

End Simulator.

Section CommandProtocol.
Import Tgf4000 Protocol.

Context {table : Type}.

(** C7: the protocol holds a simulator when it was built with
    [simulator=True] and a controller otherwise; [get_device] hands that
    object out, and its [is_simulator] tells which one it is. A controller
    whose [connect] raises a [ConnectionError], as [DeviceConnectionError]
    is one, is kept as the device all the same. *)
Theorem protocol_backend_follows_simulator_flag (settings : Devif.Settings)
    (conversion : result table)
    (network : Devif.Tgf4000EthernetInterface ->
               option exception * Devif.Tgf4000EthernetInterface)
    (device_id : option string) (flag : bool) (p : Tgf4000Protocol table) :
  (Tgf4000Protocol_init settings conversion network device_id flag = Return p ->
   get_device p = tgf4000 p /\
   is_simulator (get_device p) = flag /\
   match get_device p with
   | Simulator _ => flag = true
   | Controller _ => flag = false
   end) /\
  (forall (c c' : Tgf4000Controller) (e : exception),
     match conversion with Raise e' => e' = SetupError | Return _ => True end ->
     Tgf4000Controller_init settings device_id = Return c ->
     ctrl_connect network c = (Some e, c') ->
     is_connection_error e = true ->
     exists p', Tgf4000Protocol_init settings conversion network device_id false = Return p' /\
                get_device p' = Controller c').
Proof.
  split.
  - unfold Tgf4000Protocol_init, get_device.
    destruct conversion as [t|e]; [|destruct e; try discriminate];
      (destruct flag;
       [ destruct (Tgf4000Simulator_init settings device_id); [|discriminate];
         intros [= <-]; simpl; auto
       | destruct (Tgf4000Controller_init settings device_id) as [c|]; [|discriminate];
         destruct (ctrl_connect network c) as [[e'|] c'];
         [destruct (is_connection_error e'); [|discriminate]|];
         intros [= <-]; simpl; auto ]).
  - intros c c' e Hconversion Hinit Hconnect He. unfold Tgf4000Protocol_init.
    rewrite Hinit, Hconnect, He.
    destruct conversion as [t|e']; [|subst e']; eexists; split; reflexivity.
Qed.

End CommandProtocol.

Lemma protocol_backend_follows_simulator_flag_witness :
  let settings : Devif.Settings :=
    {[ "TGF4000"%string := Devif.mk_entry (Some "awg"%string) (Some 9221%Z) ]} in
  let refused := fun t : Devif.Tgf4000EthernetInterface => (Some DeviceConnectionError, t) in
  (exists p, Protocol.Tgf4000Protocol_init (table := unit) settings (Raise SetupError) refused
               (Some "TGF4000"%string) true = Return p /\
             Protocol.is_simulator (Protocol.get_device p) = true) /\
  (exists p, Protocol.Tgf4000Protocol_init (table := unit) settings (Return tt) refused
               (Some "TGF4000"%string) false = Return p /\
             Protocol.is_simulator (Protocol.get_device p) = false).
Proof.
  intros settings refused. split; eexists; (split; [vm_compute; reflexivity|]).
  - refine (proj1 (proj2 (proj1 (protocol_backend_follows_simulator_flag settings
                            (Raise SetupError) refused (Some "TGF4000"%string) true _) _))).
    vm_compute. reflexivity.
  - refine (proj1 (proj2 (proj1 (protocol_backend_follows_simulator_flag settings
                            (Return tt) refused (Some "TGF4000"%string) false _) _))).
    vm_compute. reflexivity.
Defined.

(** ** The response parsers: tgf4000.py *)

Section Parsers.
Import Tgf4000.

(** [sep] occurs in [s]. *)
Definition occurs (sep s : str) : Prop := exists pre post, s = pre ++ sep ++ post.

Lemma startswith_true (s sep : str) :
  startswith s sep = true <-> exists post, s = sep ++ post.
Proof.
  unfold startswith, str_eqb. rewrite bool_decide_eq_true. split.
  - intros H. exists (drop (length sep) s). rewrite <- H at 1. symmetry. apply take_drop.
  - intros [post ->]. rewrite take_app_length. reflexivity.
Qed.

Lemma partition_Some (sep s before after : str) :
  partition sep s = Some (before, after) -> s = before ++ sep ++ after.
Proof.
  revert before. induction s as [|x s IH]; intros before; cbn [partition].
  - destruct (startswith [] sep) eqn:E; [|discriminate].
    intros [= <- <-]. apply startswith_true in E as [post E].
    destruct sep; [|discriminate]. reflexivity.
  - destruct (startswith (x :: s) sep) eqn:E.
    + intros [= <- <-]. apply startswith_true in E as [post E].
      rewrite E at 2. rewrite drop_app_length. rewrite E. reflexivity.
    + destruct (partition sep s) as [[b0 a0]|]; [|discriminate].
      intros [= <- <-]. rewrite (IH b0 eq_refl). reflexivity.
Qed.

Lemma partition_None (sep s : str) : partition sep s = None -> ~ occurs sep s.
Proof.
  induction s as [|x s IH]; cbn [partition].
  - destruct (startswith [] sep) eqn:E; [discriminate|]. intros _ (pre & post & H).
    destruct pre; [|discriminate]. simpl in H.
    assert (startswith [] sep = true) by (apply startswith_true; eauto). congruence.
  - destruct (startswith (x :: s) sep) eqn:E; [discriminate|].
    destruct (partition sep s) as [[b0 a0]|]; [discriminate|].
    intros _ (pre & post & H). destruct pre as [|y pre].
    + assert (startswith (x :: s) sep = true) by (apply startswith_true; eauto). congruence.
    + injection H as -> ->. apply IH; [reflexivity|]. exists pre, post. reflexivity.
Qed.

(** The text before the first occurrence holds no occurrence. *)
Lemma partition_before (c : N) (sep s before after : str) :
  partition (c :: sep) s = Some (before, after) -> partition (c :: sep) before = None.
Proof.
  revert before. induction s as [|x s IH]; intros before; cbn [partition].
  - destruct (startswith [] (c :: sep)) eqn:E; [|discriminate].
    apply startswith_true in E as [post E]. discriminate.
  - destruct (startswith (x :: s) (c :: sep)) eqn:E.
    + intros [= <- <-]. reflexivity.
    + destruct (partition (c :: sep) s) as [[b0 a0]|] eqn:Ep; [|discriminate].
      intros [= <- <-]. cbn [partition]. rewrite (IH b0 eq_refl).
      destruct (startswith (x :: b0) (c :: sep)) eqn:E2; [|reflexivity].
      apply startswith_true in E2 as [post E2].
      apply partition_Some in Ep.
      assert (startswith (x :: s) (c :: sep) = true); [|congruence].
      apply startswith_true. exists (post ++ (c :: sep) ++ a0).
      rewrite Ep, app_comm_cons, E2, <- app_assoc. reflexivity.
Qed.

Lemma split_step (c : N) (sep s : str) :
  split (c :: sep) s =
    match partition (c :: sep) s with
    | Some (before, after) => before :: split (c :: sep) after
    | None => [s]
    end.
Proof.
  simp split.
  destruct (inspect (partition (c :: sep) s)) as [[[before after]|] E].
  - transitivity (before :: split (c :: sep) after); [simp split; reflexivity|].
    rewrite E. reflexivity.
  - transitivity [s]; [simp split; reflexivity|]. rewrite E. reflexivity.
Qed.

Lemma split_not_nil (sep s : str) : split sep s <> [].
Proof.
  destruct sep as [|c sep]; [simp split; discriminate|].
  rewrite split_step. destruct (partition (c :: sep) s) as [[before after]|]; discriminate.
Qed.

Lemma join_cons (sep f : str) (fields : list str) :
  fields <> [] -> join sep (f :: fields) = f ++ sep ++ join sep fields.
Proof. destruct fields; [contradiction|reflexivity]. Qed.

(** Joining the fields gives the text back, and no field holds the separator. *)
Lemma split_spec (c : N) (sep : str) (s : str) :
  join (c :: sep) (split (c :: sep) s) = s /\
  Forall (fun f => ~ occurs (c :: sep) f) (split (c :: sep) s).
Proof.
  remember (length s) as n eqn:Hn. revert s Hn.
  induction n as [n IH] using lt_wf_ind. intros s ->.
  rewrite split_step. destruct (partition (c :: sep) s) as [[before after]|] eqn:E.
  - destruct (IH (length after) (partition_shorter c sep s before after E) after eq_refl)
      as [Hjoin Hfree].
    split.
    + rewrite join_cons by apply split_not_nil. rewrite Hjoin.
      symmetry. apply partition_Some. exact E.
    + constructor; [|exact Hfree].
      apply partition_None. exact (partition_before c sep s before after E).
  - split; [reflexivity|]. constructor; [|constructor]. apply partition_None. exact E.
Qed.

Lemma partition_hit (sep s : str) :
  startswith s sep = true -> partition sep s = Some ([], drop (length sep) s).
Proof. intros H. destruct s; cbn [partition]; rewrite H; reflexivity. Qed.

(** A field that lacks the first character of the separator ends at the
    separator that follows it. *)
Lemma partition_field (c : N) (sep field rest : str) :
  c ∉ field -> partition (c :: sep) (field ++ (c :: sep) ++ rest) = Some (field, rest).
Proof.
  induction field as [|x field IH]; intros Hc.
  - rewrite app_nil_l. rewrite partition_hit by (apply startswith_true; eauto).
    rewrite drop_app_length. reflexivity.
  - apply not_elem_of_cons in Hc as [Hx Hc].
    change ((x :: field) ++ (c :: sep) ++ rest) with (x :: (field ++ (c :: sep) ++ rest)).
    cbn [partition]. rewrite (IH Hc).
    destruct (startswith _ _) eqn:E; [|reflexivity].
    apply startswith_true in E as [post E]. injection E as E _. congruence.
Qed.

Lemma partition_last_field (c : N) (sep field : str) :
  c ∉ field -> partition (c :: sep) field = None.
Proof.
  induction field as [|x field IH]; intros Hc.
  - reflexivity.
  - apply not_elem_of_cons in Hc as [Hx Hc]. cbn [partition]. rewrite (IH Hc).
    destruct (startswith _ _) eqn:E; [|reflexivity].
    apply startswith_true in E as [post E]. injection E as E _. congruence.
Qed.

(** Splitting what [join] built gives the fields back, when no field holds
    the first character of the separator. *)
Lemma split_join (c : N) (sep f0 : str) (fields : list str) :
  Forall (fun f => c ∉ f) (f0 :: fields) ->
  split (c :: sep) (join (c :: sep) (f0 :: fields)) = f0 :: fields.
Proof.
  revert f0. induction fields as [|f1 fields IH]; intros f0 Hfree;
    inversion Hfree as [|? ? H0 Hrest]; subst.
  - simpl. rewrite split_step, partition_last_field by exact H0. reflexivity.
  - rewrite join_cons by discriminate.
    rewrite split_step, partition_field by exact H0.
    rewrite (IH f1 Hrest). reflexivity.
Qed.

Lemma remove_char_app (c : N) (s t : str) :
  remove_char c (s ++ t) = remove_char c s ++ remove_char c t.
Proof. apply filter_app. Qed.

Lemma remove_char_absent (c : N) (s : str) : c ∉ s -> remove_char c s = s.
Proof.
  induction s as [|x s IH]; intros Hc; [reflexivity|].
  apply not_elem_of_cons in Hc as [Hx Hc]. unfold remove_char.
  rewrite filter_cons_True by congruence. f_equal. apply IH. exact Hc.
Qed.

Lemma remove_line_ends (s : str) :
  remove_char LF (remove_char CR s) = filter (fun x => x <> CR /\ x <> LF) s.
Proof.
  induction s as [|x s IH]; [reflexivity|]. unfold remove_char in *.
  destruct (decide (x = CR)) as [->|Hcr].
  - rewrite filter_cons_False by congruence.
    rewrite (filter_cons_False (fun x => x <> CR /\ x <> LF)) by tauto. exact IH.
  - rewrite filter_cons_True by exact Hcr.
    destruct (decide (x = LF)) as [->|Hlf].
    + rewrite filter_cons_False by congruence.
      rewrite (filter_cons_False (fun x => x <> CR /\ x <> LF)) by tauto. exact IH.
    + rewrite filter_cons_True by exact Hlf.
      rewrite (filter_cons_True (fun x => x <> CR /\ x <> LF)) by tauto.
      f_equal. exact IH.
Qed.

(** C4: the empty reply gives [None]; any other reply is decoded, loses
    every carriage return and line feed, and is cut at each ", ": the
    fields joined by ", " are that text again, and no field holds a ", ". *)
Theorem unpack_response_splits_on_delimiter (x : byte) (rest : bytes) :
  unpack_response [] = None /\
  exists fields : list str,
    let text := filter (fun c => c <> CR /\ c <> LF) (latin1_decode (x :: rest)) in
    unpack_response (x :: rest) = Some fields /\
    fields = split (u ", ") text /\
    join (u ", ") fields = text /\
    Forall (fun f => ~ occurs (u ", ") f /\ (CR ∉ f) /\ (LF ∉ f)) fields.
Proof.
  split; [reflexivity|]. eexists. cbv zeta.
  split; [unfold unpack_response; simpl length; cbv iota beta; reflexivity|].
  rewrite remove_line_ends.
  set (text := filter _ _).
  split; [reflexivity|].
  change (u ", ") with (44 :: [32]).
  destruct (split_spec 44 [32] text) as [Hjoin Hfree].
  split; [exact Hjoin|].
  assert (Htext : (CR ∉ text) /\ (LF ∉ text)).
  { subst text. split; intros Hin; apply list_elem_of_filter in Hin as [[H1 H2] _];
      congruence. }
  rewrite <- Hjoin in Htext.
  revert Hfree Htext. generalize (split (44 :: [32]) text). intros fields.
  induction fields as [|f fields IH]; intros Hfree Htext; [constructor|].
  inversion Hfree as [|? ? Hf Hfs]; subst.
  assert (Hin : forall c, c ∉ join (44 :: [32]) (f :: fields) ->
                          (c ∉ f) /\ (c ∉ join (44 :: [32]) fields)).
  { intros c0 Hc0. destruct fields as [|g fields]; [split; [exact Hc0|apply not_elem_of_nil]|].
    rewrite join_cons in Hc0 by discriminate.
    rewrite !not_elem_of_app in Hc0. tauto. }
  destruct Htext as [Hcr Hlf]. apply Hin in Hcr as [? ?]. apply Hin in Hlf as [? ?].
  constructor; [tauto|]. apply IH; [exact Hfs|tauto].
Qed.

End Parsers.

Section Numerals.
Import Tgf4000.

(** *** Integer literals *)

Definition is_decimal_digit (c : N) : bool := (48 <=? c) && (c <=? 57).

(** The number a string of decimal digits stands for. *)
Definition decimal_value (digits : str) : N :=
  fold_left (fun acc c => acc * 10 + (c - 48)) digits 0.

(** A decimal numeral: an optional sign and then one digit or more. *)
Definition numeral_digits (s : str) : str :=
  match s with
  | c :: digits => if (c =? 45) || (c =? 43) then digits else s
  | [] => []
  end.

Definition is_numeral (s : str) : bool :=
  match numeral_digits s with
  | [] => false
  | digits => forallb is_decimal_digit digits
  end.

Definition numeral_value (s : str) : Z :=
  match s with
  | c :: digits =>
    if c =? 45 then (- Z.of_N (decimal_value digits))%Z
    else Z.of_N (decimal_value (numeral_digits s))
  | [] => 0%Z
  end.

(** The characters of a floating-point numeral: digits, signs, the point
    and the exponent mark. *)
Definition is_float_char (c : N) : bool :=
  is_decimal_digit c || (c =? 43) || (c =? 45) || (c =? 46) || (c =? 101) || (c =? 69).

Definition is_float_numeral (s : str) : bool :=
  match s with
  | [] => false
  | _ => forallb is_float_char s
  end.

Lemma lstrip_head (c : N) (s : str) : is_space c = false -> lstrip (c :: s) = c :: s.
Proof. intros H. simpl. rewrite H. reflexivity. Qed.

Lemma rstrip_last (c : N) (s : str) : is_space c = false -> rstrip (s ++ [c]) = s ++ [c].
Proof.
  intros H. unfold rstrip. rewrite rev_app_distr. simpl. rewrite H.
  change (c :: rev s) with (rev [c] ++ rev s). rewrite <- rev_app_distr.
  apply rev_involutive.
Qed.

(** A string whose first and last characters are no white space is left
    as it is by [strip]. *)
Lemma strip_id (s : str) :
  (forall c, head s = Some c -> is_space c = false) ->
  (forall c, last s = Some c -> is_space c = false) ->
  strip s = s.
Proof.
  intros Hhead Hlast. unfold strip. destruct s as [|c s]; [reflexivity|].
  rewrite lstrip_head by (apply Hhead; reflexivity).
  destruct (c :: s) as [|x s0 _] eqn:E using rev_ind; [discriminate|].
  apply rstrip_last. apply Hlast. apply last_snoc.
Qed.

(** [int] leaves a string of ASCII characters as it is before reading it. *)
Lemma to_ascii_plain (s : str) : Forall (fun c => c < 127) s -> to_ascii s = Some s.
Proof.
  induction 1 as [|c s Hc _ IH]; [reflexivity|].
  simpl. unfold to_ascii_char. rewrite (proj2 (N.ltb_lt c 127) Hc), IH. reflexivity.
Qed.

Lemma ascii_space_is_space (c : N) : is_space c = false -> is_ascii_space c = false.
Proof.
  intros H. destruct (is_ascii_space c) eqn:E; [|reflexivity].
  unfold is_ascii_space in E. apply orb_true_iff in E as [E|E].
  - unfold is_space in H. rewrite E in H. discriminate.
  - apply N.eqb_eq in E. subst c. discriminate.
Qed.

Lemma skip_spaces_head (c : N) (s : str) :
  is_ascii_space c = false -> skip_spaces (c :: s) = c :: s.
Proof. intros H. simpl. rewrite H. reflexivity. Qed.

Lemma between_spaces_id (s : str) :
  (forall c, head s = Some c -> is_space c = false) ->
  (forall c, last s = Some c -> is_space c = false) ->
  between_spaces s = s.
Proof.
  intros Hhead Hlast. unfold between_spaces. destruct s as [|c s]; [reflexivity|].
  rewrite skip_spaces_head by (apply ascii_space_is_space, Hhead; reflexivity).
  destruct (c :: s) as [|x s0 _] eqn:E using rev_ind; [discriminate|].
  rewrite rev_app_distr. cbn [rev app].
  rewrite skip_spaces_head by (apply ascii_space_is_space, Hlast, last_snoc).
  change (x :: rev s0) with (rev [x] ++ rev s0). rewrite <- rev_app_distr.
  apply rev_involutive.
Qed.

(** [int] on a string of ASCII characters that neither starts nor ends with
    white space: a sign and then the magnitude. *)
Lemma py_int_plain (base : N) (s : str) :
  Forall (fun c => c < 127) s ->
  (forall c, head s = Some c -> is_space c = false) ->
  (forall c, last s = Some c -> is_space c = false) ->
  py_int base s =
    match s with
    | c :: s' =>
      if c =? 45 then Z.opp <$> (Z.of_N <$> int_magnitude base s')
      else if c =? 43 then Z.of_N <$> int_magnitude base s'
      else Z.of_N <$> int_magnitude base (c :: s')
    | [] => None
    end.
Proof.
  intros Hascii Hhead Hlast. unfold py_int.
  rewrite (to_ascii_plain s Hascii), (between_spaces_id s Hhead Hlast). reflexivity.
Qed.

(** The digits of a literal without underscores. *)
Lemma scan_digits_plain (base : N) (s : str) :
  forall acc,
  Forall (fun c => exists d, c <> 95 /\ digit_value c = Some d /\ d < base) s ->
  scan_digits base false acc s =
    Some (fold_left (fun a c => a * base + default 0 (digit_value c)) s acc).
Proof.
  induction s as [|c s IH]; intros acc Hall; [reflexivity|].
  inversion Hall as [|? ? (d & Hc & Hd & Hlt) Hrest]; subst.
  cbn [scan_digits fold_left]. rewrite (proj2 (N.eqb_neq c 95) Hc), Hd.
  rewrite (proj2 (N.ltb_lt d base) Hlt). apply IH. exact Hrest.
Qed.

Lemma decimal_digit_value (c : N) :
  is_decimal_digit c = true -> c <> 95 /\ digit_value c = Some (c - 48) /\ c - 48 < 10.
Proof.
  unfold is_decimal_digit, digit_value. intros H. rewrite H.
  apply andb_true_iff in H as [H1 H2]. apply N.leb_le in H1, H2.
  split; [lia|split; [reflexivity|lia]].
Qed.

Lemma decimal_digit_not_space (c : N) : is_decimal_digit c = true -> is_space c = false.
Proof.
  unfold is_decimal_digit, is_space. intros H.
  apply andb_true_iff in H as [H1 H2]. apply N.leb_le in H1, H2.
  repeat match goal with
         | |- context [?a <=? ?b] => destruct (N.leb_spec a b); try lia
         | |- context [?a =? ?b] => destruct (N.eqb_spec a b); try lia
         end; reflexivity.
Qed.

Lemma skip_prefix_decimal (s : str) : skip_prefix 10 s = s.
Proof.
  destruct s as [|z [|x s]]; try reflexivity.
  unfold skip_prefix. simpl. rewrite andb_false_r. reflexivity.
Qed.

Lemma fold_decimal_digits (digits : str) :
  forallb is_decimal_digit digits = true ->
  forall acc,
    fold_left (fun a c => a * 10 + default 0 (digit_value c)) digits acc =
    fold_left (fun a c => a * 10 + (c - 48)) digits acc.
Proof.
  induction digits as [|x l IH]; intros Hall acc; [reflexivity|].
  simpl in Hall. apply andb_true_iff in Hall as [Hx Hl].
  destruct (decimal_digit_value x Hx) as (_ & Hv & _).
  cbn [fold_left]. rewrite Hv. simpl. apply IH. exact Hl.
Qed.

Lemma decimal_digit_ascii (c : N) : is_decimal_digit c = true -> c < 127.
Proof.
  unfold is_decimal_digit. intros H.
  apply andb_true_iff in H as [H1 H2]. apply N.leb_le in H1, H2. lia.
Qed.

Lemma int_magnitude_decimal (digits : str) :
  digits <> [] -> forallb is_decimal_digit digits = true ->
  (length digits <= max_str_digits)%nat ->
  int_magnitude 10 digits = Some (decimal_value digits).
Proof.
  intros Hne Hall Hlen. unfold int_magnitude. rewrite skip_prefix_decimal.
  destruct digits as [|c digits]; [contradiction|].
  assert (Hc : is_decimal_digit c = true) by (simpl in Hall; apply andb_true_iff in Hall; tauto).
  destruct (decimal_digit_value c Hc) as (Hus & _).
  rewrite (proj2 (N.eqb_neq c 95) Hus).
  assert (Hfew : too_many_digits 10 (c :: digits) = false).
  { unfold too_many_digits. rewrite remove_char_absent.
    - rewrite (proj2 (Nat.ltb_ge _ _) Hlen). apply andb_false_r.
    - intros Hin. rewrite forallb_forall in Hall.
      specialize (Hall 95 (proj1 (list_elem_of_In _ _) Hin)). discriminate. }
  rewrite Hfew.
  rewrite scan_digits_plain.
  - f_equal. unfold decimal_value. apply fold_decimal_digits. exact Hall.
  - apply Forall_forall. intros x Hx.
    rewrite forallb_forall in Hall. specialize (Hall x (proj1 (list_elem_of_In _ _) Hx)).
    destruct (decimal_digit_value x Hall) as (? & ? & ?). eauto.
Qed.

Lemma forallb_last (f : N -> bool) (s : str) (c : N) :
  forallb f s = true -> last s = Some c -> f c = true.
Proof.
  intros Hall Hlast. rewrite forallb_forall in Hall. apply Hall.
  apply list_elem_of_In. apply last_Some_elem_of. exact Hlast.
Qed.

(** [int] reads a decimal numeral of no more digits than the limit as the
    number it stands for. *)
Lemma py_int_numeral (s : str) :
  is_numeral s = true -> (length (numeral_digits s) <= max_str_digits)%nat ->
  py_int 10 s = Some (numeral_value s).
Proof.
  unfold is_numeral. intros Hnum Hlen.
  destruct s as [|c s]; [discriminate|].
  assert (Hdigits : numeral_digits (c :: s) <> [] /\
                    forallb is_decimal_digit (numeral_digits (c :: s)) = true).
  { destruct (numeral_digits (c :: s)); [discriminate|]. split; [discriminate|exact Hnum]. }
  clear Hnum. destruct Hdigits as [Hne Hall].
  assert (Hsign : (c =? 45) || (c =? 43) = true -> is_space c = false /\ c < 127).
  { intros H. apply orb_true_iff in H as [H|H]; apply N.eqb_eq in H; subst;
      split; [reflexivity|lia|reflexivity|lia]. }
  assert (Hascii : Forall (fun x => x < 127) (c :: s)).
  { simpl in Hall. destruct ((c =? 45) || (c =? 43)) eqn:E.
    - constructor; [apply Hsign; reflexivity|].
      apply Forall_forall. intros x Hx. apply decimal_digit_ascii.
      rewrite forallb_forall in Hall. apply Hall, list_elem_of_In, Hx.
    - apply Forall_forall. intros x Hx. apply decimal_digit_ascii.
      rewrite forallb_forall in Hall. apply Hall, list_elem_of_In, Hx. }
  rewrite py_int_plain; [|exact Hascii| |].
  - unfold numeral_value. simpl in Hall, Hne, Hlen. simpl numeral_digits.
    destruct (N.eqb_spec c 45) as [->|H45].
    + simpl in *. rewrite int_magnitude_decimal by assumption. reflexivity.
    + destruct (N.eqb_spec c 43) as [->|H43].
      * simpl in *. rewrite int_magnitude_decimal by assumption. reflexivity.
      * simpl in *. rewrite int_magnitude_decimal by assumption. reflexivity.
  - intros c0 [= <-]. simpl in Hall, Hne.
    destruct ((c =? 45) || (c =? 43)) eqn:E; [apply Hsign; reflexivity|].
    apply decimal_digit_not_space. simpl in Hall. apply andb_true_iff in Hall. tauto.
  - intros c0 Hlast. apply decimal_digit_not_space.
    simpl in Hall, Hne. destruct ((c =? 45) || (c =? 43)) eqn:E.
    + apply (forallb_last _ s); [exact Hall|].
      destruct s; [contradiction|]. exact Hlast.
    + apply (forallb_last _ (c :: s)); [exact Hall|exact Hlast].
Qed.

Lemma join_free (c : N) (sep : str) (fields : list str) :
  c ∉ sep -> Forall (fun f => c ∉ f) fields -> c ∉ join sep fields.
Proof.
  intros Hsep. induction fields as [|f fields IH]; intros Hall.
  - apply not_elem_of_nil.
  - inversion Hall as [|? ? Hf Hrest]; subst. destruct fields as [|g fields]; [exact Hf|].
    rewrite join_cons by discriminate. rewrite !not_elem_of_app. auto.
Qed.

Lemma convert_items_all {A : Type} (convert : str -> result A) (items : list str)
    (values : list A) :
  Forall2 (fun item x => convert item = Return x) items values ->
  convert_items convert items = Return values.
Proof.
  induction 1 as [|item x items values Hx _ IH]; [reflexivity|].
  simpl. rewrite Hx, IH. reflexivity.
Qed.

(** The body of the parsers on a reply made of fields joined by ", " and
    an optional line end: the converted fields, in order. *)
Lemma parse_with_fields {A : Type} (convert : str -> result A) (response : bytes)
    (f0 : str) (fs : list str) (eol : str) (x0 : A) (xs : list A) :
  latin1_decode response = join (u ", ") (f0 :: fs) ++ eol ->
  eol = [] \/ eol = [CR; LF] ->
  f0 <> [] ->
  Forall (fun f => (44 ∉ f) /\ (CR ∉ f) /\ (LF ∉ f)) (f0 :: fs) ->
  Forall2 (fun f x => convert f = Return x) (f0 :: fs) (x0 :: xs) ->
  parse_with convert response =
    Return (match fs with [] => Single x0 | _ => Tuple (x0 :: xs) end).
Proof.
  intros Hresp Heol Hf0 Hfree Hconv.
  assert (Hne : response <> []).
  { intros ->. simpl in Hresp. destruct fs; simpl in Hresp.
    - destruct f0; [contradiction|discriminate].
    - destruct f0; [contradiction|discriminate]. }
  assert (Hcr : CR ∉ join (u ", ") (f0 :: fs)).
  { apply join_free.
    - intros Hin. apply list_elem_of_In in Hin. simpl in Hin.
      destruct Hin as [H|[H|[]]]; discriminate.
    - eapply Forall_impl; [exact Hfree|]. simpl. tauto. }
  assert (Hlf : LF ∉ join (u ", ") (f0 :: fs)).
  { apply join_free.
    - intros Hin. apply list_elem_of_In in Hin. simpl in Hin.
      destruct Hin as [H|[H|[]]]; discriminate.
    - eapply Forall_impl; [exact Hfree|]. simpl. tauto. }
  assert (Htext : remove_char LF (remove_char CR (latin1_decode response))
                  = join (u ", ") (f0 :: fs)).
  { rewrite Hresp, !remove_char_app.
    rewrite (remove_char_absent CR) by exact Hcr.
    rewrite (remove_char_absent LF (join _ _)) by exact Hlf.
    destruct Heol as [-> | ->]; simpl; apply app_nil_r. }
  unfold parse_with, unpack_response.
  destruct response as [|x response]; [contradiction|].
  simpl length. cbv iota beta. rewrite Htext.
  change (u ", ") with (44 :: [32]).
  rewrite split_join by (eapply Forall_impl; [exact Hfree|]; simpl; tauto).
  change (S (length response) =? 0)%nat with false. cbv iota.
  rewrite (convert_items_all convert _ _ Hconv).
  apply Forall2_length in Hconv. simpl in Hconv.
  destruct fs as [|f1 fs], xs as [|x1 xs]; try discriminate; reflexivity.
Qed.

Lemma decimal_digit_plain (c : N) :
  is_decimal_digit c = true -> c <> 44 /\ c <> CR /\ c <> LF.
Proof.
  unfold is_decimal_digit, CR, LF. intros H.
  apply andb_true_iff in H as [H1 H2]. apply N.leb_le in H1, H2. lia.
Qed.

Lemma float_char_plain (c : N) :
  is_float_char c = true -> c <> 44 /\ c <> CR /\ c <> LF.
Proof.
  unfold is_float_char, CR, LF. intros H.
  repeat (apply orb_true_iff in H as [H|H]);
    [apply decimal_digit_plain in H; exact H|apply N.eqb_eq in H; lia ..].
Qed.

Lemma numeral_plain (s : str) :
  is_numeral s = true -> s <> [] /\ (44 ∉ s) /\ (CR ∉ s) /\ (LF ∉ s).
Proof.
  unfold is_numeral. intros Hnum. destruct s as [|c s]; [discriminate|].
  split; [discriminate|].
  assert (Hall : forall x, x ∈ c :: s -> x <> 44 /\ x <> CR /\ x <> LF).
  { intros x Hx. unfold numeral_digits in Hnum.
    destruct ((c =? 45) || (c =? 43)) eqn:E; cbv iota in Hnum.
    - apply elem_of_cons in Hx as [-> | Hx].
      + apply orb_true_iff in E as [E|E]; apply N.eqb_eq in E; subst; repeat split; discriminate.
      + destruct s as [|y s]; [discriminate|]. apply decimal_digit_plain.
        rewrite forallb_forall in Hnum. apply Hnum. apply list_elem_of_In. exact Hx.
    - apply decimal_digit_plain. rewrite forallb_forall in Hnum. apply Hnum.
      apply list_elem_of_In. exact Hx. }
  repeat split; intros Hin; apply Hall in Hin; tauto.
Qed.

Lemma float_numeral_plain (s : str) :
  is_float_numeral s = true -> s <> [] /\ (44 ∉ s) /\ (CR ∉ s) /\ (LF ∉ s).
Proof.
  unfold is_float_numeral. intros Hnum. destruct s as [|c s]; [discriminate|].
  split; [discriminate|].
  assert (Hall : forall x, x ∈ c :: s -> x <> 44 /\ x <> CR /\ x <> LF).
  { intros x Hx. apply float_char_plain. rewrite forallb_forall in Hnum. apply Hnum.
    apply list_elem_of_In. exact Hx. }
  repeat split; intros Hin; apply Hall in Hin; tauto.
Qed.

(** C5: on a reply made of decimal numerals separated by ", ", with or
    without the line end, none of them of more digits than [int] accepts,
    [parse_ints] returns the number of the single field, or the tuple of the
    numbers of the fields in order; and [parse_floats] does the same with
    what [float] makes of the fields of a reply made of floating-point
    numerals. *)
Theorem parsers_return_fields_in_order :
  (forall (response : bytes) (n0 : str) (ns : list str) (eol : str),
     latin1_decode response = join (u ", ") (n0 :: ns) ++ eol ->
     eol = [] \/ eol = [CR; LF] ->
     Forall (fun n => is_numeral n = true) (n0 :: ns) ->
     Forall (fun n => (length (numeral_digits n) <= max_str_digits)%nat) (n0 :: ns) ->
     parse_ints response =
       Return (match ns with
               | [] => Single (numeral_value n0)
               | _ => Tuple (numeral_value <$> n0 :: ns)
               end)) /\
  (forall (float : Type) (float_ : str -> result float) (response : bytes)
          (f0 : str) (fs : list str) (eol : str) (x0 : float) (xs : list float),
     latin1_decode response = join (u ", ") (f0 :: fs) ++ eol ->
     eol = [] \/ eol = [CR; LF] ->
     Forall (fun f => is_float_numeral f = true) (f0 :: fs) ->
     Forall2 (fun f x => float_ f = Return x) (f0 :: fs) (x0 :: xs) ->
     parse_floats float_ response =
       Return (match fs with
               | [] => Single x0
               | _ => Tuple (x0 :: xs)
               end)).
Proof.
  split.
  - intros response n0 ns eol Hresp Heol Hnum Hfew. unfold parse_ints.
    change (numeral_value <$> n0 :: ns) with (numeral_value n0 :: (numeral_value <$> ns)).
    apply (parse_with_fields int_ response n0 ns eol _ _ Hresp Heol).
    + inversion Hnum; subst. apply numeral_plain. assumption.
    + eapply Forall_impl; [exact Hnum|]. intros n Hn. apply numeral_plain in Hn. tauto.
    + change (numeral_value n0 :: (numeral_value <$> ns))
        with (numeral_value <$> n0 :: ns).
      apply Forall2_fmap_r. apply Forall_Forall2_diag.
      rewrite Forall_forall in Hnum, Hfew. apply Forall_forall. intros n Hn.
      unfold int_. rewrite (py_int_numeral n (Hnum n Hn) (Hfew n Hn)). reflexivity.
  - intros float float_ response f0 fs eol x0 xs Hresp Heol Hnum Hconv.
    unfold parse_floats.
    apply (parse_with_fields float_ response f0 fs eol _ _ Hresp Heol).
    + inversion Hnum; subst. apply float_numeral_plain. assumption.
    + eapply Forall_impl; [exact Hnum|]. intros n Hn. apply float_numeral_plain in Hn. tauto.
    + exact Hconv.
Qed.

(** A stand-in for [float] that knows two numerals. *)
Definition two_floats (s : str) : result Q :=
  if bool_decide (s = u "2.5") then Return (5 # 2)%Q
  else if bool_decide (s = u "1e3") then Return 1000%Q
  else Raise ValueError.

Lemma parsers_return_fields_in_order_witness :
  parse_ints (b "1, -20, 300" ++ [x0d; x0a]) = Return (Tuple [1; -20; 300]%Z) /\
  parse_ints (b "42") = Return (Single 42%Z) /\
  parse_floats two_floats (b "2.5, 1e3" ++ [x0d; x0a]) = Return (Tuple [(5 # 2)%Q; 1000%Q]) /\
  parse_floats two_floats (b "2.5") = Return (Single (5 # 2)%Q).
Proof.
  destruct parsers_return_fields_in_order as [Hint Hfloat].
  split; [|split; [|split]].
  - apply (Hint _ (u "1") [u "-20"; u "300"] [CR; LF]);
      [reflexivity|right; reflexivity|repeat constructor
      |repeat (constructor; [simpl; unfold max_str_digits; lia|]); constructor].
  - apply (Hint _ (u "42") [] []);
      [reflexivity|left; reflexivity|repeat constructor
      |repeat (constructor; [simpl; unfold max_str_digits; lia|]); constructor].
  - apply (Hfloat Q two_floats _ (u "2.5") [u "1e3"] [CR; LF] (5 # 2)%Q [1000%Q]);
      [reflexivity|right; reflexivity|repeat constructor|repeat constructor].
  - apply (Hfloat Q two_floats _ (u "2.5") [] [] (5 # 2)%Q []);
      [reflexivity|left; reflexivity|repeat constructor|repeat constructor].
Defined.

(** A numeral of 4301 digits: [int] refuses it, and so does [parse_ints]. *)
Lemma parse_ints_refuses_a_long_numeral :
  let response := replicate 4301 "1"%byte in
  is_numeral (latin1_decode response) = true /\
  latin1_decode response = join (u ", ") [latin1_decode response] /\
  parse_ints response = Raise ValueError.
Proof. vm_compute. repeat split. Qed.

End Numerals.

(** ** The ARB data block: aim_tti/__init__.py *)

Section HexString.
Import AimTti.

Definition is_hex_digit (c : N) : bool :=
  ((48 <=? c) && (c <=? 57)) || ((97 <=? c) && (c <=? 102)) || ((65 <=? c) && (c <=? 70)).

Definition hex_digit_value (c : N) : N :=
  if c <=? 57 then c - 48 else if c <=? 70 then c - 55 else c - 87.

(** The number a group of hexadecimal characters stands for. *)
Definition hex_value (group : str) : Z :=
  Z.of_N (fold_left (fun acc c => acc * 16 + hex_digit_value c) group 0).

(** The signed 16-bit reading of a number below 65536. *)
Definition signed16 (v : Z) : Z := if (32768 <=? v)%Z then (v - 65536)%Z else v.

(** The complete groups of four characters of a string, in order; what
    is left at the end is dropped. *)
Fixpoint groups_of_4 (s : str) : list str :=
  match s with
  | c1 :: c2 :: c3 :: c4 :: rest => [c1; c2; c3; c4] :: groups_of_4 rest
  | _ => []
  end.

Lemma hex_digit_range (c : N) :
  is_hex_digit c = true -> 48 <= c <= 57 \/ 97 <= c <= 102 \/ 65 <= c <= 70.
Proof.
  unfold is_hex_digit. rewrite !orb_true_iff, !andb_true_iff, !N.leb_le. tauto.
Qed.

(** Settles every comparison of the goal that the hypotheses decide. *)
Ltac settle_comparisons :=
  repeat match goal with
         | |- context [?a <=? ?b] =>
           first [rewrite (proj2 (N.leb_le a b)) by lia
                 |rewrite (proj2 (N.leb_gt a b)) by lia]
         | |- context [?a =? ?b] =>
           first [rewrite (proj2 (N.eqb_eq a b)) by lia
                 |rewrite (proj2 (N.eqb_neq a b)) by lia]
         end.

Lemma hex_digit_spec (c : N) :
  is_hex_digit c = true ->
  c <> 95 /\ c <> 45 /\ c <> 43 /\ c <> 120 /\ c <> 88 /\ is_space c = false /\
  digit_value c = Some (hex_digit_value c) /\ hex_digit_value c < 16.
Proof.
  intros H. apply hex_digit_range in H.
  assert (Hspace : is_space c = false).
  { unfold is_space. destruct H as [H|[H|H]]; settle_comparisons; reflexivity. }
  assert (Hvalue : digit_value c = Some (hex_digit_value c) /\ hex_digit_value c < 16).
  { unfold digit_value, hex_digit_value.
    destruct H as [H|[H|H]]; settle_comparisons; simpl; split; try reflexivity; lia. }
  repeat split; try lia; try exact Hspace; apply Hvalue.
Qed.

Lemma fold_hex_digits (digits : str) :
  forallb is_hex_digit digits = true ->
  forall acc,
    fold_left (fun a c => a * 16 + default 0 (digit_value c)) digits acc =
    fold_left (fun a c => a * 16 + hex_digit_value c) digits acc.
Proof.
  induction digits as [|x l IH]; intros Hall acc; [reflexivity|].
  simpl in Hall. apply andb_true_iff in Hall as [Hx Hl].
  destruct (hex_digit_spec x Hx) as (_ & _ & _ & _ & _ & _ & Hv & _).
  cbn [fold_left]. rewrite Hv. simpl. apply IH. exact Hl.
Qed.

Lemma skip_prefix_hex (s : str) : forallb is_hex_digit s = true -> skip_prefix 16 s = s.
Proof.
  intros Hall. destruct s as [|z [|x s]]; try reflexivity.
  simpl in Hall. apply andb_true_iff in Hall as [_ Hall].
  apply andb_true_iff in Hall as [Hx _].
  destruct (hex_digit_spec x Hx) as (_ & _ & _ & H120 & H88 & _).
  unfold skip_prefix.
  rewrite (proj2 (N.eqb_neq x 120) H120), (proj2 (N.eqb_neq x 88) H88).
  simpl. rewrite andb_false_r. reflexivity.
Qed.

Lemma hex_digit_ascii (c : N) : is_hex_digit c = true -> c < 127.
Proof. intros H. apply hex_digit_range in H. lia. Qed.

(** [int(group, 16)] reads a group of hexadecimal characters as the
    number it stands for. *)
Lemma py_int_hex (group : str) :
  group <> [] -> forallb is_hex_digit group = true ->
  py_int 16 group = Some (hex_value group).
Proof.
  intros Hne Hall.
  assert (Hspec : forall c, c ∈ group -> is_hex_digit c = true).
  { intros c Hc. rewrite forallb_forall in Hall. apply Hall. apply list_elem_of_In. exact Hc. }
  rewrite py_int_plain.
  - destruct group as [|c group]; [contradiction|].
    destruct (hex_digit_spec c (Hspec c ltac:(left))) as (H95 & H45 & H43 & _).
    rewrite (proj2 (N.eqb_neq c 45) H45), (proj2 (N.eqb_neq c 43) H43).
    unfold int_magnitude. rewrite skip_prefix_hex by exact Hall.
    rewrite (proj2 (N.eqb_neq c 95) H95).
    change (too_many_digits 16 (c :: group)) with false. cbv iota.
    rewrite scan_digits_plain.
    + rewrite (fold_hex_digits _ Hall). reflexivity.
    + apply Forall_forall. intros x Hx.
      destruct (hex_digit_spec x (Hspec x Hx)) as (? & _ & _ & _ & _ & _ & ? & ?). eauto.
  - apply Forall_forall. intros c Hc. apply hex_digit_ascii, Hspec, Hc.
  - intros c Hc. apply hex_digit_spec, Hspec. destruct group; [discriminate|].
    injection Hc as ->. left.
  - intros c Hc. apply hex_digit_spec, Hspec. apply last_Some_elem_of. exact Hc.
Qed.

Lemma hex_value_4_bound (c1 c2 c3 c4 : N) :
  forallb is_hex_digit [c1; c2; c3; c4] = true ->
  (0 <= hex_value [c1; c2; c3; c4] < 65536)%Z.
Proof.
  intros Hall. cbn [forallb] in Hall.
  apply andb_true_iff in Hall as [H1 Hall]. apply andb_true_iff in Hall as [H2 Hall].
  apply andb_true_iff in Hall as [H3 Hall]. apply andb_true_iff in Hall as [H4 _].
  apply hex_digit_spec in H1 as (_ & _ & _ & _ & _ & _ & _ & H1).
  apply hex_digit_spec in H2 as (_ & _ & _ & _ & _ & _ & _ & H2).
  apply hex_digit_spec in H3 as (_ & _ & _ & _ & _ & _ & _ & H3).
  apply hex_digit_spec in H4 as (_ & _ & _ & _ & _ & _ & _ & H4).
  unfold hex_value. cbn [fold_left]. lia.
Qed.

(** A group fits when its number is below 0x8000. *)
Definition fits (group : str) : bool := (hex_value group <? 32768)%Z.

(** The numbers of the groups before the first one that does not fit. *)
Fixpoint numbers_that_fit (groups : list str) : list Z :=
  match groups with
  | [] => []
  | group :: groups' =>
    if fits group then hex_value group :: numbers_that_fit groups' else []
  end.

Lemma int16_of_group (group : str) :
  (0 <= hex_value group)%Z ->
  int16 (hex_value group) = if fits group then Return (hex_value group) else Raise OverflowError.
Proof.
  intros Hv. unfold int16, fits.
  rewrite (proj2 (Z.leb_le (-32768) _)) by lia. cbn [andb].
  destruct (Z.ltb_spec (hex_value group) 32768) as [Hlow|Hhigh].
  - rewrite (proj2 (Z.leb_le _ 32767)) by lia. reflexivity.
  - rewrite (proj2 (Z.leb_gt _ 32767)) by lia. reflexivity.
Qed.

Lemma numbers_that_fit_all (groups : list str) :
  forallb fits groups = true -> numbers_that_fit groups = hex_value <$> groups.
Proof.
  induction groups as [|g groups IH]; [reflexivity|].
  cbn [forallb numbers_that_fit]. intros H. apply andb_true_iff in H as [Hg H].
  rewrite Hg, (IH H). reflexivity.
Qed.

Lemma groups_of_4_short (s : str) : (length s < 4)%nat -> groups_of_4 s = [].
Proof.
  intros H. destruct s as [|c1 [|c2 [|c3 [|c4 rest]]]]; try reflexivity. simpl in H. lia.
Qed.

Lemma groups_of_4_app (h t : str) (n : nat) :
  length h = (4 * n)%nat -> groups_of_4 (h ++ t) = groups_of_4 h ++ groups_of_4 t.
Proof.
  revert h. induction n as [|n IH]; intros h Hlen.
  - destruct h; [reflexivity|discriminate].
  - destruct h as [|c1 [|c2 [|c3 [|c4 h]]]]; simpl in Hlen; try lia.
    cbn [groups_of_4 app]. rewrite IH by lia. reflexivity.
Qed.

(** The loop over the first [n] groups of what is left of the string, when
    they are hexadecimal numbers: it stops with [OverflowError] at the first
    that does not fit, and otherwise goes on with what follows them. *)
Lemma hex_loop_prefix (n : nat) :
  forall (k : nat) (indices : list nat) (pre h suffix : str) (self : ArbData),
  length pre = (k * 4)%nat -> length h = (4 * n)%nat ->
  forallb is_hex_digit h = true ->
  hex_loop (seq k n ++ indices) (pre ++ h ++ suffix) self =
    if forallb fits (groups_of_4 h)
    then hex_loop indices (pre ++ h ++ suffix)
                  (set_array (array self ++ numbers_that_fit (groups_of_4 h)) self)
    else (Raise OverflowError,
          set_array (array self ++ numbers_that_fit (groups_of_4 h)) self).
Proof.
  induction n as [|n IH]; intros k indices pre h suffix self Hpre Hlen Hall.
  - destruct h; [|discriminate]. simpl. rewrite app_nil_r. destruct self. reflexivity.
  - destruct h as [|c1 [|c2 [|c3 [|c4 rest]]]]; simpl in Hlen; try lia.
    assert (Hgroup : forallb is_hex_digit [c1; c2; c3; c4] = true /\
                     forallb is_hex_digit rest = true).
    { cbn [forallb] in Hall |- *.
      apply andb_true_iff in Hall as [H1 Hall]. apply andb_true_iff in Hall as [H2 Hall].
      apply andb_true_iff in Hall as [H3 Hall]. apply andb_true_iff in Hall as [H4 Hall].
      rewrite H1, H2, H3, H4. split; [reflexivity|exact Hall]. }
    destruct Hgroup as [Hgroup Hrest].
    change (seq k (S n) ++ indices) with (k :: (seq (S k) n ++ indices)).
    cbn [hex_loop].
    assert (Hslice : slice (k * 4) (k * 4 + 4)
                           (pre ++ (c1 :: c2 :: c3 :: c4 :: rest) ++ suffix)
                     = [c1; c2; c3; c4]).
    { unfold slice. rewrite <- Hpre. rewrite drop_app_length.
      replace (length pre + 4 - length pre)%nat with 4%nat by lia. reflexivity. }
    rewrite Hslice. rewrite py_int_hex by (try discriminate; exact Hgroup).
    rewrite int16_of_group by (apply hex_value_4_bound; exact Hgroup).
    cbn [groups_of_4 forallb numbers_that_fit].
    destruct (fits [c1; c2; c3; c4]); cbn [andb].
    + change (pre ++ (c1 :: c2 :: c3 :: c4 :: rest) ++ suffix)
        with (pre ++ [c1; c2; c3; c4] ++ rest ++ suffix).
      rewrite app_assoc. rewrite (IH (S k) indices (pre ++ [c1; c2; c3; c4]) rest).
      * destruct self as [arr name]. unfold set_array. cbn [array filename].
        rewrite <- !app_assoc. reflexivity.
      * rewrite length_app. simpl. lia.
      * lia.
      * exact Hrest.
    + rewrite app_nil_r. destruct self. reflexivity.
Qed.

(** The whole loop over a string of hexadecimal characters. *)
Lemma hex_loop_groups (k : nat) (pre h : str) (self : ArbData) :
  length pre = (k * 4)%nat -> forallb is_hex_digit h = true ->
  hex_loop (seq k (length h / 4)) (pre ++ h) self =
    (if forallb fits (groups_of_4 h) then Return tt else Raise OverflowError,
     set_array (array self ++ numbers_that_fit (groups_of_4 h)) self).
Proof.
  intros Hpre Hall. set (n := (length h / 4)%nat).
  assert (Hn : (4 * n <= length h /\ length h - 4 * n < 4)%nat).
  { subst n. pose proof (Nat.div_mod_eq (length h) 4).
    pose proof (Nat.mod_upper_bound (length h) 4). lia. }
  assert (Hgroups : groups_of_4 h = groups_of_4 (take (4 * n) h)).
  { rewrite <- (take_drop (4 * n) h) at 1.
    rewrite (groups_of_4_app _ _ n) by (rewrite length_take; lia).
    rewrite (groups_of_4_short (drop (4 * n) h)) by (rewrite length_drop; lia).
    apply app_nil_r. }
  rewrite <- (app_nil_r (seq k n)).
  rewrite <- (take_drop (4 * n) h) at 1.
  rewrite (hex_loop_prefix n k [] pre (take (4 * n) h) (drop (4 * n) h) self Hpre).
  - rewrite <- Hgroups. cbn [hex_loop].
    destruct (forallb fits (groups_of_4 h)); reflexivity.
  - rewrite length_take. lia.
  - rewrite <- (take_drop (4 * n) h), forallb_app in Hall.
    apply andb_true_iff in Hall as [Htake _]. exact Htake.
Qed.

Lemma remove_blanks_hex (s : str) :
  Forall (fun c => is_hex_digit c = true \/ c = 32) s ->
  forallb is_hex_digit (remove_char 32 s) = true.
Proof.
  induction 1 as [|c s [Hc | ->] _ IH]; [reflexivity| |].
  - unfold remove_char. rewrite filter_cons_True.
    + simpl. rewrite Hc. exact IH.
    + intros ->. discriminate.
  - unfold remove_char. rewrite filter_cons_False by tauto. exact IH.
Qed.

(** C9: on a string of hexadecimal characters and blanks,
    [array_from_hex_string] drops the blanks and reads the complete groups
    of four characters, dropping what is left after the last of them; but it
    does not fold. A group from 0x8000 on, which is to stand for a negative
    number, raises [OverflowError], and the array keeps the numbers of the
    groups before it: "FFFF" gives no [-1] and "8001" no [-32767]. *)
Theorem array_from_hex_string_raises_from_0x8000 (hex_string : str) (self : ArbData) :
  Forall (fun c => is_hex_digit c = true \/ c = 32) hex_string ->
  let groups := groups_of_4 (filter (fun c => c <> 32) hex_string) in
  array_from_hex_string hex_string self =
    (if forallb fits groups then Return tt else Raise OverflowError,
     set_array (numbers_that_fit groups) self) /\
  array_from_hex_string (u "0001 0002 0003") self = (Return tt, set_array [1; 2; 3]%Z self) /\
  array_from_hex_string (u "000100020003") self = (Return tt, set_array [1; 2; 3]%Z self) /\
  array_from_hex_string (u "0001 0002 00") self = (Return tt, set_array [1; 2]%Z self) /\
  signed16 (hex_value (u "FFFF")) = (-1)%Z /\
  array_from_hex_string (u "FFFF") self = (Raise OverflowError, set_array [] self) /\
  array_from_hex_string (u "7FFF FFFF 0000 0001 8001") self
    = (Raise OverflowError, set_array [32767]%Z self).
Proof.
  intros Hchars groups.
  assert (Hgeneral : forall s, Forall (fun c => is_hex_digit c = true \/ c = 32) s ->
            array_from_hex_string s self =
              (if forallb fits (groups_of_4 (filter (fun c => c <> 32) s))
               then Return tt else Raise OverflowError,
               set_array (numbers_that_fit (groups_of_4 (filter (fun c => c <> 32) s))) self)).
  { intros s Hs. pose proof (remove_blanks_hex s Hs) as Hall.
    unfold array_from_hex_string. fold (remove_char 32 s).
    assert (Hstrip : strip (remove_char 32 s) = remove_char 32 s).
    { apply strip_id; intros c Hc; apply hex_digit_spec.
      - rewrite forallb_forall in Hall. apply Hall. apply list_elem_of_In.
        destruct (remove_char 32 s); [discriminate|]. injection Hc as ->. left.
      - apply (forallb_last _ _ _ Hall Hc). }
    rewrite Hstrip.
    rewrite <- (app_nil_l (remove_char 32 s)) at 2.
    rewrite (hex_loop_groups 0 [] (remove_char 32 s)) by auto. reflexivity. }
  split; [exact (Hgeneral hex_string Hchars)|].
  assert (Hword : forall w : string,
            Forall (fun c => is_hex_digit c = true \/ c = 32) (u w) ->
            array_from_hex_string (u w) self =
              (if forallb fits (groups_of_4 (filter (fun c => c <> 32) (u w)))
               then Return tt else Raise OverflowError,
               set_array (numbers_that_fit (groups_of_4 (filter (fun c => c <> 32) (u w)))) self))
    by (intros w; apply Hgeneral).
  repeat apply conj;
    try (rewrite Hword;
         [reflexivity
         |repeat (constructor; [first [left; reflexivity|right; reflexivity]|]); constructor]).
  reflexivity.
Qed.

Lemma array_from_hex_string_raises_from_0x8000_witness :
  array_from_hex_string (u "7fff 8001 7f") ArbData_init
    = (Raise OverflowError, set_array [32767]%Z ArbData_init) /\
  array_from_hex_string (u "0a0b 7f") ArbData_init
    = (Return tt, set_array [2571]%Z ArbData_init).
Proof.
  split.
  - refine (proj1 (array_from_hex_string_raises_from_0x8000 (u "7fff 8001 7f") ArbData_init _)).
    repeat (constructor; [first [left; reflexivity|right; reflexivity]|]). constructor.
  - refine (proj1 (array_from_hex_string_raises_from_0x8000 (u "0a0b 7f") ArbData_init _)).
    repeat (constructor; [first [left; reflexivity|right; reflexivity]|]). constructor.
Defined.

End HexString.

Section ArbBlock.
Import AimTti.

(** *** The decimal digits of a length *)

Lemma digits_of_small (fuel : nat) (n : N) : n < 10 -> digits_of (S fuel) n = [48 + n].
Proof. intros H. simpl. rewrite (proj2 (N.ltb_lt n 10) H). reflexivity. Qed.

Lemma digits_of_chars (fuel : nat) :
  forall n, Forall (fun c => 48 <= c <= 57) (digits_of fuel n).
Proof.
  induction fuel as [|fuel IH]; intros n; [constructor|].
  simpl. destruct (N.ltb_spec n 10) as [Hlt|Hge].
  - constructor; [lia|constructor].
  - apply Forall_app. split; [apply IH|].
    constructor; [|constructor].
    pose proof (N.mod_upper_bound n 10 ltac:(lia)) as Hm.
    set (m := n mod 10) in *. lia.
Qed.

Lemma digits_of_length (fuel : nat) :
  forall (n : N) (k : nat), (1 <= k)%nat -> n < 10 ^ N.of_nat k ->
  (length (digits_of fuel n) <= k)%nat.
Proof.
  induction fuel as [|fuel IH]; intros n k Hk Hn; [simpl; lia|].
  simpl. destruct (N.ltb_spec n 10) as [Hlt|Hge]; [simpl; lia|].
  rewrite length_app. simpl.
  destruct k as [|[|k]]; [lia|simpl in Hn; lia|].
  assert (Hdiv : n / 10 < 10 ^ N.of_nat (S k)).
  { apply N.Div0.div_lt_upper_bound.
    replace (N.of_nat (S (S k))) with (N.succ (N.of_nat (S k))) in Hn by lia.
    rewrite N.pow_succ_r' in Hn. exact Hn. }
  specialize (IH (n / 10) (S k) ltac:(lia) Hdiv). lia.
Qed.

Lemma decimal_value_snoc (digits : str) (c : N) :
  decimal_value (digits ++ [c]) = decimal_value digits * 10 + (c - 48).
Proof. unfold decimal_value. rewrite fold_left_app. reflexivity. Qed.

(** With a digit of fuel for every binary digit, the digits are those of
    the number. *)
Lemma digits_of_value (fuel : nat) :
  forall n, n < 2 ^ N.of_nat fuel -> decimal_value (digits_of fuel n) = n.
Proof.
  induction fuel as [|fuel IH]; intros n Hn.
  - simpl in Hn. assert (n = 0) as -> by lia. reflexivity.
  - simpl digits_of. destruct (N.ltb_spec n 10) as [Hlt|Hge].
    + unfold decimal_value. simpl. lia.
    + rewrite decimal_value_snoc. rewrite IH.
      * pose proof (N.div_mod n 10 ltac:(lia)) as Hdm.
        set (q := n / 10) in *. set (m := n mod 10) in *. lia.
      * apply N.Div0.div_lt_upper_bound.
        replace (N.of_nat (S fuel)) with (N.succ (N.of_nat fuel)) in Hn by lia.
        rewrite N.pow_succ_r' in Hn. lia.
Qed.

Lemma str_of_N_value (n : N) : decimal_value (str_of_N n) = n.
Proof.
  unfold str_of_N. apply digits_of_value.
  destruct (N.eq_dec n 0) as [->|Hn]; [reflexivity|].
  replace (N.of_nat (S (N.to_nat (N.size n)))) with (N.succ (N.size n)) by lia.
  rewrite N.pow_succ_r'. pose proof (N.size_gt n). lia.
Qed.

Lemma str_of_N_length (n : N) (k : nat) :
  (1 <= k)%nat -> n < 10 ^ N.of_nat k -> (1 <= length (str_of_N n) <= k)%nat.
Proof.
  intros Hk Hn. unfold str_of_N. split; [|apply digits_of_length; assumption].
  simpl. destruct (n <? 10); [simpl; lia|]. rewrite length_app. simpl. lia.
Qed.

(** *** latin1 *)

Lemma latin1_encode_decode (data : bytes) : latin1_encode (latin1_decode data) = Some data.
Proof.
  induction data as [|x data IH]; [reflexivity|].
  change (latin1_decode (x :: data)) with (Byte.to_N x :: latin1_decode data).
  cbn [latin1_encode]. rewrite Byte.of_to_N, IH. reflexivity.
Qed.

Lemma latin1_encode_app (s t : str) :
  latin1_encode (s ++ t) =
    match latin1_encode s, latin1_encode t with
    | Some x, Some y => Some (x ++ y)
    | _, _ => None
    end.
Proof.
  induction s as [|c s IH]; simpl.
  - destruct (latin1_encode t); reflexivity.
  - rewrite IH. destruct (Byte.of_N c), (latin1_encode s), (latin1_encode t); reflexivity.
Qed.

Lemma latin1_decode_encode (s : str) (data : bytes) :
  latin1_encode s = Some data -> latin1_decode data = s.
Proof.
  revert data. induction s as [|c s IH]; intros data; simpl.
  - intros [= <-]. reflexivity.
  - destruct (Byte.of_N c) as [x|] eqn:Ex; [|discriminate].
    destruct (latin1_encode s) as [d|]; [|discriminate].
    intros [= <-]. change (latin1_decode (x :: d)) with (Byte.to_N x :: latin1_decode d).
    apply Byte.to_of_N in Ex. rewrite Ex. f_equal. apply IH. reflexivity.
Qed.

Lemma latin1_encode_small (s : str) :
  Forall (fun c => c < 256) s -> exists data, latin1_encode s = Some data.
Proof.
  induction 1 as [|c s Hc _ [d IH]]; [exists []; reflexivity|].
  simpl. destruct (Byte.of_N c) as [x|] eqn:Ex.
  - rewrite IH. eauto.
  - apply Byte.of_N_None_iff in Ex. lia.
Qed.

(** *** Two bytes per point *)

(** A point of the waveform: a signed 16-bit number. *)
Definition is_point (z : Z) : Prop := (-32768 <= z <= 32767)%Z.

(** The two bytes of a point, high byte first. *)
Definition two_bytes (z : Z) : bytes := big_endian 2 (z mod 65536).

Fixpoint payload (points : list Z) : bytes :=
  match points with
  | [] => []
  | z :: points' => two_bytes z ++ payload points'
  end.

Lemma to_bytes_point (z : Z) : is_point z -> to_bytes 2 z = Return (two_bytes z).
Proof.
  unfold is_point, to_bytes, two_bytes. intros Hz.
  change (256 ^ Z.of_nat 2)%Z with 65536%Z. cbv zeta.
  rewrite (proj2 (Z.leb_le (- (65536)) (2 * z))) by lia.
  rewrite (proj2 (Z.ltb_lt (2 * z) 65536)) by lia. reflexivity.
Qed.

Lemma to_N_byte_of_Z (x : Z) :
  (0 <= x < 256)%Z -> Z.of_N (Byte.to_N (byte_of_N (Z.to_N x))) = x.
Proof. intros Hx. rewrite to_N_byte_of_N by lia. lia. Qed.

Lemma from_bytes_two_bytes (z : Z) : is_point z -> from_bytes (two_bytes z) = z.
Proof.
  unfold is_point, from_bytes, two_bytes. intros Hz.
  set (w := (z mod 65536)%Z).
  assert (Hw : (0 <= w < 65536)%Z) by (apply Z.mod_pos_bound; lia).
  assert (Hwz : ((0 <= z /\ w = z) \/ (z < 0 /\ w = z + 65536))%Z).
  { subst w. destruct (Z.le_gt_cases 0 z) as [Hpos|Hneg].
    - left. rewrite Z.mod_small by lia. lia.
    - right. split; [lia|].
      replace z with (z + 65536 + (-1) * 65536)%Z at 1 by lia.
      rewrite Z.mod_add by lia. rewrite Z.mod_small by lia. reflexivity. }
  cbn [big_endian length fold_left].
  change (256 ^ Z.of_nat 1)%Z with 256%Z. change (256 ^ Z.of_nat 0)%Z with 1%Z.
  change (256 ^ Z.of_nat 2)%Z with 65536%Z.
  rewrite Z.div_1_r.
  assert (Hhi : (0 <= w / 256 < 256)%Z).
  { split; [apply Z.div_pos; lia|apply Z.div_lt_upper_bound; lia]. }
  rewrite (Z.mod_small (w / 256) 256) by exact Hhi.
  pose proof (Z.mod_pos_bound w 256 ltac:(lia)) as Hlo.
  rewrite !to_N_byte_of_Z by lia.
  pose proof (Z.div_mod w 256 ltac:(lia)) as Hdm.
  replace ((0 * 256 + w / 256) * 256 + w mod 256)%Z with w by lia.
  destruct (Z.leb_spec 65536 (2 * w)); lia.
Qed.

Lemma two_bytes_length (z : Z) : length (two_bytes z) = 2%nat.
Proof. reflexivity. Qed.

Lemma payload_length (points : list Z) : length (payload points) = (2 * length points)%nat.
Proof.
  induction points as [|z points IH]; [reflexivity|].
  cbn [payload]. rewrite length_app, two_bytes_length, IH. simpl. lia.
Qed.

Lemma bytes_of_array_points (points : list Z) :
  Forall is_point points ->
  forall byte_string, bytes_of_array points byte_string = Return (byte_string ++ payload points).
Proof.
  induction 1 as [|z points Hz _ IH]; intros byte_string.
  - simpl. rewrite app_nil_r. reflexivity.
  - cbn [bytes_of_array payload]. rewrite (to_bytes_point z Hz), IH, app_assoc. reflexivity.
Qed.

(** The loop of [array_from_bytes] over the payload of a list of points
    reads the points back. *)
Lemma numbers_of_payload (points : list Z) :
  Forall is_point points ->
  forall (k : nat) (pre : bytes), length pre = (k * 2)%nat ->
    (fun index => from_bytes (slice (index * 2) (index * 2 + 2) (pre ++ payload points)))
      <$> seq k (length points) = points.
Proof.
  induction 1 as [|z points Hz _ IH]; intros k pre Hpre; [reflexivity|].
  cbn [length seq fmap list_fmap payload]. f_equal.
  - unfold slice. rewrite <- Hpre, drop_app_length.
    replace (length pre + 2 - length pre)%nat with 2%nat by lia.
    rewrite take_app_length' by apply (two_bytes_length z).
    apply from_bytes_two_bytes. exact Hz.
  - rewrite app_assoc. apply IH. rewrite length_app, two_bytes_length. lia.
Qed.

Lemma numbers_of_bytes_payload (points : list Z) :
  Forall is_point points -> numbers_of_bytes (payload points) = points.
Proof.
  intros Hpoints. unfold numbers_of_bytes. rewrite payload_length.
  replace (2 * length points)%nat with (length points * 2)%nat by lia.
  rewrite Nat.div_mul by lia.
  exact (numbers_of_payload points Hpoints 0 [] eq_refl).
Qed.

Lemma numbers_of_bytes_length (data : bytes) :
  length (numbers_of_bytes data) = (length data / 2)%nat.
Proof. unfold numbers_of_bytes. rewrite length_fmap, length_seq. reflexivity. Qed.

(** *** The block and the way back *)

(** The header of a block of [n] bytes, after the "#": the number of
    digits of [n], then [n]. *)
Definition header (n : N) : str :=
  format_d 1 (N.of_nat (length (str_of_N n))) ++ str_of_N n.

Lemma string_of_points (points : list Z) (self : ArbData) :
  Forall is_point points ->
  string_ (set_array points self) =
    Return (35 :: header (N.of_nat (length (payload points)))
               ++ latin1_decode (payload points)).
Proof.
  intros Hpoints. unfold string_, array_as_bytes. cbn [array set_array].
  rewrite (bytes_of_array_points points Hpoints []). cbn [app].
  unfold latin1_decode at 1 2. rewrite !length_fmap. unfold header.
  rewrite <- app_assoc. reflexivity.
Qed.

(** The way the claim goes: set the array, take the [string] property,
    encode it with latin1 and hand it to [init_from_bytestring] of a new
    object; the result is the array of that object. *)
Definition round_trip (points : list Z) : result (list Z) :=
  match string_ (set_array points ArbData_init) with
  | Raise e => Raise e
  | Return block =>
    match latin1_encode block with
    | None => Raise UnicodeError
    | Some bytestring =>
      match init_from_bytestring bytestring ArbData_init with
      | (Return _, self) => Return (array self)
      | (Raise e, _) => Raise e
      end
    end
  end.

(** The way back from a block whose second character is the digit [k]:
    what follows the first [2 + k] characters is read as the payload. *)
Lemma round_trip_block (points : list Z) (digit : N) (digits : str) (k : Z) :
  Forall is_point points ->
  header (N.of_nat (length (payload points))) = digit :: digits ->
  Forall (fun c => c < 256) (digit :: digits) ->
  py_int 10 [digit] = Some k -> (0 <= k)%Z -> (Z.to_nat k <= length digits)%nat ->
  exists data,
    latin1_encode (drop (Z.to_nat k) digits ++ latin1_decode (payload points)) = Some data /\
    round_trip points = Return (numbers_of_bytes data).
Proof.
  intros Hpoints Hheader Hsmall Hdigit Hk Hle.
  set (text := latin1_decode (payload points)).
  assert (Htext : latin1_encode text = Some (payload points)) by apply latin1_encode_decode.
  destruct (latin1_encode_small (drop (Z.to_nat k) digits)) as [d Hd].
  { apply Forall_drop. inversion Hsmall; assumption. }
  exists (d ++ payload points). split.
  { rewrite latin1_encode_app, Hd, Htext. reflexivity. }
  unfold round_trip. rewrite (string_of_points points _ Hpoints), Hheader. fold text.
  destruct (latin1_encode_small (35 :: digit :: digits)) as [head Hhead].
  { constructor; [lia|exact Hsmall]. }
  change (35 :: (digit :: digits) ++ text) with ((35 :: digit :: digits) ++ text).
  rewrite latin1_encode_app, Hhead, Htext.
  unfold init_from_bytestring.
  assert (Hback : latin1_decode (head ++ payload points) = (35 :: digit :: digits) ++ text).
  { apply latin1_decode_encode. rewrite latin1_encode_app, Hhead, Htext. reflexivity. }
  rewrite Hback.
  change (((35 :: digit :: digits) ++ text) !! 1%nat) with (Some digit).
  cbv beta iota. rewrite Hdigit.
  unfold slice_from. rewrite (proj2 (Z.leb_le 0 (2 + k))) by lia.
  replace (Z.to_nat (2 + k)) with (S (S (Z.to_nat k))) by lia.
  change (drop (S (S (Z.to_nat k))) ((35 :: digit :: digits) ++ text))
    with (drop (Z.to_nat k) (digits ++ text)).
  unfold array_from_bytes.
  rewrite drop_app_le by exact Hle.
  rewrite latin1_encode_app, Hd, Htext. reflexivity.
Qed.

Lemma latin1_encode_length (s : str) (data : bytes) :
  latin1_encode s = Some data -> length data = length s.
Proof.
  intros H. apply latin1_decode_encode in H. subst s.
  unfold latin1_decode. rewrite length_fmap. reflexivity.
Qed.

Lemma header_one_digit (n : N) :
  n < 10 ^ 9 ->
  exists k : N,
    N.to_nat k = length (str_of_N n) /\ 1 <= k <= 9 /\
    header n = (48 + k) :: str_of_N n /\ py_int 10 [48 + k] = Some (Z.of_N k).
Proof.
  intros Hn. unfold header.
  pose proof (str_of_N_length n 9 ltac:(lia) Hn) as Hlen.
  remember (length (str_of_N n)) as len eqn:Elen. clear Elen.
  exists (N.of_nat len). split; [lia|]. split; [lia|].
  do 10 (destruct len as [|len]; [try (simpl in Hlen; lia); split; reflexivity|]).
  simpl in Hlen. lia.
Qed.

(** C8, as the code has it: below 500,000,000 points, that is below 10^9
    bytes of payload, the length of the payload has at most nine digits,
    the header tells their number in one digit, and the points come back. *)
Theorem arb_data_round_trip (points : list Z) :
  Forall is_point points ->
  (Z.of_nat (length points) < 500000000)%Z ->
  round_trip points = Return points.
Proof.
  intros Hpoints Hlen.
  assert (Hn : N.of_nat (length (payload points)) < 10 ^ 9).
  { rewrite payload_length. change (10 ^ 9) with 1000000000. lia. }
  destruct (header_one_digit _ Hn) as (k & Hk & Hrange & Hheader & Hdigit).
  destruct (round_trip_block points (48 + k) _ (Z.of_N k) Hpoints Hheader)
    as (data & Hdata & Htrip); try assumption; try lia.
  - constructor; [lia|].
    eapply Forall_impl; [apply digits_of_chars|]. simpl. intros c Hc. lia.
  - replace (Z.to_nat (Z.of_N k)) with (length (str_of_N (N.of_nat (length (payload points)))))
      in Hdata by lia.
    rewrite drop_all in Hdata. cbn [app] in Hdata.
    rewrite latin1_encode_decode in Hdata. injection Hdata as <-.
    rewrite Htrip, numbers_of_bytes_payload by exact Hpoints. reflexivity.
Qed.

Lemma arb_data_round_trip_witness :
  round_trip [0; 1; -1; 32767; -32768; 255; 256]%Z
    = Return [0; 1; -1; 32767; -32768; 255; 256]%Z.
Proof.
  apply arb_data_round_trip.
  - repeat constructor; discriminate.
  - reflexivity.
Defined.

(** With a payload of 10^9 bytes the length has ten digits: the header
    starts with "10", of which only the "1" is read back, and the ten
    characters that follow become part of the payload. *)
Lemma round_trip_ten_digits (points : list Z) :
  Forall is_point points ->
  N.of_nat (length (payload points)) = 1000000000 ->
  round_trip points <> Return points.
Proof.
  intros Hpoints Hn.
  assert (Hheader : header (N.of_nat (length (payload points)))
                    = 49 :: [48; 49; 48; 48; 48; 48; 48; 48; 48; 48; 48]).
  { rewrite Hn. vm_compute. reflexivity. }
  destruct (round_trip_block points 49 _ 1%Z Hpoints Hheader)
    as (data & Hdata & Htrip).
  - repeat (constructor; [lia|]). constructor.
  - reflexivity.
  - lia.
  - simpl. lia.
  - rewrite Htrip. intros [= Heq].
    apply (f_equal length) in Heq. rewrite numbers_of_bytes_length in Heq.
    apply latin1_encode_length in Hdata. rewrite Hdata in Heq.
    change (Z.to_nat 1) with 1%nat in Heq. cbn [drop] in Heq.
    rewrite length_app in Heq. unfold latin1_decode in Heq. rewrite length_fmap in Heq.
    rewrite payload_length in Heq, Hn. cbn [length] in Heq.
    replace (10 + 2 * length points)%nat with ((5 + length points) * 2)%nat in Heq by lia.
    rewrite Nat.div_mul in Heq by lia. lia.
Qed.

(** C8 fails for 500,000,000 points, which make a payload of 10^9 bytes. *)
Lemma arb_data_round_trip_fails_at_ten_digits :
  let points := replicate (N.to_nat 500000000) 0%Z in
  Forall is_point points /\ round_trip points <> Return points.
Proof.
  intros points.
  assert (Hpoints : Forall is_point points).
  { apply Forall_replicate. unfold is_point. lia. }
  split; [exact Hpoints|].
  apply round_trip_ten_digits; [exact Hpoints|].
  rewrite payload_length. subst points. rewrite length_replicate. lia.
Qed.

End ArbBlock.

(** * Further properties of the driver *)

(** ** The transport without a socket, and what [trans] hands back *)

Section TransportReplies.
Import Devif.

(** An interface that was never connected: no socket, not open. *)
Definition unconnected : Tgf4000EthernetInterface :=
  mk_interface (Some "awg"%string) (Some 9221%Z) (Some "TGF4000"%string) None false 60%Q.

(** Before [connect], [write] and [trans] raise [DeviceConnectionError] and
    [read] the bare [AttributeError]; if the interface claims to be open
    although it has no socket, [write] and [trans] let the [AttributeError]
    through too. None of them changes the interface. *)
Theorem transport_needs_a_socket (self : Tgf4000EthernetInterface) (command : str) :
  _sock self = None ->
  let raised := if _is_connection_open self then AttributeError else DeviceConnectionError in
  write command self = (Raise raised, self) /\
  trans command self = (Raise raised, self) /\
  read self = (Raise AttributeError, self).
Proof.
  intros Hsock. unfold write, trans, read. rewrite Hsock.
  unfold write_except, trans_except. destruct (_is_connection_open self); auto.
Qed.

Lemma transport_needs_a_socket_witness :
  write (u "FREQ 1000") unconnected = (Raise DeviceConnectionError, unconnected) /\
  trans (u "FREQ?") unconnected = (Raise DeviceConnectionError, unconnected) /\
  read unconnected = (Raise AttributeError, unconnected).
Proof.
  split; [exact (proj1 (transport_needs_a_socket unconnected (u "FREQ 1000") eq_refl))|].
  exact (proj2 (transport_needs_a_socket unconnected (u "FREQ?") eq_refl)).
Defined.

Lemma lstrip_head_not_space (s : str) (c : N) :
  head (lstrip s) = Some c -> is_space c = false.
Proof.
  induction s as [|x s IH]; [discriminate|].
  simpl. destruct (is_space x) eqn:E; [exact IH|]. intros [= <-]. exact E.
Qed.

(** What [rstrip] leaves does not end with white space. *)
Lemma rstrip_last_not_space (s : str) (c : N) :
  last (rstrip s) = Some c -> is_space c = false.
Proof.
  unfold rstrip. intros H. apply (lstrip_head_not_space (rev s)).
  rewrite <- H. rewrite <- (last_reverse (lstrip (rev s))).
  unfold reverse. rewrite <- rev_alt. reflexivity.
Qed.

(** [lstrip] takes white space off the front, and nothing else. *)
Lemma lstrip_spec (s : str) :
  exists spaces, s = spaces ++ lstrip s /\ Forall (fun c => is_space c = true) spaces.
Proof.
  induction s as [|x s (spaces & Hs & Hall)].
  - exists []. split; [reflexivity|constructor].
  - simpl. destruct (is_space x) eqn:E.
    + exists (x :: spaces). split; [simpl; f_equal; exact Hs|constructor; assumption].
    + exists []. split; [reflexivity|constructor].
Qed.

(** [rstrip] takes white space off the end, and nothing else. *)
Lemma rstrip_spec (s : str) :
  exists spaces, s = rstrip s ++ spaces /\ Forall (fun c => is_space c = true) spaces.
Proof.
  destruct (lstrip_spec (rev s)) as (spaces & Hs & Hall).
  exists (rev spaces). split.
  - unfold rstrip. rewrite <- rev_app_distr, <- Hs. symmetry. apply rev_involutive.
  - apply Forall_forall. intros c Hc. rewrite Forall_forall in Hall. apply Hall.
    apply list_elem_of_In. apply list_elem_of_In in Hc. apply in_rev. exact Hc.
Qed.

(** Whatever the peer and the network do, a call of [trans] that returns
    has sent the command and hands back what [read] then returned: decoded
    and without the white space at its end, or, when it is no UTF-8, the
    bytes as they are. *)
Theorem trans_returns_stripped_text_or_raw_bytes (self : Tgf4000EthernetInterface)
    (command : str) (reply : str + bytes) :
  fst (trans command self) = Return reply ->
  exists (sk : socket) (sent_bytes data : bytes),
    _sock self = Some sk /\
    utf8_encode (terminated command) = Some sent_bytes /\
    fst (sendall sent_bytes sk) = None /\
    fst (read (with_sock (snd (sendall sent_bytes sk)) self)) = Return data /\
    match reply with
    | inl text =>
      exists decoded spaces,
        utf8_decode data = Some decoded /\ decoded = text ++ spaces /\
        Forall (fun c => is_space c = true) spaces /\
        (forall c, last text = Some c -> is_space c = false)
    | inr raw => raw = data /\ utf8_decode data = None
    end.
Proof.
  unfold trans. destruct (_sock self) as [sk|].
  2:{ unfold trans_except. simpl. destruct (_is_connection_open self); discriminate. }
  destruct (utf8_encode (terminated command)) as [sent_bytes|]; [|discriminate].
  destruct (sendall sent_bytes sk) as [[e|] sk1] eqn:Esend.
  { unfold trans_except. cbn [fst].
    destruct e; simpl; try discriminate; destruct (_is_connection_open _); discriminate. }
  destruct (read (with_sock sk1 self)) as [[data|e] self2] eqn:Eread.
  - intros Hreply. exists sk, sent_bytes, data. rewrite Esend. cbn [fst snd].
    rewrite Eread. cbn [fst].
    split; [reflexivity|]. split; [reflexivity|]. split; [reflexivity|].
    split; [reflexivity|].
    destruct (utf8_decode data) as [decoded|] eqn:Edec; cbn [fst] in Hreply.
    + injection Hreply as <-. destruct (rstrip_spec decoded) as (spaces & Hs & Hall).
      exists decoded, spaces. split; [reflexivity|]. split; [exact Hs|].
      split; [exact Hall|]. intros c. apply rstrip_last_not_space.
    + unfold trans_except in Hreply. injection Hreply as <-. split; reflexivity.
  - unfold trans_except. cbn [fst].
    destruct e; simpl; try discriminate; destruct (_is_connection_open _); discriminate.
Qed.

Lemma trans_returns_stripped_text_or_raw_bytes_witness :
  fst (trans (u "FREQ?") (connected [Data (b " 1000.0 " ++ [x0d; x0a])] []))
    = Return (inl (u " 1000.0")) /\
  (exists (sk : socket) (sent_bytes data : bytes),
     _sock (connected [Data [xff; xfe]] []) = Some sk /\
     utf8_encode (terminated (u "ARB1?")) = Some sent_bytes /\
     fst (sendall sent_bytes sk) = None /\
     fst (read (with_sock (snd (sendall sent_bytes sk)) (connected [Data [xff; xfe]] [])))
       = Return data /\
     [xff; xfe] = data /\ utf8_decode data = None).
Proof.
  split; [vm_compute; reflexivity|].
  exact (trans_returns_stripped_text_or_raw_bytes
           (connected [Data [xff; xfe]] []) (u "ARB1?") (inr [xff; xfe]) eq_refl).
Defined.

End TransportReplies.

Section SilentPeer.
Import Devif.







End SilentPeer.

(** ** More on the ARB data block *)

Section ArbBlockMore.
Import AimTti.

#[local] Instance is_point_dec (z : Z) : Decision (is_point z).
Proof. unfold is_point. apply _. Defined.

Lemma to_bytes_overflow (z : Z) : ~ is_point z -> to_bytes 2 z = Raise OverflowError.
Proof.
  unfold is_point, to_bytes. intros Hz.
  change (256 ^ Z.of_nat 2)%Z with 65536%Z. cbv zeta.
  destruct (Z.leb_spec (- (65536)) (2 * z)) as [Hlow|Hlow]; [|reflexivity].
  rewrite (proj2 (Z.ltb_ge (2 * z) 65536)) by lia. reflexivity.
Qed.

Lemma bytes_of_array_overflow (numbers : list Z) :
  ~ Forall is_point numbers ->
  forall byte_string, bytes_of_array numbers byte_string = Raise OverflowError.
Proof.
  induction numbers as [|z numbers IH]; intros Hbad byte_string.
  - exfalso. apply Hbad. constructor.
  - cbn [bytes_of_array].
    destruct (Z_le_dec (-32768) z) as [Hlow|Hlow];
      [destruct (Z_le_dec z 32767) as [Hhigh|Hhigh]|];
      try (rewrite to_bytes_overflow by (unfold is_point; lia); reflexivity).
    rewrite to_bytes_point by (unfold is_point; lia).
    apply IH. intros Hrest. apply Hbad. constructor; [unfold is_point; lia|exact Hrest].
Qed.

(** The [string] property and [array_as_bytes] raise [OverflowError] when
    the array holds a number that does not fit in two bytes, and only then. *)
Theorem string_overflows_exactly_on_a_number_out_of_range (self : ArbData) :
  (Forall is_point (array self) <->
   exists block, string_ self = Return block) /\
  (~ Forall is_point (array self) <->
   string_ self = Raise OverflowError) /\
  (~ Forall is_point (array self) <->
   array_as_bytes self = Raise OverflowError).
Proof.
  assert (Hgood : Forall is_point (array self) ->
                  array_as_bytes self = Return (payload (array self))).
  { intros H. unfold array_as_bytes. exact (bytes_of_array_points _ H []). }
  assert (Hbad : ~ Forall is_point (array self) ->
                 array_as_bytes self = Raise OverflowError).
  { intros H. unfold array_as_bytes. exact (bytes_of_array_overflow _ H []). }
  assert (Hdec : Forall is_point (array self) \/ ~ Forall is_point (array self)).
  { destruct (decide (Forall is_point (array self))); [left|right]; assumption. }
  unfold string_. split; [|split].
  - split.
    + intros H. rewrite (Hgood H). eauto.
    + intros [block Hblock]. destruct Hdec as [H|H]; [exact H|].
      rewrite (Hbad H) in Hblock. discriminate.
  - split.
    + intros H. rewrite (Hbad H). reflexivity.
    + intros Hraise H. rewrite (Hgood H) in Hraise. discriminate.
  - split; [exact Hbad|]. intros Hraise H. rewrite (Hgood H) in Hraise. discriminate.
Qed.

(** The block of an array of fewer than 500,000,000 points: "#", one
    digit that counts the digits of the length, the length of the payload
    in decimal, and the payload of two bytes a point. *)
Theorem string_is_a_definite_length_block (self : ArbData) :
  Forall is_point (array self) ->
  (Z.of_nat (length (array self)) < 500000000)%Z ->
  exists (k : N) (digits : str),
    string_ self = Return (u "#" ++ [48 + k] ++ digits ++ latin1_decode (payload (array self))) /\
    1 <= k <= 9 /\ N.of_nat (length digits) = k /\
    Forall (fun c => is_decimal_digit c = true) digits /\
    decimal_value digits = N.of_nat (2 * length (array self)) /\
    length (payload (array self)) = (2 * length (array self))%nat.
Proof.
  intros Hpoints Hlen.
  assert (Hn : N.of_nat (length (payload (array self))) < 10 ^ 9).
  { rewrite payload_length. change (10 ^ 9) with 1000000000. lia. }
  destruct (header_one_digit _ Hn) as (k & Hk & Hrange & Hheader & _).
  exists k, (str_of_N (N.of_nat (length (payload (array self))))).
  split; [|split; [exact Hrange|split; [lia|split; [|split]]]].
  - replace self with (set_array (array self) self) at 1 by (destruct self; reflexivity).
    rewrite (string_of_points _ self Hpoints), Hheader. reflexivity.
  - eapply Forall_impl; [apply digits_of_chars|]. intros c Hc. simpl in Hc.
    unfold is_decimal_digit. apply andb_true_iff. split; apply N.leb_le; lia.
  - rewrite str_of_N_value, payload_length. reflexivity.
  - apply payload_length.
Qed.

Lemma string_is_a_definite_length_block_witness :
  string_ (set_array [1; -1; 300]%Z ArbData_init)
    = Return (u "#16" ++ latin1_decode [x00; x01; xff; xff; x01; x2c]).
Proof.
  destruct (string_is_a_definite_length_block (set_array [1; -1; 300]%Z ArbData_init))
    as (k & digits & Hblock & _).
  - repeat constructor; discriminate.
  - reflexivity.
  - vm_compute. reflexivity.
Defined.

Lemma pair_ind {A : Type} (P : list A -> Prop) :
  P [] -> (forall x, P [x]) -> (forall x y l, P l -> P (x :: y :: l)) ->
  forall l, P l.
Proof.
  intros Hnil Hone Hstep l.
  assert (H : P l /\ forall x, P (x :: l)); [|exact (proj1 H)].
  induction l as [|y l [IH1 IH2]]; [split; [exact Hnil|exact Hone]|].
  split; [apply IH2|]. intros x. apply Hstep. exact IH1.
Qed.

(** The numbers of the complete pairs of bytes of a byte string. *)
Fixpoint pair_values (data : bytes) : list Z :=
  match data with
  | x :: y :: rest => from_bytes [x; y] :: pair_values rest
  | _ => []
  end.

Lemma pair_values_short (data : bytes) : (length data < 2)%nat -> pair_values data = [].
Proof. destruct data as [|x [|y rest]]; simpl; intros H; [reflexivity..|lia]. Qed.

(** The loop of [array_from_bytes] reads pair after pair. *)
Lemma numbers_from_pairs (n : nat) :
  forall (k : nat) (pre data : bytes),
  length pre = (k * 2)%nat -> n = (length data / 2)%nat ->
  (fun index => from_bytes (slice (index * 2) (index * 2 + 2) (pre ++ data)))
    <$> seq k n = pair_values data.
Proof.
  induction n as [|n IH]; intros k pre data Hpre Hn.
  - rewrite pair_values_short; [reflexivity|].
    destruct (Nat.lt_ge_cases (length data) 2) as [?|Hge]; [assumption|].
    pose proof (Nat.div_str_pos (length data) 2 ltac:(lia)). lia.
  - assert (Hlong : (2 <= length data)%nat).
    { destruct (Nat.lt_ge_cases (length data) 2) as [Hlt|?]; [|assumption].
      rewrite Nat.div_small in Hn by exact Hlt. discriminate. }
    destruct data as [|x [|y rest]]; simpl in Hlong; try lia.
    cbn [seq fmap list_fmap pair_values]. f_equal.
    + unfold slice. rewrite <- Hpre, drop_app_length.
      replace (length pre + 2 - length pre)%nat with 2%nat by lia. reflexivity.
    + change (pre ++ x :: y :: rest) with (pre ++ [x; y] ++ rest). rewrite app_assoc.
      apply IH.
      * rewrite length_app. simpl. lia.
      * change (length (x :: y :: rest)) with (2 + length rest)%nat in Hn.
        replace (2 + length rest)%nat with (length rest + 1 * 2)%nat in Hn by lia.
        rewrite Nat.div_add in Hn by lia. lia.
Qed.

Lemma numbers_of_bytes_pairs (data : bytes) : numbers_of_bytes data = pair_values data.
Proof.
  unfold numbers_of_bytes. exact (numbers_from_pairs _ 0 [] data eq_refl eq_refl).
Qed.

Lemma byte_of_to_N (x : byte) : byte_of_N (Byte.to_N x) = x.
Proof. unfold byte_of_N. rewrite Byte.of_to_N. reflexivity. Qed.

(** Two bytes read as a number are a point, whose two bytes they are. *)
Lemma from_bytes_pair (x y : byte) :
  is_point (from_bytes [x; y]) /\ two_bytes (from_bytes [x; y]) = [x; y].
Proof.
  unfold is_point, from_bytes, two_bytes.
  cbn [big_endian length fold_left].
  change (256 ^ Z.of_nat 1)%Z with 256%Z. change (256 ^ Z.of_nat 0)%Z with 1%Z.
  change (256 ^ Z.of_nat 2)%Z with 65536%Z.
  pose proof (Byte.to_N_bounded x) as Hx. pose proof (Byte.to_N_bounded y) as Hy.
  set (hi := Z.of_N (Byte.to_N x)). set (lo := Z.of_N (Byte.to_N y)).
  assert (Hhi : (0 <= hi < 256)%Z) by (subst hi; lia).
  assert (Hlo : (0 <= lo < 256)%Z) by (subst lo; lia).
  replace ((0 * 256 + hi) * 256 + lo)%Z with (hi * 256 + lo)%Z by lia.
  set (v := (hi * 256 + lo)%Z).
  assert (Hmod : ((if (65536 <=? 2 * v)%Z then (v - 65536)%Z else v) mod 65536 = v)%Z).
  { destruct (Z.leb_spec 65536 (2 * v)).
    - replace (v - 65536)%Z with (v + (-1) * 65536)%Z by lia.
      rewrite Z.mod_add by lia. apply Z.mod_small. subst v. lia.
    - apply Z.mod_small. subst v. lia. }
  split.
  - destruct (Z.leb_spec 65536 (2 * v)); subst v; lia.
  - rewrite Hmod. rewrite Z.div_1_r.
    assert (Hq : (v / 256 = hi)%Z).
    { subst v. rewrite Z.div_add_l by lia. rewrite Z.div_small by lia. lia. }
    assert (Hr : (v mod 256 = lo)%Z).
    { subst v. rewrite Z.add_comm, Z.mod_add by lia. apply Z.mod_small. lia. }
    rewrite Hq, Hr. rewrite (Z.mod_small hi 256) by lia.
    subst hi lo. rewrite !N2Z.id, !byte_of_to_N. reflexivity.
Qed.

Lemma pair_values_spec (data : bytes) :
  Forall is_point (pair_values data) /\
  payload (pair_values data) = take (2 * (length data / 2)) data /\
  length (pair_values data) = (length data / 2)%nat.
Proof.
  induction data as [| x | x y rest (IH1 & IH2 & IH3)] using pair_ind.
  - repeat split. constructor.
  - repeat split. constructor.
  - destruct (from_bytes_pair x y) as [Hpoint Hbytes].
    change (length (x :: y :: rest)) with (2 + length rest)%nat.
    replace (2 + length rest)%nat with (length rest + 1 * 2)%nat by lia.
    rewrite Nat.div_add by lia.
    cbn [pair_values payload length]. rewrite Hbytes, IH2, IH3.
    split; [constructor; assumption|]. split; [|lia].
    replace (2 * (length rest / 2 + 1))%nat with (S (S (2 * (length rest / 2)))) by lia.
    reflexivity.
Qed.

Lemma latin1_encode_large (s : str) :
  Exists (fun c => 256 <= c) s -> latin1_encode s = None.
Proof.
  induction 1 as [c s Hc|c s _ IH]; simpl.
  - rewrite (proj2 (Byte.of_N_None_iff c)) by lia. reflexivity.
  - rewrite IH. destruct (Byte.of_N c); reflexivity.
Qed.

(** [array_from_bytes] by what it is given. A [str] of code points below
    256 is read through its latin1 bytes: every complete pair is a point,
    a last byte without a partner is dropped, and [array_as_bytes] of the
    result gives the bytes read again. A [str] with a code point from 256 on
    raises [UnicodeError], and a [bytes] object, for all the name of the
    method, [UnboundLocalError]; both leave the array as it was. *)
Theorem array_from_bytes_then_array_as_bytes (self : ArbData) :
  (forall text : str,
     Forall (fun c => c < 256) text ->
     exists encoded : bytes,
       latin1_decode encoded = text /\
       let after := ArbValues.array_from_bytes_of (inl text) self in
       fst after = Return tt /\
       Forall is_point (array (snd after)) /\
       length (array (snd after)) = (length text / 2)%nat /\
       array_as_bytes (snd after) = Return (take (2 * (length text / 2)) encoded)) /\
  (forall text : str,
     Exists (fun c => 256 <= c) text ->
     ArbValues.array_from_bytes_of (inl text) self = (Raise UnicodeError, self)) /\
  (forall raw : bytes,
     ArbValues.array_from_bytes_of (inr raw) self = (Raise UnboundLocalError, self)).
Proof.
  split; [|split].
  - intros text Hsmall. destruct (latin1_encode_small text Hsmall) as [encoded Hencoded].
    exists encoded. split; [exact (latin1_decode_encode _ _ Hencoded)|].
    unfold ArbValues.array_from_bytes_of, array_from_bytes. rewrite Hencoded.
    cbn [fst snd array set_array]. rewrite numbers_of_bytes_pairs.
    destruct (pair_values_spec encoded) as (Hpoints & Hpayload & Hlen).
    rewrite <- (latin1_encode_length _ _ Hencoded).
    split; [reflexivity|]. split; [exact Hpoints|]. split; [exact Hlen|].
    unfold array_as_bytes. cbn [array set_array].
    rewrite (bytes_of_array_points _ Hpoints []). rewrite Hpayload. reflexivity.
  - intros text Hlarge. unfold ArbValues.array_from_bytes_of, array_from_bytes.
    rewrite (latin1_encode_large text Hlarge). reflexivity.
  - reflexivity.
Qed.

Lemma array_from_bytes_then_array_as_bytes_witness :
  (exists encoded : bytes,
     latin1_decode encoded = [0; 1; 255; 254; 7] /\
     array_as_bytes (snd (ArbValues.array_from_bytes_of (inl [0; 1; 255; 254; 7]) ArbData_init))
       = Return (take 4 encoded)) /\
  ArbValues.array_from_bytes_of (inl [48; 8364]) ArbData_init
    = (Raise UnicodeError, ArbData_init).
Proof.
  split.
  - destruct (proj1 (array_from_bytes_then_array_as_bytes ArbData_init) [0; 1; 255; 254; 7])
      as (encoded & Hdecoded & _ & _ & _ & Hbytes).
    + repeat (constructor; [lia|]). constructor.
    + exists encoded. split; [exact Hdecoded|exact Hbytes].
  - apply (proj1 (proj2 (array_from_bytes_then_array_as_bytes ArbData_init))).
    right. left. lia.
Defined.

End ArbBlockMore.

(** ** The other response parsers of tgf4000.py *)

Section OtherParsers.
Import AimTti Tgf4000 Parsers.

(** The fields a parser returned. *)
Definition fields_of {A : Type} (p : parsed A) : list A :=
  match p with
  | Single x => [x]
  | Tuple xs => xs
  end.

Lemma unpack_response_fields (x : byte) (rest : bytes) :
  exists fields : list str,
    unpack_response (x :: rest) = Some fields /\
    join (u ", ") fields
      = filter (fun c => c <> CR /\ c <> LF) (latin1_decode (x :: rest)) /\
    Forall (fun f => ~ occurs (u ", ") f) fields /\ fields <> [].
Proof.
  eexists. split; [unfold unpack_response; simpl length; cbv iota beta; reflexivity|].
  rewrite remove_line_ends. set (text := filter _ _).
  change (u ", ") with (44 :: [32]).
  destruct (split_spec 44 [32] text) as [Hjoin Hfree].
  split; [exact Hjoin|]. split; [exact Hfree|apply split_not_nil].
Qed.

(** [parse_strings] raises [TypeError] on the empty reply and on no other:
    from any other reply it returns fields that, joined by ", ", are the
    reply without its carriage returns and line feeds; it returns a single
    string exactly when that text holds no ", ". *)
Theorem parse_strings_keeps_the_text (x : byte) (rest : bytes) :
  parse_strings [] = Raise TypeError /\
  exists p : parsed str,
    let text := filter (fun c => c <> CR /\ c <> LF) (latin1_decode (x :: rest)) in
    parse_strings (x :: rest) = Return p /\
    join (u ", ") (fields_of p) = text /\
    match p with
    | Single f => f = text /\ ~ occurs (u ", ") text
    | Tuple fs => (2 <= length fs)%nat /\ occurs (u ", ") text
    end.
Proof.
  split; [reflexivity|].
  destruct (unpack_response_fields x rest) as (fields & Hunpack & Hjoin & Hfree & Hne).
  cbv zeta. unfold parse_strings. rewrite Hunpack.
  set (text := filter _ _) in *.
  destruct fields as [|f [|g fields]]; [contradiction| |].
  - eexists. split; [reflexivity|]. split; [exact Hjoin|].
    simpl in Hjoin. subst f. split; [reflexivity|].
    inversion Hfree; subst. assumption.
  - eexists. split; [reflexivity|]. split; [exact Hjoin|]. split; [simpl; lia|].
    rewrite <- Hjoin. exists f, (join (u ", ") (g :: fields)).
    rewrite join_cons by discriminate. reflexivity.
Qed.

(** The number of times a character occurs in a string. *)
Definition count_char (c : N) (s : str) : nat := length (filter (fun x => x = c) s).

Lemma count_char_absent (c : N) (s : str) : c ∉ s -> count_char c s = 0%nat.
Proof.
  unfold count_char. induction s as [|x s IH]; intros Hc; [reflexivity|].
  apply not_elem_of_cons in Hc as [Hx Hc].
  rewrite filter_cons_False by congruence. apply IH. exact Hc.
Qed.

Lemma count_char_app (c : N) (s t : str) :
  count_char c (s ++ t) = (count_char c s + count_char c t)%nat.
Proof. unfold count_char. rewrite filter_app, length_app. reflexivity. Qed.

Lemma count_char_remove (c d : N) (s : str) :
  c <> d -> count_char c (remove_char d s) = count_char c s.
Proof.
  intros Hcd. unfold count_char, remove_char.
  induction s as [|x s IH]; [reflexivity|].
  destruct (decide (x = d)) as [->|Hxd].
  - rewrite (filter_cons_False (fun x => x <> d)) by tauto.
    rewrite (filter_cons_False (fun x => x = c)) by congruence. exact IH.
  - rewrite (filter_cons_True (fun x => x <> d)) by exact Hxd.
    destruct (decide (x = c)) as [->|Hxc].
    + rewrite !(filter_cons_True (fun x => x = c)) by reflexivity. simpl. f_equal. exact IH.
    + rewrite !(filter_cons_False (fun x => x = c)) by exact Hxc. exact IH.
Qed.

Lemma not_occurs_char (c : N) (s : str) : ~ occurs [c] s -> c ∉ s.
Proof.
  intros Hno Hin. apply Hno. apply list_elem_of_split in Hin as (pre & post & ->).
  exists pre, post. reflexivity.
Qed.

(** Cut at a character, a string gives one field more than it holds that
    character. *)
Lemma split_char_length (c : N) (s : str) :
  length (split [c] s) = S (count_char c s).
Proof.
  remember (length s) as n eqn:Hn. revert s Hn.
  induction n as [n IH] using lt_wf_ind. intros s ->.
  rewrite split_step. destruct (partition [c] s) as [[before after]|] eqn:E.
  - pose proof (partition_Some _ _ _ _ E) as Hs.
    pose proof (partition_before _ _ _ _ _ E) as Hb.
    apply partition_None, not_occurs_char in Hb.
    cbn [length].
    rewrite (IH (length after) (partition_shorter c [] s before after E) after eq_refl).
    rewrite Hs, !count_char_app, (count_char_absent c before Hb).
    assert (Hone : count_char c [c] = 1%nat).
    { unfold count_char. rewrite filter_cons_True by reflexivity. reflexivity. }
    rewrite Hone. lia.
  - apply partition_None, not_occurs_char in E.
    rewrite (count_char_absent c s E). reflexivity.
Qed.

(** [parse_arb_data] never returns: a command string with exactly one
    blank gets as far as the missing [init_from_file], any other fails to
    unpack into a command and a file name. *)
Theorem parse_arb_data_always_raises (cmd_string : str) :
  parse_arb_data cmd_string =
    Raise (if (count_char 32 cmd_string =? 1)%nat then AttributeError else ValueError).
Proof.
  unfold parse_arb_data. change (u " ") with [32].
  pose proof (split_char_length 32 cmd_string) as Hlen.
  destruct (split [32] cmd_string) as [|f0 [|f1 [|f2 fields]]]; simpl in Hlen;
    try discriminate.
  - injection Hlen as <-. reflexivity.
  - injection Hlen as <-. reflexivity.
  - injection Hlen as <-. reflexivity.
Qed.

Lemma remove_blanks_and_line_ends (s : str) :
  remove_char LF (remove_char CR (remove_char 32 s))
    = filter (fun c => c <> 32 /\ c <> CR /\ c <> LF) s.
Proof.
  rewrite remove_line_ends. unfold remove_char.
  induction s as [|x s IH]; [reflexivity|].
  destruct (decide (x = 32)) as [->|H32].
  - rewrite (filter_cons_False (fun x => x <> 32)) by tauto.
    rewrite (filter_cons_False (fun c => c <> 32 /\ c <> CR /\ c <> LF)) by tauto.
    exact IH.
  - rewrite (filter_cons_True (fun x => x <> 32)) by exact H32.
    destruct (decide (x <> CR /\ x <> LF)) as [Hle|Hle].
    + rewrite (filter_cons_True (fun x => x <> CR /\ x <> LF)) by exact Hle.
      rewrite (filter_cons_True (fun c => c <> 32 /\ c <> CR /\ c <> LF)) by tauto.
      f_equal. exact IH.
    + rewrite (filter_cons_False (fun x => x <> CR /\ x <> LF)) by exact Hle.
      rewrite (filter_cons_False (fun c => c <> 32 /\ c <> CR /\ c <> LF)) by tauto.
      exact IH.
Qed.

(** [parse_arb_def]: [None] for the empty reply; [IndexError] for a reply
    with fewer than two commas; and for a reply that, blanks and line ends
    apart, is a name, an interpolation state and a decimal length separated
    by commas, the length of no more digits than [int] accepts, those
    three, whatever follows them. *)
Theorem parse_arb_def_reads_three_fields (x : byte) (rest : bytes) :
  parse_arb_def [] = Return None /\
  ((count_char 44 (latin1_decode (x :: rest)) < 2)%nat ->
   parse_arb_def (x :: rest) = Raise IndexError) /\
  (forall (name interpolation len : str) (more : list str),
     filter (fun c => c <> 32 /\ c <> CR /\ c <> LF) (latin1_decode (x :: rest))
       = join (u ",") (name :: interpolation :: len :: more) ->
     Forall (fun f => 44 ∉ f) (name :: interpolation :: len :: more) ->
     is_numeral len = true ->
     (length (numeral_digits len) <= max_str_digits)%nat ->
     parse_arb_def (x :: rest) = Return (Some (name, interpolation, numeral_value len))).
Proof.
  split; [reflexivity|]. unfold parse_arb_def.
  change (length (x :: rest) =? 0)%nat with false. cbv iota zeta.
  change (u ",") with [44]. split.
  - intros Hcount.
    pose proof (split_char_length 44
                  (remove_char LF (remove_char CR (remove_char 32 (latin1_decode (x :: rest))))))
      as Hlen.
    rewrite !count_char_remove in Hlen by discriminate.
    destruct (split [44] _) as [|f0 [|f1 [|f2 fields]]]; cbn [length] in Hlen;
      try reflexivity; lia.
  - intros name interpolation len more Htext Hfree Hnum Hfew.
    rewrite remove_blanks_and_line_ends, Htext.
    rewrite split_join by exact Hfree. cbn [lookup list_lookup].
    rewrite (py_int_numeral len Hnum Hfew). reflexivity.
Qed.

Lemma parse_arb_def_reads_three_fields_witness :
  parse_arb_def (b "RAMP1, ON, 1024" ++ [x0d; x0a])
    = Return (Some (u "RAMP1", u "ON", 1024%Z)) /\
  parse_arb_def (b "RAMP1, ON") = Raise IndexError.
Proof.
  split.
  - refine (proj2 (proj2 (parse_arb_def_reads_three_fields _ _))
              (u "RAMP1") (u "ON") (u "1024") [] _ _ _ _).
    + vm_compute. reflexivity.
    + repeat (constructor;
              [intros H; apply list_elem_of_In in H; simpl in H; intuition discriminate|]).
      constructor.
    + reflexivity.
    + simpl. unfold max_str_digits. lia.
  - refine (proj1 (proj2 (parse_arb_def_reads_three_fields _ _)) _).
    vm_compute. lia.
Defined.

Lemma find_none {A : Type} (f : A -> bool) (l : list A) :
  Forall (fun x => f x = false) l -> find f l = None.
Proof. induction 1 as [|x l Hx _ IH]; [reflexivity|]. simpl. rewrite Hx. exact IH. Qed.

Lemma outside_decade (zero c : N) :
  c < zero \/ zero + 10 <= c -> (zero <=? c) && (c <? zero + 10) = false.
Proof.
  intros [H|H].
  - rewrite (proj2 (N.leb_gt zero c) H). reflexivity.
  - rewrite (proj2 (N.ltb_ge c (zero + 10)) H). apply andb_false_r.
Qed.

(** No code point from 127 to 255 is a decimal digit. *)
Lemma unicode_decimal_latin1 (c : N) : 127 <= c < 256 -> unicode_decimal c = None.
Proof.
  intros Hc. unfold unicode_decimal. rewrite find_none; [reflexivity|].
  unfold decimal_zeros. repeat (constructor; [apply outside_decade; lia|]). constructor.
Qed.

(** [int] of a single character of a latin1 text: a decimal digit or
    nothing. *)
Lemma py_int_single (c : N) :
  c < 256 ->
  py_int 10 [c] = if is_decimal_digit c then Some (Z.of_N (c - 48)) else None.
Proof.
  intros Hlatin1. destruct (is_decimal_digit c) eqn:Hdigit.
  - assert (Hnum : is_numeral [c] = true).
    { destruct (decimal_digit_value c Hdigit) as (_ & _ & _).
      unfold is_numeral, numeral_digits.
      unfold is_decimal_digit in Hdigit. apply andb_true_iff in Hdigit as [H1 H2].
      apply N.leb_le in H1, H2.
      rewrite (proj2 (N.eqb_neq c 45)), (proj2 (N.eqb_neq c 43)) by lia.
      simpl. unfold is_decimal_digit.
      rewrite (proj2 (N.leb_le 48 c)), (proj2 (N.leb_le c 57)) by lia. reflexivity. }
    assert (Hfew : (length (numeral_digits [c]) <= max_str_digits)%nat).
    { unfold numeral_digits, max_str_digits. destruct ((c =? 45) || (c =? 43)); simpl; lia. }
    rewrite (py_int_numeral [c] Hnum Hfew). unfold numeral_value, numeral_digits.
    unfold is_decimal_digit in Hdigit. apply andb_true_iff in Hdigit as [H1 H2].
    apply N.leb_le in H1, H2.
    rewrite (proj2 (N.eqb_neq c 45)), (proj2 (N.eqb_neq c 43)) by lia.
    simpl. reflexivity.
  - unfold py_int. cbn [to_ascii]. unfold to_ascii_char.
    destruct (N.ltb_spec c 127) as [Hascii|Hhigh].
    + unfold between_spaces. cbn [skip_spaces].
      destruct (is_ascii_space c) eqn:Hspace; [reflexivity|].
      cbn [rev app skip_spaces]. rewrite Hspace. cbn [rev app].
      destruct (N.eqb_spec c 45); [reflexivity|].
      destruct (N.eqb_spec c 43); [reflexivity|].
      unfold int_magnitude. rewrite skip_prefix_decimal.
      destruct (N.eqb_spec c 95); [reflexivity|].
      change (too_many_digits 10 [c]) with
        (negb (is_power_of_two 10) && (max_str_digits <? length (remove_char 95 [c]))%nat).
      unfold remove_char. rewrite filter_cons_True by assumption.
      cbn [filter list_filter length]. unfold max_str_digits. cbn [negb is_power_of_two andb].
      change ((4300 <? 1)%nat) with false. cbn [andb].
      cbn [scan_digits]. rewrite (proj2 (N.eqb_neq c 95)) by assumption.
      unfold digit_value. fold (is_decimal_digit c). rewrite Hdigit.
      destruct ((97 <=? c) && (c <=? 122)) eqn:Hlower.
      * apply andb_true_iff in Hlower as [H1 H2]. apply N.leb_le in H1, H2.
        rewrite (proj2 (N.ltb_ge (c - 87) 10)) by lia. reflexivity.
      * destruct ((65 <=? c) && (c <=? 90)) eqn:Hupper; [|reflexivity].
        apply andb_true_iff in Hupper as [H1 H2]. apply N.leb_le in H1, H2.
        rewrite (proj2 (N.ltb_ge (c - 55) 10)) by lia. reflexivity.
    + destruct (is_space c); [reflexivity|].
      rewrite unicode_decimal_latin1 by lia. reflexivity.
Qed.

Lemma byte_is_latin1 (x : byte) : Byte.to_N x < 256.
Proof. pose proof (Byte.to_N_bounded x). lia. Qed.

Lemma latin1_encode_drop (n : nat) (data : bytes) :
  latin1_encode (drop n (latin1_decode data)) = Some (drop n data).
Proof. unfold latin1_decode. rewrite <- fmap_drop. apply latin1_encode_decode. Qed.

(** [parse_arb_data_response] never returns. It raises [IndexError] for a
    reply of fewer than two bytes, [ValueError] when the second byte is no
    decimal digit, and otherwise gets to its last line, which calls [decode]
    on a [str] and raises [AttributeError]. *)
Theorem parse_arb_data_response_always_raises (response : bytes) :
  parse_arb_data_response response =
    Raise (match response !! 1%nat with
           | None => IndexError
           | Some digit =>
             if is_decimal_digit (Byte.to_N digit) then AttributeError else ValueError
           end).
Proof.
  unfold parse_arb_data_response, init_from_bytestring.
  unfold latin1_decode at 1. rewrite list_lookup_fmap.
  destruct (response !! 1%nat) as [digit|]; [|reflexivity].
  cbn [fmap option_fmap option_map]. rewrite py_int_single by apply byte_is_latin1.
  destruct (is_decimal_digit (Byte.to_N digit)); [|reflexivity].
  unfold slice_from.
  rewrite (proj2 (Z.leb_le 0 (2 + Z.of_N (Byte.to_N digit - 48)))) by lia.
  unfold array_from_bytes. rewrite latin1_encode_drop.
  rewrite numbers_of_bytes_pairs.
  destruct (pair_values_spec (drop (Z.to_nat (2 + Z.of_N (Byte.to_N digit - 48))) response))
    as (Hpoints & _).
  unfold string_, array_as_bytes. cbn [array set_array].
  rewrite (bytes_of_array_points _ Hpoints []). reflexivity.
Qed.

End OtherParsers.

(** ** The simulator: the remaining setters, and the selected channel *)

Section SimulatorChannels.
Import Tgf4000 SimulatorMore.

(** The nine setters that store at the index of the selected channel. *)
Inductive indexed : Type :=
| IWaveformType | IAmplitude | IDcOffset | IDutyCycle | IFrequency | IOutputStatus
| ICounterStatus | ICounterSource | ICounterType.

Definition set_ (a : indexed) : value -> Tgf4000Simulator -> result unit * Tgf4000Simulator :=
  match a with
  | IWaveformType => set_waveform_type
  | IAmplitude => set_amplitude
  | IDcOffset => set_dc_offset
  | IDutyCycle => set_duty_cycle
  | IFrequency => set_frequency
  | IOutputStatus => set_output_status
  | ICounterStatus => set_counter_status
  | ICounterSource => set_counter_source
  | ICounterType => set_counter_type
  end.

Definition get_ (a : indexed) : Tgf4000Simulator -> result value :=
  match a with
  | IWaveformType => get_waveform_type
  | IAmplitude => get_amplitude
  | IDcOffset => get_dc_offset
  | IDutyCycle => get_duty_cycle
  | IFrequency => get_frequency
  | IOutputStatus => get_output_status
  | ICounterStatus => get_counter_status
  | ICounterSource => get_counter_source
  | ICounterType => get_counter_type
  end.

Definition held (a : indexed) : Tgf4000Simulator -> value :=
  match a with
  | IWaveformType => waveform_type
  | IAmplitude => amplitude
  | IDcOffset => dc_offset
  | IDutyCycle => duty_cycle
  | IFrequency => frequency
  | IOutputStatus => output_status
  | ICounterStatus => counter_status
  | ICounterSource => counter_source
  | ICounterType => counter_type
  end.

(** Each of the nine attributes is a list of one item per channel. *)
Definition one_item_per_channel (s : Tgf4000Simulator) : Prop :=
  forall a, exists x1 x2, held a s = VList [x1; x2].

Lemma new_simulator_one_item_per_channel settings device_id s :
  Tgf4000Simulator_init settings device_id = Return s -> one_item_per_channel s.
Proof.
  unfold Tgf4000Simulator_init.
  destruct (Devif.Tgf4000EthernetInterface_init _ _ _ _ _); [|discriminate].
  intros [= <-] []; simpl; eauto.
Qed.

Ltac unfold_accessors :=
  unfold set_, get_, set_waveform_type, set_amplitude, set_dc_offset, set_duty_cycle,
    set_frequency, set_output_status, set_counter_status, set_counter_source,
    set_counter_type, get_waveform_type, get_amplitude, get_dc_offset, get_duty_cycle,
    get_frequency, get_output_status, get_counter_status, get_counter_source,
    get_counter_type, store, fetch.

(** The setters keep the shape, so that the lemmas below apply call after call. *)
Lemma set_keeps_one_item_per_channel (a : indexed) (v : value) (s : Tgf4000Simulator) :
  one_item_per_channel s -> one_item_per_channel (snd (set_ a v s)).
Proof.
  intros Hshape a'. destruct (Hshape a) as (x1 & x2 & Ha).
  destruct (Hshape a') as (y1 & y2 & Ha').
  destruct a; simpl in Ha; unfold_accessors; rewrite Ha; unfold setitem;
    cbn [length];
    (destruct (position 2 (get_channel s - 1)) as [[|[|k]]|]; cbn [snd];
     destruct a'; simpl in *; eauto).
Qed.

Lemma position_outside (len : nat) (i : Z) :
  (i < - Z.of_nat len \/ Z.of_nat len <= i)%Z -> position len i = None.
Proof.
  intros Hi. unfold position.
  destruct (Z.leb_spec 0 i), (Z.ltb_spec i (Z.of_nat len)); simpl; try lia;
    destruct (Z.leb_spec (- Z.of_nat len) i), (Z.ltb_spec i 0); simpl; try lia;
    reflexivity.
Qed.

(** Which item the selected channel stands for. Channels 1 and 2 have
    their own; channel -1, the one a new simulator starts with, shares the
    item of channel 1 and channel 0 that of channel 2, as Python counts a
    negative index from the end; with any other channel every setter and
    getter raises [IndexError], and the setter leaves the simulator as it
    was. *)
Theorem selected_channel_index_wraps (a : indexed) (s : Tgf4000Simulator) (c : Z)
    (v : value) :
  one_item_per_channel s ->
  let selected := set_channel c s in
  let after := snd (set_ a v selected) in
  ((c = 1 \/ c = -1)%Z ->
   fst (set_ a v selected) = Return tt /\
   get_ a (set_channel 1 after) = Return v /\
   get_ a (set_channel 2 after) = get_ a (set_channel 2 s)) /\
  ((c = 2 \/ c = 0)%Z ->
   fst (set_ a v selected) = Return tt /\
   get_ a (set_channel 2 after) = Return v /\
   get_ a (set_channel 1 after) = get_ a (set_channel 1 s)) /\
  ((c < -1 \/ 2 < c)%Z ->
   set_ a v selected = (Raise IndexError, selected) /\
   get_ a selected = Raise IndexError).
Proof.
  intros Hshape selected after. subst after selected.
  destruct (Hshape a) as (x1 & x2 & Ha).
  split; [|split].
  - intros Hc. destruct a; simpl in Ha; unfold_accessors; simpl; rewrite Ha;
      destruct Hc as [-> | ->]; simpl; auto.
  - intros Hc. destruct a; simpl in Ha; unfold_accessors; simpl; rewrite Ha;
      destruct Hc as [-> | ->]; simpl; auto.
  - intros Hc.
    assert (Hout : position 2 (c - 1) = None) by (apply position_outside; simpl; lia).
    destruct a; simpl in Ha; unfold_accessors; unfold setitem, getitem, get_channel;
      cbn [channel set_channel waveform_type amplitude dc_offset duty_cycle frequency
           output_status counter_status counter_source counter_type];
      rewrite Ha; cbn [length]; rewrite Hout; auto.
Qed.

Lemma selected_channel_index_wraps_witness :
  let settings : Devif.Settings :=
    {[ "TGF4000"%string := Devif.mk_entry (Some "awg"%string) (Some 9221%Z) ]} in
  exists s : Tgf4000Simulator,
    Tgf4000Simulator_init settings (Some "TGF4000"%string) = Return s /\
    get_ IAmplitude (set_channel 1 (snd (set_ IAmplitude (VFloat 2) s))) = Return (VFloat 2) /\
    set_ IFrequency (VFloat 1000) (set_channel 3 s)
      = (Raise IndexError, set_channel 3 s).
Proof.
  intros settings. eexists. split; [vm_compute; reflexivity|].
  match goal with
  | |- get_ _ (set_channel 1 (snd (set_ _ _ ?s))) = _ /\ _ =>
    assert (Hshape : one_item_per_channel s)
      by (apply (new_simulator_one_item_per_channel settings (Some "TGF4000"%string));
          vm_compute; reflexivity);
    pose proof (selected_channel_index_wraps IAmplitude s (-1) (VFloat 2) Hshape) as H1;
    pose proof (selected_channel_index_wraps IFrequency s 3 (VFloat 1000) Hshape) as H3
  end.
  split.
  - exact (proj1 (proj2 (proj1 H1 (or_intror eq_refl)))).
  - exact (proj1 (proj2 (proj2 H3) (or_intror eq_refl))).
Defined.

End SimulatorChannels.

(** ** Connecting and disconnecting: tgf4000_devif.py *)

Section Connecting.
Import Devif Connection.

Variable query : str -> Tgf4000EthernetInterface ->
                 result (str + bytes) * Tgf4000EthernetInterface.
Variable is_device_error : exception -> bool.

(** [disconnect] either returns, and then the interface is marked closed
    and a second [disconnect] changes nothing; or it raises
    [DeviceConnectionError], and then the interface is as it was, still
    marked open. A closed interface is left as it is. *)
Theorem disconnect_closes_or_leaves_untouched (net : network)
    (self : Tgf4000EthernetInterface) :
  match disconnect net self with
  | (Return _, self') =>
    _is_connection_open self' = false /\
    self' = set_open false self /\
    forall net', disconnect net' self' = (Return tt, self')
  | (Raise e, self') =>
    e = DeviceConnectionError /\ self' = self /\ _is_connection_open self = true
  end /\
  (_is_connection_open self = false -> disconnect net self = (Return tt, self)).
Proof.
  unfold disconnect. destruct self as [h p d sk [|] rt]; cbn.
  - split; [|discriminate]. destruct sk as [sk|]; [|auto].
    destruct (close_fault net); auto.
  - auto.
Qed.

(** [connect] looks at the interface before it touches the network: an
    interface that is open already is left as it is, and one without a host
    name or a port raises [ValueError]; in neither case is a socket made. *)
Theorem connect_checks_the_interface_first (net : network)
    (self : Tgf4000EthernetInterface) :
  (_is_connection_open self = true ->
   connect query is_device_error net self = (Return tt, self)) /\
  (_is_connection_open self = false ->
   hostname self = None \/ hostname self = Some ""%string \/
   port self = None \/ port self = Some 0%Z ->
   connect query is_device_error net self = (Raise ValueError, self)).
Proof.
  unfold connect. split.
  - intros ->. reflexivity.
  - intros -> Hbad.
    destruct (bool_decide_reflect (hostname self = None \/ hostname self = Some ""%string))
      as [_|Hhost]; [reflexivity|].
    destruct (bool_decide_reflect (port self = None \/ port self = Some 0%Z))
      as [_|Hport]; [reflexivity|]. tauto.
Qed.

(** An interface that [connect] goes on with: closed, with a host name
    and a port. *)
Definition ready (self : Tgf4000EthernetInterface) : Prop :=
  _is_connection_open self = false /\
  (exists h, hostname self = Some h /\ h <> ""%string) /\
  (exists p, port self = Some p /\ p <> 0%Z).

Lemma connect_ready (net : network) (self : Tgf4000EthernetInterface) :
  ready self ->
  connect query is_device_error net self =
    match new_socket net with
    | Raise e =>
      (Raise (if is_socket_error e then DeviceConnectionError else e), self)
    | Return sk =>
      let sk1 := settimeout (Some 3%Q) sk in
      match connect_fault net with
      | Some e => (Raise (connect_except e), with_sock sk1 self)
      | None =>
        let sk2 := settimeout None sk1 in
        let self1 := set_open true (with_sock sk2 self) in
        match is_connected query is_device_error net self1 with
        | (Raise e, self2) => (Raise e, self2)
        | (Return true, self2) => (Return tt, self2)
        | (Return false, self2) => (Raise DeviceConnectionError, self2)
        end
      end
    end.
Proof.
  intros (Hclosed & (h & Hh & Hhne) & (p & Hp & Hpne)). unfold connect.
  rewrite Hclosed.
  rewrite bool_decide_eq_false_2 by (rewrite Hh; intros [?|[= ?]]; congruence).
  rewrite bool_decide_eq_false_2 by (rewrite Hp; intros [?|[= ?]]; congruence).
  reflexivity.
Qed.

(** No socket error leaves [connect] as it is: when the socket cannot be
    made the interface is untouched; when the connection fails (a timeout
    gives [DeviceTimeoutError], anything else [DeviceConnectionError]) the
    interface stays marked closed, and it keeps the new socket, with the
    timeout of three seconds that was set for connecting. *)
Theorem connect_translates_socket_errors (net : network)
    (self : Tgf4000EthernetInterface) (e : exception) :
  ready self -> is_socket_error e = true ->
  (new_socket net = Raise e ->
   connect query is_device_error net self = (Raise DeviceConnectionError, self)) /\
  (forall sk, new_socket net = Return sk -> connect_fault net = Some e ->
     let after := connect query is_device_error net self in
     fst after = Raise (translated e) /\
     _is_connection_open (snd after) = false /\
     exists sk', _sock (snd after) = Some sk' /\ sock_timeout sk' = Some 3%Q /\
                 history sk' = history sk ++ [SetTimeout (Some 3%Q)]).
Proof.
  intros Hready He. pose proof Hready as (Hclosed & _).
  rewrite (connect_ready net self Hready). split.
  - intros ->. rewrite He. reflexivity.
  - intros sk -> ->. cbv zeta. cbn [fst snd]. split; [|split].
    + unfold connect_except, translated. destruct e; try discriminate; reflexivity.
    + exact Hclosed.
    + eexists. split; [reflexivity|]. split; reflexivity.
Qed.

(** What [is_connected] has seen when it answers [True]: the interface was
    marked open, the identification was asked for twice, and the second
    reply was text whose first two fields, split at the commas, hold the
    manufacturer's and the model's name. *)
Definition identified (self self' : Tgf4000EthernetInterface) : Prop :=
  exists printed self1 text manufacturer model rest,
    query IDENTIFICATION_QUERY self = (Return printed, self1) /\
    query IDENTIFICATION_QUERY self1 = (Return (inl text), self') /\
    split (u ",") text = manufacturer :: model :: rest /\
    contains (u "THURLBY THANDAR") manufacturer = true /\
    contains (u "TGF4") model = true.

Lemma disconnect_returns_closed (net : network) (self self' : Tgf4000EthernetInterface) :
  disconnect net self = (Return tt, self') -> _is_connection_open self' = false.
Proof.
  unfold disconnect. destruct (_is_connection_open self) eqn:Hopen.
  - destruct (_sock self); [|discriminate].
    destruct (close_fault net); [discriminate|]. intros [= <-]. reflexivity.
  - intros [= <-]. exact Hopen.
Qed.

Lemma disconnect_and_deny_false (net : network) (self self' : Tgf4000EthernetInterface) (r : bool) :
  disconnect_and_deny net self = (Return r, self') -> r = false /\ _is_connection_open self' = false.
Proof.
  unfold disconnect_and_deny.
  destruct (disconnect net self) as [[[]|e] s] eqn:Hd; [|discriminate].
  intros [= <- <-]. split; [reflexivity|]. exact (disconnect_returns_closed _ _ _ Hd).
Qed.

Lemma is_connected_except_false (net : network) (e : exception)
    (self self' : Tgf4000EthernetInterface) (r : bool) :
  is_connected_except is_device_error net e self = (Return r, self') ->
  r = false /\ _is_connection_open self' = false.
Proof.
  unfold is_connected_except. destruct (is_device_error e); [|discriminate].
  apply disconnect_and_deny_false.
Qed.

Lemma is_connected_cases (net : network) (self self' : Tgf4000EthernetInterface) (r : bool) :
  is_connected query is_device_error net self = (Return r, self') ->
  (r = false /\ _is_connection_open self' = false) \/
  (r = true /\ _is_connection_open self = true /\ identified self self').
Proof.
  unfold is_connected.
  destruct (_is_connection_open self) eqn:Hopen; cbn [negb].
  2:{ intros [= <- <-]. left. auto. }
  destruct (query IDENTIFICATION_QUERY self) as [[printed|e1] self1] eqn:Q1.
  2:{ intros H. left. exact (is_connected_except_false _ _ _ _ _ H). }
  destruct (query IDENTIFICATION_QUERY self1) as [[[text|raw]|e2] self2] eqn:Q2.
  3:{ intros H. left. exact (is_connected_except_false _ _ _ _ _ H). }
  2:{ intros H. left. exact (is_connected_except_false _ _ _ _ _ H). }
  destruct (split (u ",") text) as [|manufacturer [|model rest]] eqn:Hsplit.
  1,2: intros H; left; exact (is_connected_except_false _ _ _ _ _ H).
  destruct (contains (u "THURLBY THANDAR") manufacturer) eqn:Hman; cbn [negb orb].
  2:{ intros H. left. exact (disconnect_and_deny_false _ _ _ _ H). }
  destruct (contains (u "TGF4") model) eqn:Hmod; cbn [negb].
  2:{ intros H. left. exact (disconnect_and_deny_false _ _ _ _ H). }
  intros [= <- <-]. right. split; [reflexivity|]. split; [reflexivity|].
  exists printed, self1, text, manufacturer, model, rest. auto.
Qed.

(** [is_connected] answers [False] only with the interface marked closed:
    either it was closed, or [is_connected] has closed it. It answers [True]
    only for an interface marked open whose device has identified itself. *)
Theorem is_connected_false_means_closed (net : network)
    (self self' : Tgf4000EthernetInterface) :
  (is_connected query is_device_error net self = (Return false, self') ->
   _is_connection_open self' = false) /\
  (is_connected query is_device_error net self = (Return true, self') ->
   _is_connection_open self = true /\ identified self self').
Proof.
  split; intros H; apply is_connected_cases in H;
    destruct H as [[H1 H2]|[H1 H2]]; try discriminate; assumption.
Qed.

(** The docstring of [is_connected] promises [False] in every other case,
    but when the device answers with the wrong names and the socket cannot
    be closed, [is_connected] raises [DeviceConnectionError], and the
    interface stays marked open. *)
Theorem is_connected_raises_when_close_fails (net : network)
    (self self1 self2 : Tgf4000EthernetInterface) (printed : str + bytes)
    (text manufacturer model : str) (rest : list str) (e : exception) :
  _is_connection_open self = true ->
  query IDENTIFICATION_QUERY self = (Return printed, self1) ->
  query IDENTIFICATION_QUERY self1 = (Return (inl text), self2) ->
  split (u ",") text = manufacturer :: model :: rest ->
  contains (u "THURLBY THANDAR") manufacturer = false \/
  contains (u "TGF4") model = false ->
  _is_connection_open self2 = true ->
  close_fault net = Some e ->
  is_connected query is_device_error net self = (Raise DeviceConnectionError, self2).
Proof.
  intros Hopen Q1 Q2 Hsplit Hwrong Hopen2 Hclose. unfold is_connected.
  rewrite Hopen, Q1, Q2, Hsplit. cbn [negb].
  assert (Hgive : disconnect_and_deny net self2 = (Raise DeviceConnectionError, self2)).
  { unfold disconnect_and_deny, disconnect. rewrite Hopen2, Hclose.
    destruct (_sock self2); reflexivity. }
  destruct Hwrong as [-> | ->]; cbn [negb orb]; [exact Hgive|].
  destruct (contains (u "THURLBY THANDAR") manufacturer); cbn [negb orb]; exact Hgive.
Qed.

Lemma connect_success (net : network) (self self' : Tgf4000EthernetInterface) :
  ready self ->
  connect query is_device_error net self = (Return tt, self') ->
  exists sk,
    new_socket net = Return sk /\ connect_fault net = None /\
    identified
      (set_open true (with_sock (settimeout None (settimeout (Some 3%Q) sk)) self)) self'.
Proof.
  intros Hready. rewrite (connect_ready net self Hready).
  destruct (new_socket net) as [sk|e]; [|discriminate].
  destruct (connect_fault net) as [e|]; [discriminate|]. cbv zeta.
  destruct (is_connected query is_device_error net _) as [[[|]|e] s] eqn:Hc;
    try discriminate.
  intros [= <-]. exists sk. split; [reflexivity|]. split; [reflexivity|].
  apply is_connected_cases in Hc. destruct Hc as [[H _]|[_ [_ H]]]; [discriminate|exact H].
Qed.

(** [connect] returns from a closed interface with a host name and a port
    only when the socket was made, the connection went through and the
    device identified itself; the socket is then blocking again. *)
Theorem connect_returns_only_when_identified (net : network)
    (self self' : Tgf4000EthernetInterface) :
  ready self ->
  connect query is_device_error net self = (Return tt, self') ->
  exists sk,
    new_socket net = Return sk /\ connect_fault net = None /\
    identified
      (set_open true (with_sock (settimeout None (settimeout (Some 3%Q) sk)) self)) self'.
Proof. exact (connect_success net self self'). Qed.

(** An interface with a host name and a port. *)
Definition addressed (self : Tgf4000EthernetInterface) : Prop :=
  (exists h, hostname self = Some h /\ h <> ""%string) /\
  (exists p, port self = Some p /\ p <> 0%Z).

(** [reconnect] never returns on the strength of the old connection, as
    [connect] does for an interface that is open: when it returns, a new
    socket was made and connected and the device has identified itself over
    it. When the old socket cannot be closed, [reconnect] raises
    [DeviceConnectionError] and leaves the interface as it was. *)
Theorem reconnect_returns_only_with_a_new_socket (net : network)
    (self self' : Tgf4000EthernetInterface) :
  addressed self ->
  (reconnect query is_device_error net self = (Return tt, self') ->
   exists sk,
     new_socket net = Return sk /\ connect_fault net = None /\
     (_is_connection_open self = true -> close_fault net = None) /\
     identified
       (set_open true (with_sock (settimeout None (settimeout (Some 3%Q) sk)) self)) self') /\
  (_is_connection_open self = true -> close_fault net <> None ->
   reconnect query is_device_error net self = (Raise DeviceConnectionError, self)).
Proof.
  intros [Hhost Hport].
  assert (Hready : ready (set_open false self)) by (split; [reflexivity|split; assumption]).
  unfold reconnect, disconnect. split.
  - destruct (_is_connection_open self) eqn:Hopen.
    + destruct (_sock self) as [old|]; [|discriminate].
      destruct (close_fault net) as [e|]; [discriminate|].
      intros H. apply (connect_success _ _ _ Hready) in H.
      destruct H as (sk & Hsk & Hfault & Hid). exists sk.
      split; [exact Hsk|]. split; [exact Hfault|]. split; [reflexivity|].
      destruct self; exact Hid.
    + intros H.
      assert (Hsame : set_open false self = self).
      { destruct self. cbn in Hopen. subst. reflexivity. }
      rewrite Hsame in Hready.
      apply (connect_success _ _ _ Hready) in H.
      destruct H as (sk & Hsk & Hfault & Hid). exists sk.
      split; [exact Hsk|]. split; [exact Hfault|]. split; [discriminate|exact Hid].
  - intros -> Hclose. destruct (_sock self); [|reflexivity].
    destruct (close_fault net); [reflexivity|contradiction].
Qed.

End Connecting.

(** For the examples: [query] as a transaction, and the two device errors. *)
Definition query_by_trans (command : str) (self : Devif.Tgf4000EthernetInterface)
  : result (str + bytes) * Devif.Tgf4000EthernetInterface := Devif.trans command self.

Definition device_errors (e : exception) : bool :=
  match e with
  | DeviceTimeoutError | DeviceConnectionError => true
  | _ => false
  end.

Lemma connect_checks_the_interface_first_witness :
  Connection.connect query_by_trans device_errors
      (Connection.mk_network (Raise OSError) None None) (Devif.connected [] [])
    = (Return tt, Devif.connected [] []) /\
  Connection.connect query_by_trans device_errors
      (Connection.mk_network (Raise OSError) None None)
      (Devif.mk_interface (Some ""%string) (Some 9221%Z) (Some "TGF4000"%string) None false 60%Q)
    = (Raise ValueError,
       Devif.mk_interface (Some ""%string) (Some 9221%Z) (Some "TGF4000"%string) None false 60%Q).
Proof.
  split.
  - exact (proj1 (connect_checks_the_interface_first query_by_trans device_errors
                    (Connection.mk_network (Raise OSError) None None)
                    (Devif.connected [] [])) eq_refl).
  - refine (proj2 (connect_checks_the_interface_first query_by_trans device_errors
                     (Connection.mk_network (Raise OSError) None None)
                     (Devif.mk_interface (Some ""%string) (Some 9221%Z)
                        (Some "TGF4000"%string) None false 60%Q)) eq_refl _).
    right. left. reflexivity.
Defined.

Lemma connect_translates_socket_errors_witness :
  fst (Connection.connect query_by_trans device_errors
         (Connection.mk_network (Return (Devif.mk_socket None [] [] [])) (Some TimeoutError) None)
         unconnected)
    = Raise DeviceTimeoutError /\
  Connection.connect query_by_trans device_errors
      (Connection.mk_network (Raise OSError) None None) unconnected
    = (Raise DeviceConnectionError, unconnected).
Proof.
  assert (Hready : ready unconnected).
  { split; [reflexivity|]. split; eexists; (split; [reflexivity|discriminate]). }
  split.
  - exact (proj1 (proj2 (connect_translates_socket_errors query_by_trans device_errors
                           (Connection.mk_network (Return (Devif.mk_socket None [] [] []))
                              (Some TimeoutError) None)
                           unconnected TimeoutError Hready eq_refl) _ eq_refl eq_refl)).
  - exact (proj1 (connect_translates_socket_errors query_by_trans device_errors
                    (Connection.mk_network (Raise OSError) None None)
                    unconnected OSError Hready eq_refl) eq_refl).
Defined.

(** A device that gives its name, one that gives another, and a network
    whose sockets cannot be closed. *)
Definition named : Devif.recv_result :=
  Devif.Data (b "THURLBY THANDAR, TGF4162, 527758, 01.00-02.10-01.05" ++ [x0d; x0a]).

Definition misnamed : Devif.recv_result := Devif.Data (b "ACME,X1" ++ [x0d; x0a]).

Definition stuck : Connection.network :=
  Connection.mk_network (Raise OSError) None (Some OSError).

Lemma is_connected_false_means_closed_witness :
  Devif._is_connection_open
    (snd (Connection.is_connected query_by_trans device_errors
            (Connection.mk_network (Raise OSError) None None)
            (Devif.connected [misnamed; misnamed] []))) = false.
Proof.
  refine (proj1 (is_connected_false_means_closed query_by_trans device_errors
                   (Connection.mk_network (Raise OSError) None None)
                   (Devif.connected [misnamed; misnamed] []) _) _).
  vm_compute. reflexivity.
Defined.

Lemma is_connected_raises_when_close_fails_witness :
  fst (Connection.is_connected query_by_trans device_errors stuck
         (Devif.connected [misnamed; misnamed] []))
    = Raise DeviceConnectionError.
Proof.
  rewrite (is_connected_raises_when_close_fails query_by_trans device_errors stuck
             (Devif.connected [misnamed; misnamed] [])
             (snd (query_by_trans Connection.IDENTIFICATION_QUERY
                     (Devif.connected [misnamed; misnamed] [])))
             (snd (query_by_trans Connection.IDENTIFICATION_QUERY
                     (snd (query_by_trans Connection.IDENTIFICATION_QUERY
                             (Devif.connected [misnamed; misnamed] [])))))
             (inl (u "ACME,X1")) (u "ACME,X1") (u "ACME") (u "X1") [] OSError).
  - reflexivity.
  - reflexivity.
  - vm_compute. reflexivity.
  - vm_compute. reflexivity.
  - vm_compute. reflexivity.
  - left. vm_compute. reflexivity.
  - reflexivity.
  - reflexivity.
Defined.

Lemma connect_returns_only_when_identified_witness :
  exists sk,
    Connection.new_socket
      (Connection.mk_network (Return (Devif.mk_socket None [named; named] [] [])) None None)
      = Return sk /\
    identified query_by_trans
      (Connection.set_open true
         (Devif.with_sock (Devif.settimeout None (Devif.settimeout (Some 3%Q) sk)) unconnected))
      (snd (Connection.connect query_by_trans device_errors
              (Connection.mk_network (Return (Devif.mk_socket None [named; named] [] [])) None None)
              unconnected)).
Proof.
  assert (Hready : ready unconnected).
  { split; [reflexivity|]. split; eexists; (split; [reflexivity|discriminate]). }
  destruct (connect_returns_only_when_identified query_by_trans device_errors
              (Connection.mk_network (Return (Devif.mk_socket None [named; named] [] [])) None None)
              unconnected
              (snd (Connection.connect query_by_trans device_errors
                      (Connection.mk_network
                         (Return (Devif.mk_socket None [named; named] [] [])) None None)
                      unconnected))
              Hready) as (sk & Hsk & _ & Hid).
  - vm_compute. reflexivity.
  - exists sk. split; assumption.
Defined.

Lemma reconnect_returns_only_with_a_new_socket_witness :
  Connection.reconnect query_by_trans device_errors stuck (Devif.connected [] [])
    = (Raise DeviceConnectionError, Devif.connected [] []).
Proof.
  refine (proj2 (reconnect_returns_only_with_a_new_socket query_by_trans device_errors
                   stuck (Devif.connected [] []) (Devif.connected [] []) _) eq_refl _).
  - split; eexists; (split; [reflexivity|discriminate]).
  - discriminate.
Defined.

Lemma disconnect_closes_or_leaves_untouched_witness :
  Connection.disconnect stuck unconnected = (Return tt, unconnected).
Proof.
  exact (proj2 (disconnect_closes_or_leaves_untouched stuck unconnected) eq_refl).
Defined.

(** ** Reading ARB data: the edges of aim_tti/__init__.py *)

Section ArbReading.
Import AimTti.

(** [init_from_bytestring] looks at one character of the header only, the
    second, and skips as many characters after it as this digit says. The
    first character need not be [#], and the byte count that the header
    declares is never read: whatever follows the skipped characters is
    taken as the points. A block of fewer than two bytes raises
    [IndexError], a second byte that is no decimal digit [ValueError], and
    both leave the array as it was. *)
Theorem init_from_bytestring_reads_only_the_length_digit (bytestring : bytes)
    (self : ArbData) :
  init_from_bytestring bytestring self =
    match bytestring !! 1%nat with
    | None => (Raise IndexError, self)
    | Some digit =>
      if is_decimal_digit (Byte.to_N digit)
      then (Return tt,
            set_array (numbers_of_bytes
                         (drop (2 + N.to_nat (Byte.to_N digit - 48)) bytestring)) self)
      else (Raise ValueError, self)
    end.
Proof.
  unfold init_from_bytestring.
  unfold latin1_decode at 1. rewrite list_lookup_fmap.
  destruct (bytestring !! 1%nat) as [digit|]; [|reflexivity].
  cbn [fmap option_fmap option_map]. rewrite py_int_single by apply byte_is_latin1.
  destruct (is_decimal_digit (Byte.to_N digit)); [|reflexivity].
  unfold slice_from.
  rewrite (proj2 (Z.leb_le 0 (2 + Z.of_N (Byte.to_N digit - 48)))) by lia.
  unfold array_from_bytes. rewrite latin1_encode_drop.
  replace (Z.to_nat (2 + Z.of_N (Byte.to_N digit - 48)))
    with (2 + N.to_nat (Byte.to_N digit - 48))%nat by lia.
  reflexivity.
Qed.

(** The numbers that the groups of a string of hexadecimal characters
    stand for. *)
Definition numbers_of_groups (h : str) : list Z := hex_value <$> groups_of_4 h.

Lemma seq_split (n m : nat) : seq 0 (n + m) = seq 0 n ++ seq n m.
Proof. rewrite seq_app. reflexivity. Qed.

(** The string that [array_from_hex_string] loops over, when the string it
    is given holds no blank and neither starts nor ends with white space. *)
Lemma array_from_hex_string_plain (s : str) (self : ArbData) :
  32 ∉ s ->
  (forall c, head s = Some c -> is_space c = false) ->
  (forall c, last s = Some c -> is_space c = false) ->
  array_from_hex_string s self
    = hex_loop (seq 0 (length s / 4)) s (set_array [] self).
Proof.
  intros Hblank Hhead Hlast. unfold array_from_hex_string.
  rewrite (remove_char_absent 32 s Hblank), (strip_id s Hhead Hlast). reflexivity.
Qed.

(** *** A group that is no number *)

(** The characters of which a literal in base 16 can be made: the
    hexadecimal digits, the underscore, the signs, the [x] of the prefix and
    the white space around it. *)
Definition is_literal_char (c : N) : bool :=
  is_hex_digit c || (c =? 95) || (c =? 43) || (c =? 45) || (c =? 120) || (c =? 88)
  || is_ascii_space c.

Lemma literal_char_spec (c : N) :
  is_literal_char c = false ->
  is_hex_digit c = false /\ c <> 95 /\ c <> 43 /\ c <> 45 /\ c <> 120 /\ c <> 88 /\
  is_ascii_space c = false.
Proof.
  unfold is_literal_char. intros H.
  apply orb_false_iff in H as [H Hspace]. apply orb_false_iff in H as [H H88].
  apply orb_false_iff in H as [H H120]. apply orb_false_iff in H as [H H45].
  apply orb_false_iff in H as [H H43]. apply orb_false_iff in H as [Hhex H95].
  apply N.eqb_neq in H88, H120, H45, H43, H95. tauto.
Qed.

(** A character that is no hexadecimal digit is no digit of base 16. *)
Lemma not_hex_digit_value (c : N) :
  is_hex_digit c = false ->
  match digit_value c with Some d => 16 <= d | None => True end.
Proof.
  unfold is_hex_digit, digit_value. intros H.
  apply orb_false_iff in H as [H Hupper]. apply orb_false_iff in H as [Hdigit Hlower].
  rewrite Hdigit.
  destruct ((97 <=? c) && (c <=? 122)) eqn:E1.
  - apply andb_true_iff in E1 as [H1 H2]. apply N.leb_le in H1, H2.
    apply andb_false_iff in Hlower as [Hl|Hl]; [apply N.leb_gt in Hl|apply N.leb_gt in Hl]; lia.
  - destruct ((65 <=? c) && (c <=? 90)) eqn:E2; [|exact I].
    apply andb_true_iff in E2 as [H1 H2]. apply N.leb_le in H1, H2.
    apply andb_false_iff in Hupper as [Hu|Hu]; [apply N.leb_gt in Hu|apply N.leb_gt in Hu]; lia.
Qed.

Lemma scan_digits_bad (c : N) (s : str) :
  c ∈ s -> c <> 95 -> is_hex_digit c = false ->
  forall after acc, scan_digits 16 after acc s = None.
Proof.
  intros Hin H95 Hhex. induction s as [|x s IH]; intros after acc.
  - apply elem_of_nil in Hin. contradiction.
  - cbn [scan_digits]. apply elem_of_cons in Hin as [<-|Hin].
    + rewrite (proj2 (N.eqb_neq c 95) H95).
      pose proof (not_hex_digit_value c Hhex) as Hvalue.
      destruct (digit_value c) as [d|]; [|reflexivity].
      rewrite (proj2 (N.ltb_ge d 16) Hvalue). reflexivity.
    + destruct (x =? 95).
      * destruct after; [reflexivity|]. apply IH. exact Hin.
      * destruct (digit_value x) as [d|]; [|reflexivity].
        destruct (d <? 16); [|reflexivity]. apply IH. exact Hin.
Qed.

Lemma skip_prefix_keeps (c : N) (s : str) :
  c ∈ s -> c <> 48 -> c <> 120 -> c <> 88 -> c <> 95 -> c ∈ skip_prefix 16 s.
Proof.
  intros Hin H48 H120 H88 H95. unfold skip_prefix.
  destruct s as [|zero [|x s']]; try exact Hin.
  destruct ((zero =? 48) && _) eqn:E; [|exact Hin].
  apply andb_true_iff in E as [Ezero Ex]. apply N.eqb_eq in Ezero. subst zero.
  assert (Hx : x = 120 \/ x = 88).
  { cbn in Ex. rewrite !orb_false_r in Ex.
    apply orb_true_iff in Ex as [Ex|Ex]; apply N.eqb_eq in Ex; auto. }
  assert (Hrest : c ∈ s').
  { apply elem_of_cons in Hin as [->|Hin]; [contradiction|].
    apply elem_of_cons in Hin as [->|Hin]; [destruct Hx; contradiction|exact Hin]. }
  destruct s' as [|y s'']; [exact Hrest|].
  destruct (N.eqb_spec y 95) as [->|_]; [|exact Hrest].
  apply elem_of_cons in Hrest as [->|Hrest]; [contradiction|exact Hrest].
Qed.

Lemma int_magnitude_bad (c : N) (s : str) :
  c ∈ s -> is_literal_char c = false -> int_magnitude 16 s = None.
Proof.
  intros Hin Hc. destruct (literal_char_spec c Hc) as (Hhex & H95 & _ & _ & H120 & H88 & _).
  assert (H48 : c <> 48) by (intros ->; discriminate).
  pose proof (skip_prefix_keeps c s Hin H48 H120 H88 H95) as Hkept.
  unfold int_magnitude. destruct (skip_prefix 16 s) as [|x digits]; [reflexivity|].
  destruct (x =? 95); [reflexivity|].
  change (too_many_digits 16 (x :: digits)) with false. cbv iota.
  apply (scan_digits_bad c); assumption.
Qed.

Lemma to_ascii_keeps (c : N) (s t : str) :
  to_ascii s = Some t -> c ∈ s -> c < 127 -> c ∈ t.
Proof.
  revert t. induction s as [|x s IH]; intros t Ht Hin Hc.
  - apply elem_of_nil in Hin. contradiction.
  - cbn [to_ascii] in Ht.
    destruct (to_ascii_char x) as [x'|] eqn:Ex; [|discriminate].
    destruct (to_ascii s) as [t'|]; [|discriminate]. injection Ht as <-.
    apply elem_of_cons in Hin as [<-|Hin].
    + unfold to_ascii_char in Ex. rewrite (proj2 (N.ltb_lt c 127) Hc) in Ex.
      injection Ex as <-. left.
    + right. apply (IH t' eq_refl Hin Hc).
Qed.

Lemma skip_spaces_keeps (c : N) (s : str) :
  c ∈ s -> is_ascii_space c = false -> c ∈ skip_spaces s.
Proof.
  intros Hin Hc. induction s as [|x s IH].
  - exact Hin.
  - cbn [skip_spaces]. destruct (is_ascii_space x) eqn:Ex; [|exact Hin].
    apply IH. apply elem_of_cons in Hin as [->|Hin]; [congruence|exact Hin].
Qed.

Lemma between_spaces_keeps (c : N) (s : str) :
  c ∈ s -> is_ascii_space c = false -> c ∈ between_spaces s.
Proof.
  intros Hin Hc. unfold between_spaces.
  apply list_elem_of_In, in_rev. rewrite rev_involutive. apply list_elem_of_In.
  apply skip_spaces_keeps; [|exact Hc].
  apply list_elem_of_In, in_rev. rewrite rev_involutive. apply list_elem_of_In.
  apply skip_spaces_keeps; assumption.
Qed.

(** A string with an ASCII character of which no literal in base 16 can be
    made is no number for [int]. *)
Lemma py_int_bad (c : N) (s : str) :
  c ∈ s -> c < 127 -> is_literal_char c = false -> py_int 16 s = None.
Proof.
  intros Hin Hascii Hc.
  destruct (literal_char_spec c Hc) as (_ & _ & H43 & H45 & _ & _ & Hspace).
  unfold py_int. destruct (to_ascii s) as [t|] eqn:Et; [|reflexivity].
  pose proof (between_spaces_keeps c t (to_ascii_keeps c s t Et Hin Hascii) Hspace) as Hkept.
  destruct (between_spaces t) as [|x w]; [reflexivity|].
  destruct (N.eqb_spec x 45) as [->|_].
  - apply elem_of_cons in Hkept as [->|Hkept]; [contradiction|].
    rewrite (int_magnitude_bad c w Hkept Hc). reflexivity.
  - destruct (N.eqb_spec x 43) as [->|_].
    + apply elem_of_cons in Hkept as [->|Hkept]; [contradiction|].
      rewrite (int_magnitude_bad c w Hkept Hc). reflexivity.
    + rewrite (int_magnitude_bad c (x :: w) Hkept Hc). reflexivity.
Qed.

(** When a group holds an ASCII character of which no number can be made,
    [array_from_hex_string] raises [ValueError] and leaves in the array the
    numbers of the groups before it: neither the array it had before the
    call nor an empty one. *)
Theorem array_from_hex_string_keeps_the_numbers_before_a_bad_group
    (good bad rest : str) (n : nat) (c : N) (self : ArbData) :
  forallb is_hex_digit good = true -> length good = (4 * n)%nat ->
  forallb fits (groups_of_4 good) = true ->
  length bad = 4%nat -> c ∈ bad -> c < 127 -> is_literal_char c = false ->
  Forall (fun x => is_space x = false) (bad ++ rest) ->
  array_from_hex_string (good ++ bad ++ rest) self
    = (Raise ValueError, set_array (numbers_of_groups good) self).
Proof.
  intros Hgood Hlen Hfit Hbad Hin Hascii Hc Hplain.
  assert (Hall : Forall (fun x => is_space x = false) (good ++ bad ++ rest)).
  { apply Forall_app. split; [|exact Hplain].
    apply Forall_forall. intros x Hx. apply hex_digit_spec.
    rewrite forallb_forall in Hgood. apply Hgood. apply list_elem_of_In. exact Hx. }
  rewrite Forall_forall in Hall.
  rewrite array_from_hex_string_plain.
  - assert (Hcount : (length (good ++ bad ++ rest) / 4 = n + S (length rest / 4))%nat).
    { rewrite !length_app, Hlen, Hbad.
      replace (4 * n + (4 + length rest))%nat with (length rest + (n + 1) * 4)%nat by lia.
      rewrite Nat.div_add by lia. lia. }
    rewrite Hcount, seq_split.
    rewrite <- (app_nil_l (good ++ bad ++ rest)).
    rewrite (hex_loop_prefix n 0 _ [] good (bad ++ rest)) by (try reflexivity; assumption).
    rewrite Hfit, (numbers_that_fit_all _ Hfit).
    cbn [seq hex_loop app array set_array].
    assert (Hslice : slice (n * 4) (n * 4 + 4) (good ++ bad ++ rest) = bad).
    { unfold slice. replace (n * 4)%nat with (length good) by lia.
      rewrite drop_app_length.
      replace (length good + 4 - length good)%nat with (length bad) by lia.
      rewrite take_app_length. reflexivity. }
    rewrite Hslice, (py_int_bad c bad Hin Hascii Hc). reflexivity.
  - intros H. apply Hall in H. discriminate.
  - intros x Hx. apply Hall. apply head_Some_elem_of. exact Hx.
  - intros x Hx. apply Hall. apply last_Some_elem_of. exact Hx.
Qed.

Lemma array_from_hex_string_keeps_the_numbers_before_a_bad_group_witness :
  array_from_hex_string (u "00017FFF00G10003") (set_array [7; 8; 9]%Z ArbData_init)
    = (Raise ValueError, set_array [1; 32767]%Z ArbData_init).
Proof.
  refine (array_from_hex_string_keeps_the_numbers_before_a_bad_group
            (u "00017FFF") (u "00G1") (u "0003") 2 71
            (set_array [7; 8; 9]%Z ArbData_init) _ _ _ _ _ _ _ _).
  - reflexivity.
  - reflexivity.
  - reflexivity.
  - reflexivity.
  - apply list_elem_of_In. simpl. tauto.
  - lia.
  - reflexivity.
  - repeat (constructor; [reflexivity|]). constructor.
Defined.

(** *** A line break inside the string *)

Lemma py_int_after_line_feed (base : N) (group : str) :
  Forall (fun c => c < 127) group -> py_int base (LF :: group) = py_int base group.
Proof.
  intros Hascii. unfold py_int. cbn [to_ascii].
  change (to_ascii_char LF) with (Some LF). rewrite (to_ascii_plain group Hascii).
  reflexivity.
Qed.

(** A line break inside the string is not skipped as the blanks are: it
    counts as the first character of its group, so the group takes only
    three characters of the number that follows, and every group after it
    starts one character late. While the numbers of the groups, as they are
    cut then, stay below 0x8000, no error is raised. (At the very start or
    end of the string a line break is stripped off.) *)
Theorem array_from_hex_string_line_break_shifts_the_groups
    (before after : str) (c1 c2 c3 : N) (n : nat) (self : ArbData) :
  forallb is_hex_digit before = true -> length before = (4 * S n)%nat ->
  forallb is_hex_digit (c1 :: c2 :: c3 :: after) = true ->
  forallb fits (groups_of_4 before) = true -> forallb fits (groups_of_4 after) = true ->
  array_from_hex_string (before ++ LF :: c1 :: c2 :: c3 :: after) self
    = (Return tt,
       set_array (numbers_of_groups before ++ hex_value [c1; c2; c3]
                    :: numbers_of_groups after) self).
Proof.
  intros Hbefore Hlen Hafter Hfit1 Hfit2.
  assert (Hsplit : forallb is_hex_digit [c1; c2; c3] = true /\
                   forallb is_hex_digit after = true).
  { cbn [forallb] in Hafter |- *.
    apply andb_true_iff in Hafter as [H1 Hafter]. apply andb_true_iff in Hafter as [H2 Hafter].
    apply andb_true_iff in Hafter as [H3 Hafter].
    rewrite H1, H2, H3. split; [reflexivity|exact Hafter]. }
  destruct Hsplit as [Hthree Hrest].
  assert (Hdigits : forall c, c ∈ before ++ c1 :: c2 :: c3 :: after -> is_hex_digit c = true).
  { intros c Hc. apply elem_of_app in Hc as [Hc|Hc].
    - rewrite forallb_forall in Hbefore. apply Hbefore, list_elem_of_In, Hc.
    - rewrite forallb_forall in Hafter. apply Hafter, list_elem_of_In, Hc. }
  rewrite array_from_hex_string_plain.
  - change (before ++ LF :: c1 :: c2 :: c3 :: after)
      with (before ++ [LF; c1; c2; c3] ++ after).
    assert (Hcount : (length (before ++ [LF; c1; c2; c3] ++ after) / 4
                      = S n + S (length after / 4))%nat).
    { rewrite !length_app, Hlen. cbn [length].
      replace (4 * S n + (4 + length after))%nat
        with (length after + (S n + 1) * 4)%nat by lia.
      rewrite Nat.div_add by lia. lia. }
    rewrite Hcount, seq_split.
    rewrite <- (app_nil_l (before ++ [LF; c1; c2; c3] ++ after)).
    rewrite (hex_loop_prefix (S n) 0 _ [] before ([LF; c1; c2; c3] ++ after))
      by (try reflexivity; assumption).
    rewrite Hfit1, (numbers_that_fit_all _ Hfit1).
    cbn [app array set_array]. cbn [seq hex_loop].
    assert (Hslice : slice (S n * 4) (S n * 4 + 4) (before ++ LF :: c1 :: c2 :: c3 :: after)
                     = [LF; c1; c2; c3]).
    { unfold slice. replace (S n * 4)%nat with (length before) by lia.
      rewrite drop_app_length.
      replace (length before + 4 - length before)%nat with 4%nat by lia. reflexivity. }
    rewrite Hslice.
    assert (Hint : py_int 16 [LF; c1; c2; c3] = Some (hex_value [c1; c2; c3])).
    { rewrite py_int_after_line_feed.
      - apply py_int_hex; [discriminate|exact Hthree].
      - apply Forall_forall. intros c Hc. apply hex_digit_ascii.
        rewrite forallb_forall in Hthree. apply Hthree, list_elem_of_In, Hc. }
    rewrite Hint.
    assert (Hsmall : int16 (hex_value [c1; c2; c3]) = Return (hex_value [c1; c2; c3])).
    { assert (Hbound : (0 <= hex_value [c1; c2; c3] < 4096)%Z).
      { cbn [forallb] in Hthree.
        apply andb_true_iff in Hthree as [H1 Hthree].
        apply andb_true_iff in Hthree as [H2 Hthree].
        apply andb_true_iff in Hthree as [H3 _].
        destruct (hex_digit_spec c1 H1) as (_ & _ & _ & _ & _ & _ & _ & B1).
        destruct (hex_digit_spec c2 H2) as (_ & _ & _ & _ & _ & _ & _ & B2).
        destruct (hex_digit_spec c3 H3) as (_ & _ & _ & _ & _ & _ & _ & B3).
        unfold hex_value. cbn [fold_left]. lia. }
      unfold int16.
      rewrite (proj2 (Z.leb_le (-32768) _)), (proj2 (Z.leb_le _ 32767)) by lia.
      reflexivity. }
    rewrite Hsmall.
    change (before ++ LF :: c1 :: c2 :: c3 :: after)
      with (before ++ [LF; c1; c2; c3] ++ after).
    rewrite (app_assoc before [LF; c1; c2; c3]).
    rewrite (hex_loop_groups (S (S n)) (before ++ [LF; c1; c2; c3]) after).
    + rewrite Hfit2, (numbers_that_fit_all _ Hfit2).
      destruct self as [arr name]. unfold set_array, numbers_of_groups.
      cbn [array filename]. rewrite <- app_assoc. reflexivity.
    + rewrite length_app, Hlen. cbn [length]. lia.
    + exact Hrest.
  - intros H. apply elem_of_app in H as [H|H].
    + assert (Hd : is_hex_digit 32 = true) by (apply Hdigits, elem_of_app; left; exact H).
      discriminate.
    + apply elem_of_cons in H as [H|H]; [discriminate|].
      assert (Hd : is_hex_digit 32 = true) by (apply Hdigits, elem_of_app; right; exact H).
      discriminate.
  - intros c Hc. destruct before as [|x before]; [discriminate|].
    injection Hc as ->. apply hex_digit_spec. apply Hdigits. left.
  - intros c Hc. apply hex_digit_spec.
    rewrite forallb_forall in Hafter. apply Hafter. apply list_elem_of_In.
    change (before ++ LF :: c1 :: c2 :: c3 :: after)
      with (before ++ [LF] ++ c1 :: c2 :: c3 :: after) in Hc.
    rewrite app_assoc, last_app in Hc.
    destruct (last (c1 :: c2 :: c3 :: after)) as [y|] eqn:Hy.
    + injection Hc as ->. apply last_Some_elem_of. exact Hy.
    + apply last_None in Hy. discriminate.
Qed.

Lemma array_from_hex_string_line_break_shifts_the_groups_witness :
  array_from_hex_string (u "00010002" ++ LF :: u "00030004") ArbData_init
    = (Return tt, set_array [1; 2; 0; 12288]%Z ArbData_init).
Proof.
  exact (array_from_hex_string_line_break_shifts_the_groups
           (u "00010002") (u "30004") 48 48 48 1 ArbData_init
           eq_refl eq_refl eq_refl eq_refl eq_refl).
Defined.

End ArbReading.

(** ** What the parsers raise: tgf4000.py *)

Section ParserErrors.
Import Tgf4000.

Lemma convert_items_int_raises (items : list str) (e : exception) :
  convert_items int_ items = Raise e <->
  e = ValueError /\ Exists (fun item => py_int 10 item = None) items.
Proof.
  induction items as [|item items IH]; simpl.
  - split; [discriminate|]. intros [_ H]. inversion H.
  - unfold int_ at 1. destruct (py_int 10 item) as [z|] eqn:Hitem.
    + destruct (convert_items int_ items) as [values|e'].
      * split; [discriminate|]. intros [He H]. inversion H as [? ? H0|? ? H0].
        -- congruence.
        -- pose proof (proj2 IH (conj He H0)) as Himpossible. discriminate Himpossible.
      * split.
        -- intros [= <-]. destruct (proj1 IH eq_refl) as [-> H].
           split; [reflexivity|]. right. exact H.
        -- intros [He H]. apply IH. split; [exact He|].
           inversion H as [? ? H0|? ? H0]; [congruence|exact H0].
    + split.
      * intros [= <-]. split; [reflexivity|]. left. exact Hitem.
      * intros [-> _]. reflexivity.
Qed.

(** [parse_ints] raises two errors and no other: [TypeError] for the empty
    reply, and for that one only, and [ValueError] otherwise. A reply with
    an empty field is one that raises [ValueError]; the line end alone,
    which is what [read] returns after a timeout, is such a reply. *)
Theorem parse_ints_raises_type_or_value_error (response : bytes) :
  parse_ints [] = Raise TypeError /\
  (forall e, parse_ints response = Raise e ->
     (response = [] /\ e = TypeError) \/ (response <> [] /\ e = ValueError)) /\
  (forall fields, unpack_response response = Some fields -> [] ∈ fields ->
     parse_ints response = Raise ValueError) /\
  parse_ints [x0d; x0a] = Raise ValueError.
Proof.
  split; [reflexivity|]. split; [|split; [|reflexivity]].
  - intros e. unfold parse_ints, parse_with. destruct response as [|x rest].
    + simpl. intros [= <-]. left. auto.
    + destruct (unpack_response (x :: rest)) as [fields|] eqn:Hfields; [|discriminate].
      destruct (convert_items int_ fields) as [values|e'] eqn:Hconv.
      * destruct values as [|v [|]]; discriminate.
      * intros [= <-]. right. split; [discriminate|].
        exact (proj1 (proj1 (convert_items_int_raises fields e') Hconv)).
  - intros fields Hfields Hempty. unfold parse_ints, parse_with. rewrite Hfields.
    assert (Hraise : convert_items int_ fields = Raise ValueError).
    { apply convert_items_int_raises. split; [reflexivity|].
      apply Exists_exists. exists []. split; [exact Hempty|reflexivity]. }
    rewrite Hraise. reflexivity.
Qed.

Lemma parse_ints_raises_type_or_value_error_witness :
  parse_ints (b "12, , 7") = Raise ValueError.
Proof.
  refine (proj1 (proj2 (proj2 (parse_ints_raises_type_or_value_error (b "12, , 7"))))
            [u "12"; []; u "7"] _ _).
  - vm_compute. reflexivity.
  - right. left.
Defined.

End ParserErrors.
